(** * Webhook deployment server: a shallow embedding of [index.js]

    The development follows the layout of the source file: helpers on
    JavaScript strings and dates, the log-line parser [parseLogFile],
    [execCommand], [saveLog], the three request handlers and [deployApp],
    then [loadConfig], the reload, [authMiddleware] and the start of the
    server.

    Conventions of the embedding.
    - A JavaScript string is a [list ascii]: a sequence of code units, here
      restricted to the range 0..255.  [str "..."] turns a literal into one.
    - [undefined] is [None]; a property that may be absent has an option type.
    - Effects (the clock, child processes, the [running] set, the log
      directory, [console.error]) are threaded through a state-and-exception
      monad [M].  What the outside world answers is read from an [Env]. *)

From Stdlib Require Import ZArith Ascii String List Lia.
From stdpp Require Import base option list gmap strings.

Set Warnings "-register-all".

Open Scope Z_scope.

Abbreviation jstring := (list ascii).

Definition str (s : string) : jstring := list_ascii_of_string s.

(** ** JavaScript values that the code tests for truthiness *)

(** [s ? a : b] and [s || d] on a string: the empty string is falsy. *)
Definition truthy_string (s : jstring) : bool :=
  match s with [] => false | _ :: _ => true end.

(** Truthiness of a property that is a string or [undefined]. *)
Definition truthy (v : option jstring) : bool :=
  match v with Some s => truthy_string s | None => false end.

(** [a || b] where both sides are a string or [undefined]. *)
Definition js_or (a b : option jstring) : option jstring :=
  if truthy a then a else b.

(** ** Code units *)

Definition dquote : ascii := "034"%char.
Definition backslash : ascii := "\"%char.
Definition LF : ascii := "010"%char.

Definition code (c : ascii) : Z := Z.of_N (N_of_ascii c).

(** ** Decimal rendering of integers: [String(n)] and template literals *)

Definition digit_char (d : Z) : ascii := ascii_of_N (Z.to_N (48 + d)).

Fixpoint digits_fuel (fuel : nat) (n : Z) (acc : jstring) : jstring :=
  match fuel with
  | O => acc
  | S f =>
      let acc' := digit_char (n mod 10) :: acc in
      if n / 10 =? 0 then acc' else digits_fuel f (n / 10) acc'
  end.

(** Digits of a non-negative integer, most significant first. *)
Definition digits (n : Z) : jstring := digits_fuel (S (Z.to_nat (Z.log2 n))) n [].

(** [String(n)] for an integer [n], as it is printed below 1e21 (time
    stamps and their differences are far below). *)
Definition String_of_Z (n : Z) : jstring :=
  if n <? 0 then "-"%char :: digits (- n) else digits n.

(** [s.padStart(2, "0")] *)
Definition padStart2 (s : jstring) : jstring :=
  match s with
  | [] => str "00"
  | [c] => ["0"%char; c]
  | _ => s
  end.

(** [s.slice(-n)] for a positive [n]: the last [n] code units. *)
Definition slice_last (n : nat) (s : jstring) : jstring :=
  drop (length s - n)%nat s.

(** ** [JSON.stringify] and [JSON.parse]

    JSON texts are modelled on the whole JSON grammar.  An integer literal is
    a [JNum]; a literal with a fraction or an exponent is kept as its text
    ([JReal]), no floating-point value is computed.  An escape [\uXXXX] above
    [\u00FF] lies outside the 8-bit code units of the model and is rejected. *)

Module JSON.

Inductive json : Type :=
  | JNull
  | JBool (b : bool)
  | JNum (n : Z)
  | JReal (literal : jstring)
  | JStr (s : jstring)
  | JArr (elements : list json)
  | JObj (members : list (jstring * json)).

Definition hex_char (d : Z) : ascii :=
  if d <? 10 then ascii_of_N (Z.to_N (48 + d)) else ascii_of_N (Z.to_N (87 + d)).

(** One code unit inside a JSON string literal (QuoteJSONString). *)
Definition quote_char (c : ascii) : jstring :=
  if Ascii.eqb c dquote then [backslash; dquote]
  else if Ascii.eqb c backslash then [backslash; backslash]
  else if code c =? 8 then [backslash; "b"%char]
  else if code c =? 12 then [backslash; "f"%char]
  else if code c =? 10 then [backslash; "n"%char]
  else if code c =? 13 then [backslash; "r"%char]
  else if code c =? 9 then [backslash; "t"%char]
  else if code c <? 32 then
    [backslash; "u"%char; "0"%char; "0"%char; hex_char (code c / 16); hex_char (code c mod 16)]
  else [c].

Definition quote_body (s : jstring) : jstring := flat_map quote_char s.

Definition quote (s : jstring) : jstring := dquote :: quote_body s ++ [dquote].

Fixpoint join_comma (parts : list jstring) : jstring :=
  match parts with
  | [] => []
  | [p] => p
  | p :: rest => p ++ ","%char :: join_comma rest
  end.

Fixpoint stringify (v : json) : jstring :=
  match v with
  | JNull => str "null"
  | JBool true => str "true"
  | JBool false => str "false"
  | JNum n => String_of_Z n
  | JReal l => l
  | JStr s => quote s
  | JArr l => "["%char :: join_comma (map stringify l) ++ ["]"%char]
  | JObj ms =>
      "{"%char ::
        join_comma (map (fun m => quote (fst m) ++ ":"%char :: stringify (snd m)) ms)
        ++ ["}"%char]
  end.

(** JSON white space: tab, line feed, carriage return, space. *)
Definition is_json_ws (c : ascii) : bool :=
  (code c =? 9) || (code c =? 10) || (code c =? 13) || (code c =? 32).

Fixpoint skip_ws (s : jstring) : jstring :=
  match s with
  | c :: r => if is_json_ws c then skip_ws r else s
  | [] => []
  end.

Definition is_digit (c : ascii) : bool := (48 <=? code c) && (code c <=? 57).

Fixpoint span_digits (s : jstring) : jstring * jstring :=
  match s with
  | c :: r =>
      if is_digit c then let '(d, r') := span_digits r in (c :: d, r') else ([], s)
  | [] => ([], [])
  end.

Definition digits_value (ds : jstring) : Z :=
  fold_left (fun a c => 10 * a + (code c - 48)) ds 0.

Definition hex_value (c : ascii) : option Z :=
  let n := code c in
  if (48 <=? n) && (n <=? 57) then Some (n - 48)
  else if (97 <=? n) && (n <=? 102) then Some (n - 87)
  else if (65 <=? n) && (n <=? 70) then Some (n - 55)
  else None.

Definition hex4 (a b c d : ascii) : option Z :=
  x ← hex_value a; y ← hex_value b; z ← hex_value c; w ← hex_value d;
  Some (((x * 16 + y) * 16 + z) * 16 + w).

Definition unescape (e : ascii) : option ascii :=
  if Ascii.eqb e dquote then Some dquote
  else if Ascii.eqb e backslash then Some backslash
  else if Ascii.eqb e "/"%char then Some "/"%char
  else if Ascii.eqb e "b"%char then Some "008"%char
  else if Ascii.eqb e "f"%char then Some "012"%char
  else if Ascii.eqb e "n"%char then Some "010"%char
  else if Ascii.eqb e "r"%char then Some "013"%char
  else if Ascii.eqb e "t"%char then Some "009"%char
  else None.

(** The rest of a string literal, after its opening quote. *)
Fixpoint parse_string (s : jstring) : option (jstring * jstring) :=
  match s with
  | [] => None
  | c :: r =>
      if Ascii.eqb c dquote then Some ([], r)
      else if Ascii.eqb c backslash then
        match r with
        | [] => None
        | e :: r' =>
            if Ascii.eqb e "u"%char then
              match r' with
              | h1 :: h2 :: h3 :: h4 :: r'' =>
                  match hex4 h1 h2 h3 h4 with
                  | Some n =>
                      if n <? 256 then
                        match parse_string r'' with
                        | Some (t, rest) => Some (ascii_of_N (Z.to_N n) :: t, rest)
                        | None => None
                        end
                      else None
                  | None => None
                  end
              | _ => None
              end
            else
              match unescape e with
              | Some c' =>
                  match parse_string r' with
                  | Some (t, rest) => Some (c' :: t, rest)
                  | None => None
                  end
              | None => None
              end
        end
      else if code c <? 32 then None
      else
        match parse_string r with
        | Some (t, rest) => Some (c :: t, rest)
        | None => None
        end
  end.

(** The optional fraction of a number literal: its text and what follows. *)
Definition parse_frac (s : jstring) : option (jstring * jstring) :=
  match s with
  | c :: r =>
      if Ascii.eqb c "."%char then
        let '(fp, s3) := span_digits r in
        match fp with [] => None | _ => Some ("."%char :: fp, s3) end
      else Some ([], s)
  | [] => Some ([], s)
  end.

(** The optional exponent of a number literal. *)
Definition parse_exp (s : jstring) : option (jstring * jstring) :=
  match s with
  | c :: r =>
      if Ascii.eqb c "e"%char || Ascii.eqb c "E"%char then
        let '(sg, r1) :=
          match r with
          | x :: r0 =>
              if Ascii.eqb x "+"%char || Ascii.eqb x "-"%char
              then ([x], r0) else ([], r)
          | [] => ([], r)
          end in
        let '(ep, s4) := span_digits r1 in
        match ep with [] => None | _ => Some (c :: sg ++ ep, s4) end
      else Some ([], s)
  | [] => Some ([], s)
  end.

(** A number literal: [-? int frac? exp?]. *)
Definition parse_number (s : jstring) : option (json * jstring) :=
  let '(neg, s1) :=
    match s with
    | c :: r => if Ascii.eqb c "-"%char then (true, r) else (false, s)
    | [] => (false, s)
    end in
  let '(ip, s2) := span_digits s1 in
  match ip with
  | [] => None
  | d :: ds =>
      if Ascii.eqb d "0"%char && negb (length ds =? 0)%nat then None
      else
        match parse_frac s2 with
        | None => None
        | Some (ftext, s3) =>
            match parse_exp s3 with
            | None => None
            | Some (etext, s4) =>
                match ftext, etext with
                | [], [] =>
                    Some (JNum (if neg then - digits_value ip else digits_value ip), s4)
                | _, _ =>
                    Some (JReal ((if neg then ["-"%char] else []) ++ ip ++ ftext ++ etext), s4)
                end
            end
        end
  end.

Definition strip_prefix (p s : jstring) : option jstring :=
  if decide (take (length p) s = p) then Some (drop (length p) s) else None.

Fixpoint parse_value (fuel : nat) (s : jstring) : option (json * jstring) :=
  match fuel with
  | O => None
  | S f =>
      match skip_ws s with
      | [] => None
      | c :: r =>
          if Ascii.eqb c dquote then
            match parse_string r with
            | Some (t, rest) => Some (JStr t, rest)
            | None => None
            end
          else if Ascii.eqb c "["%char then
            match skip_ws r with
            | c' :: r' =>
                if Ascii.eqb c' "]"%char then Some (JArr [], r')
                else match parse_elements f r with
                     | Some (l, rest) => Some (JArr l, rest)
                     | None => None
                     end
            | [] => None
            end
          else if Ascii.eqb c "{"%char then
            match skip_ws r with
            | c' :: r' =>
                if Ascii.eqb c' "}"%char then Some (JObj [], r')
                else match parse_members f r with
                     | Some (l, rest) => Some (JObj l, rest)
                     | None => None
                     end
            | [] => None
            end
          else if Ascii.eqb c "n"%char then
            match strip_prefix (str "ull") r with
            | Some rest => Some (JNull, rest) | None => None end
          else if Ascii.eqb c "t"%char then
            match strip_prefix (str "rue") r with
            | Some rest => Some (JBool true, rest) | None => None end
          else if Ascii.eqb c "f"%char then
            match strip_prefix (str "alse") r with
            | Some rest => Some (JBool false, rest) | None => None end
          else parse_number (c :: r)
      end
  end
with parse_elements (fuel : nat) (s : jstring) : option (list json * jstring) :=
  match fuel with
  | O => None
  | S f =>
      match parse_value f s with
      | None => None
      | Some (v, r) =>
          match skip_ws r with
          | c :: r' =>
              if Ascii.eqb c ","%char then
                match parse_elements f r' with
                | Some (vs, rest) => Some (v :: vs, rest)
                | None => None
                end
              else if Ascii.eqb c "]"%char then Some ([v], r')
              else None
          | [] => None
          end
      end
  end
with parse_members (fuel : nat) (s : jstring) : option (list (jstring * json) * jstring) :=
  match fuel with
  | O => None
  | S f =>
      match skip_ws s with
      | q :: r0 =>
          if Ascii.eqb q dquote then
            match parse_string r0 with
            | None => None
            | Some (k, r1) =>
                match skip_ws r1 with
                | c1 :: r2 =>
                    if Ascii.eqb c1 ":"%char then
                      match parse_value f r2 with
                      | None => None
                      | Some (v, r3) =>
                          match skip_ws r3 with
                          | c :: r' =>
                              if Ascii.eqb c ","%char then
                                match parse_members f r' with
                                | Some (ms, rest) => Some ((k, v) :: ms, rest)
                                | None => None
                                end
                              else if Ascii.eqb c "}"%char then Some ([(k, v)], r')
                              else None
                          | [] => None
                          end
                      end
                    else None
                | [] => None
                end
            end
          else None
      | [] => None
      end
  end.

(** [JSON.parse]: [None] stands for the [SyntaxError] it throws.  The fuel
    is more than a descent needs: a level of nesting takes two units and at
    least one character, an element or a member one unit and at least two
    characters. *)
Definition parse (s : jstring) : option json :=
  match parse_value (2 * length s + 2) s with
  | Some (v, rest) => match skip_ws rest with [] => Some v | _ => None end
  | None => None
  end.

End JSON.

Import JSON.

(** ** More string primitives: [trim], [split], [indexOf], [includes] *)

(** White space in the sense of [String.prototype.trim], within 0..255. *)
Definition is_js_ws (c : ascii) : bool :=
  ((9 <=? code c) && (code c <=? 13)) || (code c =? 32) || (code c =? 160).

Fixpoint trimStart (s : jstring) : jstring :=
  match s with
  | c :: r => if is_js_ws c then trimStart r else s
  | [] => []
  end.

Definition trimEnd (s : jstring) : jstring := rev (trimStart (rev s)).

Definition trim (s : jstring) : jstring := trimEnd (trimStart s).

(** [s.split("\n")]: always at least one piece. *)
Fixpoint split_lines (s : jstring) : list jstring :=
  match s with
  | [] => [[]]
  | c :: r =>
      if Ascii.eqb c LF then [] :: split_lines r
      else match split_lines r with
           | l :: ls => (c :: l) :: ls
           | [] => [[c]]
           end
  end.

(** [line.indexOf(":")] together with the two [substring]s taken around it:
    [None] stands for [-1]. *)
Fixpoint cut_at_colon (line : jstring) : option (jstring * jstring) :=
  match line with
  | [] => None
  | c :: r =>
      if Ascii.eqb c ":"%char then Some ([], r)
      else match cut_at_colon r with
           | Some (before, after) => Some (c :: before, after)
           | None => None
           end
  end.

Definition starts_with (p s : jstring) : bool := bool_decide (take (length p) s = p).

(** [s.includes(p)] *)
Fixpoint includes (s p : jstring) : bool :=
  starts_with p s || match s with [] => false | _ :: r => includes r p end.

(** ** Dates

    A [Date] object is represented by its local time value in milliseconds;
    the handlers only use its calendar fields.  The calendar is the proleptic
    Gregorian one of ECMAScript, computed by era, year of era and day of year. *)

Definition msPerDay : Z := 86400000.
Definition Day (t : Z) : Z := t / msPerDay.
Definition TimeWithinDay (t : Z) : Z := t mod msPerDay.

(** Year, month (1..12) and day of month of a day number (day 0 = 1970-01-01). *)
Definition civil_from_days (z : Z) : Z * Z * Z :=
  let z := z + 719468 in
  let era := z / 146097 in
  let doe := z - era * 146097 in
  let yoe := (doe - doe / 1460 + doe / 36524 - doe / 146096) / 365 in
  let doy := doe - (365 * yoe + yoe / 4 - yoe / 100) in
  let mp := (5 * doy + 2) / 153 in
  let d := doy - (153 * mp + 2) / 5 + 1 in
  let m := if mp <? 10 then mp + 3 else mp - 9 in
  (yoe + era * 400 + (if m <=? 2 then 1 else 0), m, d).

Definition days_from_civil (y m d : Z) : Z :=
  let y := if m <=? 2 then y - 1 else y in
  let era := y / 400 in
  let yoe := y - era * 400 in
  let doy := (153 * (if 2 <? m then m - 3 else m + 9) + 2) / 5 + d - 1 in
  let doe := yoe * 365 + yoe / 4 - yoe / 100 + doy in
  era * 146097 + doe - 719468.

(** A [Date] object as far as its local fields go: [localTime] is the
    local time of its time value, in milliseconds.  The code reads only the
    local year, month and day of the month of a date. *)
Record JsDate := { localTime : Z }.

Definition getFullYear (d : JsDate) : Z := (civil_from_days (Day (localTime d))).1.1.
Definition getMonth (d : JsDate) : Z := (civil_from_days (Day (localTime d))).1.2 - 1.
Definition getDate (d : JsDate) : Z := (civil_from_days (Day (localTime d))).2.

(** [MakeDay(year, month, date)] with a 0-based month. *)
Definition MakeDay (year month date : Z) : Z :=
  days_from_civil (year + month / 12) (month mod 12 + 1) 1 + date - 1.

(** [date.setDate(dt)]: the new local time.  The engine keeps the UTC
    counterpart of it and the local fields are read back from that; the two
    agree except for a local time that a time zone transition skips, a case
    that is left out here. *)
Definition setDate (d : JsDate) (dt : Z) : JsDate :=
  {| localTime := MakeDay (getFullYear d) (getMonth d) dt * msPerDay
                  + TimeWithinDay (localTime d) |}.

(** ** Configuration: [APPS] and the step definitions *)

Record DeploymentStep := {
  step_name : option jstring;
  step_command : jstring;
}.

(** An entry of the [steps] array.  [loadConfig] checks that [steps] is a
    non-empty array, not what its entries are.  An entry may be [null].  It
    may also have no [command]: a string such as [git pull], a number, or an
    object without that property; [name] is then its [name], if it has one
    (a string or a number has none).  A [command], where there is one, is a
    string. *)
Inductive step_value :=
  | StepNull
  | StepObject (s : DeploymentStep)
  | StepWithoutCommand (name : option jstring).

Record EnvConfig := {
  cfg_path : jstring;
  cfg_steps : list step_value;
}.

(** ** The outside world *)

Record ExecOptions := {
  opt_cwd : jstring;
  opt_timeout : Z;
  opt_shell : option jstring;
}.

(** The arguments [(error, stdout, stderr)] that [exec] passes to its
    callback; [cb_error] is [error.message], [None] when [error] is null. *)
Record ExecCallback := {
  cb_error : option jstring;
  cb_stdout : jstring;
  cb_stderr : jstring;
}.

(** Values that are thrown or that a promise rejects with. *)
Inductive js_exn :=
  | ExecRejection (error stderr stdout : jstring)
  | JsError (message : jstring).

Inductive outcome (A : Type) :=
  | Returned (a : A)
  | Thrown (e : js_exn).
Arguments Returned {A} a.
Arguments Thrown {A} e.

(** What the program cannot decide: the readings of the clock, the local
    time zone, what each child process does and whether the file system
    refuses an operation.  Two answers of the runtime are taken from here
    as well.  [exec_TypeError command] is the message of the [TypeError]
    that [exec] throws, without starting a process, for a command that is
    [undefined] or empty.  [inherited_truthy a e] is [Object.prototype[a][e]]
    for a property [a] of [Object.prototype]: whether the value is truthy, or
    what reading it throws. *)
Record Env := {
  now : nat -> Z;
  localTZA : Z -> Z;
  exec : nat -> jstring -> ExecOptions -> ExecCallback;
  exec_TypeError : option jstring -> jstring;
  inherited_truthy : jstring -> jstring -> outcome bool;
  mkdir_error : option jstring;
  appendFile_error : option jstring;
}.

Definition exn_error (e : js_exn) : option jstring :=
  match e with ExecRejection m _ _ => Some m | JsError _ => None end.
Definition exn_stderr (e : js_exn) : option jstring :=
  match e with ExecRejection _ s _ => Some s | JsError _ => None end.
Definition exn_stdout (e : js_exn) : option jstring :=
  match e with ExecRejection _ _ s => Some s | JsError _ => None end.
Definition exn_message (e : js_exn) : option jstring :=
  match e with ExecRejection _ _ _ => None | JsError m => Some m end.

(** One child process started by [exec], with the [running] set as it stands
    while the process runs (this is what a request served in the meantime
    observes) and the number of clock readings taken before it started. *)
Record ExecCall := {
  ec_command : jstring;
  ec_options : ExecOptions;
  ec_running : gset jstring;
  ec_clock : nat;
}.

(** Calls of [console.error] ([console.log] lines are not modelled). *)
Inductive Report :=
  | FailedToCreateLogsDir (err : js_exn)
  | FailedToParseLogLine
  | FailedToSaveLog (err : js_exn)
  | StepFailed (deployId stepName : jstring) (error : option jstring)
  | DeploymentFailed (deployId : jstring) (duration : Z).

Record World := {
  APPS : gmap jstring (gmap jstring EnvConfig);
  shellPath : option jstring;
  running : gset jstring;
  clock : nat;
  trace : list ExecCall;
  logs_dir : bool;
  files : gmap jstring jstring;
  console_error : list Report;
}.

(** ** The monad of effects *)

Definition M (S A : Type) : Type := Env -> S -> outcome A * S.

#[global] Instance M_ret {S} : MRet (M S) := fun A a _ s => (Returned a, s).

#[global] Instance M_bind {S} : MBind (M S) := fun A B f m env s =>
  match m env s with
  | (Returned a, s') => f a env s'
  | (Thrown e, s') => (Thrown e, s')
  end.

Definition throw {S A} (e : js_exn) : M S A := fun _ s => (Thrown e, s).

(** [try { body } catch (err) { handler err }] *)
Definition try_catch {S A} (body : M S A) (handler : js_exn -> M S A) : M S A :=
  fun env s =>
    match body env s with
    | (Returned a, s') => (Returned a, s')
    | (Thrown e, s') => handler e env s'
    end.

(** [try { body } finally { cleanup }] *)
Definition try_finally {S A} (body : M S A) (cleanup : M S unit) : M S A :=
  fun env s =>
    let '(r, s') := body env s in
    match cleanup env s' with
    | (Returned _, s'') => (r, s'')
    | (Thrown e, s'') => (Thrown e, s'')
    end.

Definition gets {S A} (f : S -> A) : M S A := fun _ s => (Returned (f s), s).
Definition modify {S} (f : S -> S) : M S unit := fun _ s => (Returned tt, f s).
Definition ask {S A} (f : Env -> A) : M S A := fun env s => (Returned (f env), s).

(** A computation on the world, run where a local variable [L] is in scope. *)
Definition lift {L A} (m : M World A) : M (World * L) A :=
  fun env s =>
    let '(r, w') := m env s.1 in (r, (w', s.2)).

(** [let x = init; body], giving back the last value of [x]. *)
Definition with_local {L A} (init : L) (body : M (World * L) A) : M World (A * L) :=
  fun env w =>
    match body env (w, init) with
    | (Returned a, (w', l)) => (Returned (a, l), w')
    | (Thrown e, (w', _)) => (Thrown e, w')
    end.

Definition get_local {L} : M (World * L) L := gets snd.
Definition set_local {L} (f : L -> L) : M (World * L) unit :=
  modify (fun s => (s.1, f s.2)).

(** ** Primitive operations on the world *)

Definition set_running (r : gset jstring) (w : World) : World :=
  {| APPS := APPS w; shellPath := shellPath w; running := r; clock := clock w;
     trace := trace w; logs_dir := logs_dir w; files := files w;
     console_error := console_error w |}.
Definition set_clock (c : nat) (w : World) : World :=
  {| APPS := APPS w; shellPath := shellPath w; running := running w; clock := c;
     trace := trace w; logs_dir := logs_dir w; files := files w;
     console_error := console_error w |}.
Definition set_trace (t : list ExecCall) (w : World) : World :=
  {| APPS := APPS w; shellPath := shellPath w; running := running w; clock := clock w;
     trace := t; logs_dir := logs_dir w; files := files w;
     console_error := console_error w |}.
Definition set_logs_dir (b : bool) (w : World) : World :=
  {| APPS := APPS w; shellPath := shellPath w; running := running w; clock := clock w;
     trace := trace w; logs_dir := b; files := files w;
     console_error := console_error w |}.
Definition set_files (f : gmap jstring jstring) (w : World) : World :=
  {| APPS := APPS w; shellPath := shellPath w; running := running w; clock := clock w;
     trace := trace w; logs_dir := logs_dir w; files := f;
     console_error := console_error w |}.
Definition set_console_error (c : list Report) (w : World) : World :=
  {| APPS := APPS w; shellPath := shellPath w; running := running w; clock := clock w;
     trace := trace w; logs_dir := logs_dir w; files := files w;
     console_error := c |}.

Module Date.

(** [Date.now()]: the next reading of the clock. *)
Definition now : M World Z := fun env w =>
  (Returned (now env (clock w)), set_clock (S (clock w)) w).

End Date.

(** [new Date()] *)
Definition new_Date : M World JsDate :=
  t ← Date.now;
  tza ← ask localTZA;
  mret {| localTime := t + tza t |}.

(** [new Date().toISOString()]: the instant stands for its rendering. *)
Definition new_Date_toISOString : M World Z := Date.now.

Module console.

(** [console.error(...)] *)
Definition error (r : Report) : M World unit :=
  modify (fun w => set_console_error (console_error w ++ [r]) w).

End console.

(** The methods of the set [running]. *)
Module running.

Definition has (key : jstring) : M World bool :=
  gets (fun w => bool_decide (key ∈ running w)).
Definition add (key : jstring) : M World unit :=
  modify (fun w => set_running ({[key]} ∪ running w) w).
Definition delete (key : jstring) : M World unit :=
  modify (fun w => set_running (running w ∖ {[key]}) w).

End running.

Module fs.

Definition ENOENT : jstring := str "ENOENT: no such file or directory".

(** [fs.mkdir(LOGS_DIR, { recursive: true })] *)
Definition mkdir : M World unit := fun env w =>
  match mkdir_error env with
  | Some m => (Thrown (JsError m), w)
  | None => (Returned tt, set_logs_dir true w)
  end.

(** [fs.appendFile(path, data, "utf8")] for a file of the logs directory. *)
Definition appendFile (path data : jstring) : M World unit := fun env w =>
  match appendFile_error env with
  | Some m => (Thrown (JsError m), w)
  | None =>
      if logs_dir w
      then (Returned tt, set_files (<[path := default [] (files w !! path) ++ data]> (files w)) w)
      else (Thrown (JsError ENOENT), w)
  end.

(** [fs.readFile(path, "utf8")] *)
Definition readFile (path : jstring) : M World jstring := fun _ w =>
  match files w !! path with
  | Some content => (Returned content, w)
  | None => (Thrown (JsError ENOENT), w)
  end.

End fs.

(** ** [index.js]: helpers *)

(** [s.split("/")]: always at least one piece. *)
Fixpoint split_slash (s : jstring) : list jstring :=
  match s with
  | [] => [[]]
  | c :: r =>
      if Ascii.eqb c "/"%char then [] :: split_slash r
      else match split_slash r with
           | l :: ls => (c :: l) :: ls
           | [] => [[c]]
           end
  end.

Fixpoint join_slash (segments : list jstring) : jstring :=
  match segments with
  | [] => []
  | [s] => s
  | s :: rest => s ++ "/"%char :: join_slash rest
  end.

(** One segment met by [path.normalize]; [stack] holds the segments kept
    so far, the last one first.  An empty segment and [.] are dropped;
    [..] removes the segment before it, unless there is none or it is [..]
    itself: then it is kept in a relative path and dropped in an absolute
    one. *)
Definition normalize_segment (allowAboveRoot : bool) (stack : list jstring) (segment : jstring)
  : list jstring :=
  if bool_decide (segment = []) || bool_decide (segment = str ".") then stack
  else if bool_decide (segment = str "..") then
    match stack with
    | top :: below =>
        if bool_decide (top = str "..")
        then (if allowAboveRoot then segment :: stack else stack)
        else below
    | [] => if allowAboveRoot then [segment] else []
    end
  else segment :: stack.

(** [path.normalize(p)] of POSIX. *)
Definition path_normalize (p : jstring) : jstring :=
  match p with
  | [] => str "."
  | c :: _ =>
      let isAbsolute := Ascii.eqb c "/"%char in
      let trailingSeparator :=
        match last p with Some l => Ascii.eqb l "/"%char | None => false end in
      let kept := rev (fold_left (normalize_segment (negb isAbsolute)) (split_slash p) []) in
      match join_slash kept with
      | [] => if isAbsolute then str "/" else if trailingSeparator then str "./" else str "."
      | body =>
          (if isAbsolute then ["/"%char] else []) ++ body
            ++ (if trailingSeparator then ["/"%char] else [])
      end
  end.

(** [path.join(dir, name)] of POSIX: the arguments that are not empty are
    joined with [/] and the result is normalized, so that [.] and [..] in
    [name] are resolved.  Paths are relative to [__dirname]: a path that
    leaves that directory begins with [..], and [__dirname] is taken to lie
    deep enough below the root of the file system for every [..] that a
    path begins with. *)
Definition path_join (dir name : jstring) : jstring :=
  match dir, name with
  | [], [] => str "."
  | [], _ => path_normalize name
  | _, [] => path_normalize dir
  | _, _ => path_normalize (dir ++ "/"%char :: name)
  end.

(** [path.join(__dirname, "logs")], relative to [__dirname]. *)
Definition LOGS_DIR : jstring := str "logs".

Definition getLogFilePath (date : JsDate) : jstring :=
  let year := getFullYear date in
  let month := padStart2 (String_of_Z (getMonth date + 1)) in
  let day := padStart2 (String_of_Z (getDate date)) in
  path_join LOGS_DIR (String_of_Z year ++ month ++ day ++ str ".txt").

(** [getLogFilePath()] with its default argument [new Date()]. *)
Definition getLogFilePath_today : M World jstring :=
  date ← new_Date; mret (getLogFilePath date).

Definition ensureLogsDir : M World unit :=
  try_catch fs.mkdir (fun err => console.error (FailedToCreateLogsDir err)).

Record LogEntry := {
  deployId : jstring;
  steps : json;
}.

(** What the body of the loop of [parseLogFile] does with one line. *)
Inductive line_result :=
  | LinePushed (entry : LogEntry)
  | LineNoColon
  | LineFailed.

Definition parseLine (line : jstring) : line_result :=
  match cut_at_colon line with
  | None => LineNoColon
  | Some (before, after) =>
      let deployId := trim before in
      let stepsJson := trim after in
      match JSON.parse stepsJson with
      | Some steps => LinePushed {| deployId := deployId; steps := steps |}
      | None => LineFailed
      end
  end.

Fixpoint parseLines (lines : list jstring) : M World (list LogEntry) :=
  match lines with
  | [] => mret []
  | line :: rest =>
      pushed ← match parseLine line with
               | LinePushed entry => mret [entry]
               | LineNoColon => mret []
               | LineFailed => console.error FailedToParseLogLine;; mret []
               end;
      logs ← parseLines rest;
      mret (pushed ++ logs)
  end.

Definition parseLogFile (content : jstring) : M World (list LogEntry) :=
  let lines := filter (fun line => truthy_string (trim line) = true) (split_lines content) in
  parseLines lines.

(** ** [execCommand] *)

Definition replace_backslashes (s : jstring) : jstring :=
  map (fun c => if Ascii.eqb c backslash then "/"%char else c) s.

(** [exec(command, options, callback)] wrapped in the promise of
    [execCommand]: the callback rejects on an error and resolves otherwise.
    For a command that is [undefined] or the empty string [exec] throws a
    [TypeError] before it starts anything, and the promise rejects with
    that error. *)
Definition exec_promise (command : option jstring) (options : ExecOptions)
  : M World (jstring * jstring) := fun env w =>
  match command with
  | Some (c :: cs) =>
      let command := c :: cs in
      let cb := exec env (length (trace w)) command options in
      let w' := set_trace (trace w ++ [{| ec_command := command; ec_options := options;
                                          ec_running := running w;
                                          ec_clock := clock w |}]) w in
      match cb_error cb with
      | Some message => (Thrown (ExecRejection message (cb_stderr cb) (cb_stdout cb)), w')
      | None => (Returned (cb_stdout cb, cb_stderr cb), w')
      end
  | _ => (Thrown (JsError (exec_TypeError env command)), w)
  end.

(** The [options] object built by [execCommand]. *)
Definition exec_options (shellPath : option jstring) (cwd : jstring) : ExecOptions :=
  {| opt_cwd := cwd; opt_timeout := 300000;
     opt_shell := if truthy shellPath then replace_backslashes <$> shellPath else None |}.

Definition execCommand (command : option jstring) (cwd : jstring)
  : M World (jstring * jstring) :=
  sp ← gets shellPath;
  exec_promise command (exec_options sp cwd).

(** ** Run records *)

Inductive StepStatus := StepSuccess | StepError.
Inductive RunStatus := InProgress | Success | Failed.

Definition StepStatus_string (s : StepStatus) : jstring :=
  match s with StepSuccess => str "success" | StepError => str "error" end.

(** An element of [log.steps].  A successful step has [output] and [stderr];
    a failed one has [error], [stderr] and [stdout].  [command] is
    [undefined] for a step without a command. *)
Record StepResult := {
  sr_order : Z;
  sr_name : jstring;
  sr_command : option jstring;
  sr_status : StepStatus;
  sr_duration : Z;
  sr_output : option jstring;
  sr_stderr : option jstring;
  sr_error : option jstring;
  sr_stdout : option jstring;
}.

Record RunRecord := {
  log_deployId : jstring;
  log_app : jstring;
  log_env : jstring;
  log_startTime : Z;
  log_status : RunStatus;
  log_path : jstring;
  log_steps : list StepResult;
  log_duration : option Z;
  log_error : option jstring;
  log_endTime : option Z;
}.

Definition push_step (s : StepResult) (l : RunRecord) : RunRecord :=
  {| log_deployId := log_deployId l; log_app := log_app l; log_env := log_env l;
     log_startTime := log_startTime l; log_status := log_status l; log_path := log_path l;
     log_steps := log_steps l ++ [s]; log_duration := log_duration l;
     log_error := log_error l; log_endTime := log_endTime l |}.
Definition set_status (st : RunStatus) (l : RunRecord) : RunRecord :=
  {| log_deployId := log_deployId l; log_app := log_app l; log_env := log_env l;
     log_startTime := log_startTime l; log_status := st; log_path := log_path l;
     log_steps := log_steps l; log_duration := log_duration l;
     log_error := log_error l; log_endTime := log_endTime l |}.
Definition set_duration (d : Z) (l : RunRecord) : RunRecord :=
  {| log_deployId := log_deployId l; log_app := log_app l; log_env := log_env l;
     log_startTime := log_startTime l; log_status := log_status l; log_path := log_path l;
     log_steps := log_steps l; log_duration := Some d;
     log_error := log_error l; log_endTime := log_endTime l |}.
Definition set_error (e : option jstring) (l : RunRecord) : RunRecord :=
  {| log_deployId := log_deployId l; log_app := log_app l; log_env := log_env l;
     log_startTime := log_startTime l; log_status := log_status l; log_path := log_path l;
     log_steps := log_steps l; log_duration := log_duration l;
     log_error := e; log_endTime := log_endTime l |}.
Definition set_endTime (t : Z) (l : RunRecord) : RunRecord :=
  {| log_deployId := log_deployId l; log_app := log_app l; log_env := log_env l;
     log_startTime := log_startTime l; log_status := log_status l; log_path := log_path l;
     log_steps := log_steps l; log_duration := log_duration l;
     log_error := log_error l; log_endTime := Some t |}.

(** ** [saveLog] *)

(** [a || ""] *)
Definition or_empty (a : option jstring) : jstring :=
  if truthy a then default [] a else [].

(** A property whose value is a string or [undefined]: [JSON.stringify]
    leaves out a property that is [undefined]. *)
Definition optional_member (k : string) (v : option jstring) : list (jstring * json) :=
  match v with
  | Some s => [(str k, JStr s)]
  | None => []
  end.

Definition formatStep (index : nat) (step : StepResult) : json :=
  JObj ([ (str "step", JNum (Z.of_nat index));
          (str "name", JStr (sr_name step)) ]
        ++ optional_member "command" (sr_command step)
        ++ [ (str "status", JStr (StepStatus_string (sr_status step)));
             (str "duration", JNum (sr_duration step));
             (str "output", JStr (or_empty (js_or (sr_output step) (sr_stdout step))));
             (str "stderr", JStr (or_empty (sr_stderr step)));
             (str "error", JStr (or_empty (sr_error step))) ]).

Definition formattedSteps (l : list StepResult) : list json := imap formatStep l.

Definition logLine (logEntry : RunRecord) : jstring :=
  log_deployId logEntry ++ str ": " ++ JSON.stringify (JArr (formattedSteps (log_steps logEntry)))
    ++ [LF].

Definition saveLog (logEntry : RunRecord) : M World unit :=
  try_catch
    (ensureLogsDir;;
     logFilePath ← getLogFilePath_today;
     fs.appendFile logFilePath (logLine logEntry))
    (fun err => console.error (FailedToSaveLog err)).

(** ** [deployApp] *)

(** The message of the [TypeError] raised by [step.name] on a null entry. *)
Definition TypeError_null_name : jstring :=
  str "Cannot read properties of null (reading 'name')".

(** [step.name] and [step.command] on an entry that is not [null]. *)
Definition name_of (step : step_value) : option jstring :=
  match step with
  | StepNull => None
  | StepObject s => step_name s
  | StepWithoutCommand name => name
  end.
Definition command_of (step : step_value) : option jstring :=
  match step with
  | StepObject s => Some (step_command s)
  | _ => None
  end.

(** [step.name || `Step ${i + 1}`] *)
Definition stepName (i : nat) (step : step_value) : jstring :=
  if truthy (name_of step) then default [] (name_of step)
  else str "Step " ++ String_of_Z (Z.of_nat i + 1).

(** The body of the loop over [config.steps]. *)
Definition run_step (deployId : jstring) (startTime : Z) (config : EnvConfig)
    (i : nat) (step : step_value) : M (World * RunRecord) unit :=
  match step with
  | StepNull => throw (JsError TypeError_null_name)
  | _ => mret tt
  end;;
  let stepName := stepName i step in
  let stepCommand := command_of step in
  try_catch
    (stepStartTime ← lift Date.now;
     result ← lift (execCommand stepCommand (cfg_path config));
     t ← lift Date.now;
     let stepDuration := t - stepStartTime in
     set_local (push_step
       {| sr_order := Z.of_nat i + 1;
          sr_name := stepName;
          sr_command := stepCommand;
          sr_status := StepSuccess;
          sr_duration := stepDuration;
          sr_output := Some (if truthy_string result.1 then slice_last 1000 result.1 else []);
          sr_stderr := Some (if truthy_string result.2 then slice_last 500 result.2 else []);
          sr_error := None;
          sr_stdout := None |}))
    (fun err =>
     t ← lift Date.now;
     let stepDuration := t - startTime in
     set_local (push_step
       {| sr_order := Z.of_nat i + 1;
          sr_name := stepName;
          sr_command := stepCommand;
          sr_status := StepError;
          sr_duration := stepDuration;
          sr_output := None;
          sr_stderr := exn_stderr err;
          sr_error := exn_error err;
          sr_stdout := exn_stdout err |});;
     lift (console.error (StepFailed deployId stepName (exn_error err)));;
     throw err).

(** [for (let i = i0; i < steps.length; i++) body] over the remaining steps. *)
Fixpoint for_steps {St} (body : nat -> step_value -> M St unit) (i : nat)
    (steps : list step_value) : M St unit :=
  match steps with
  | [] => mret tt
  | step :: rest => body i step;; for_steps body (S i) rest
  end.

Definition running_key (appName env : jstring) : jstring := appName ++ "-"%char :: env.

(** [deployApp] gives back the record it hands to [saveLog]. *)
Definition deployApp (deployId appName env : jstring) (config : EnvConfig)
  : M World RunRecord :=
  startTime ← Date.now;
  startIso ← new_Date_toISOString;
  let log :=
    {| log_deployId := deployId; log_app := appName; log_env := env;
       log_startTime := startIso; log_status := InProgress; log_path := cfg_path config;
       log_steps := []; log_duration := None; log_error := None; log_endTime := None |} in
  running.add (running_key appName env);;
  r ← with_local log
    (try_finally
       (try_catch
          (for_steps (run_step deployId startTime config) 0 (cfg_steps config);;
           set_local (set_status Success);;
           t ← lift Date.now;
           set_local (set_duration (t - startTime)))
          (fun err =>
           set_local (set_status Failed);;
           t ← lift Date.now;
           set_local (set_duration (t - startTime));;
           set_local (set_error (js_or (exn_error err) (exn_message err)));;
           lift (console.error (DeploymentFailed deployId (t - startTime)))))
       (lift (running.delete (running_key appName env)));;
     endTime ← lift new_Date_toISOString;
     set_local (set_endTime endTime));
  saveLog r.2;;
  mret r.2.

(** ** The request handlers (after the rate limiter and the auth check) *)

Inductive Payload :=
  | MissingRequiredFields
  | AppNotFound (available_apps : gset jstring)
  | EnvironmentNotFound (available_envs : gset jstring)
  | DeploymentAlreadyRunning
  | DeploymentStarted (deployId app env : jstring) (steps : nat) (timestamp : Z)
  | LogList (logs : list LogEntry) (total : nat) (app env date : option jstring)
  | LogFound (log : LogEntry)
  | LogNotFound
  | FailedToReadLogs (details : option jstring).

Record Response := {
  statusCode : Z;
  payload : Payload;
}.

(** A call that is not awaited: however it ends, the caller goes on. *)
Definition spawn {A} (m : M World A) : M World unit := fun env w =>
  (Returned tt, (m env w).2).

(** The names of the properties of [Object.prototype]: [APPS] and the
    object of each app inherit them, so that [APPS[k]] is not [undefined]
    for such a [k] even when no app has that name.  Each of these
    properties is a function, except [__proto__], which is
    [Object.prototype] itself: all are truthy and none has [steps]. *)
Definition Object_prototype_names : list jstring :=
  map str [ "constructor"; "__defineGetter__"; "__defineSetter__"; "hasOwnProperty";
            "__lookupGetter__"; "__lookupSetter__"; "isPrototypeOf";
            "propertyIsEnumerable"; "toString"; "valueOf"; "__proto__";
            "toLocaleString" ]%string.

Definition inherited_name (k : jstring) : bool := bool_decide (k ∈ Object_prototype_names).

(** [APPS[a][e]] for a property [a] of [Object.prototype]. *)
Definition inherited_member (a e : jstring) : M World bool :=
  fun env w => (inherited_truthy env a e, w).

(** The message of the [TypeError] raised by [config.steps.length] when
    [config] has no [steps]. *)
Definition TypeError_undefined_length : jstring :=
  str "Cannot read properties of undefined (reading 'length')".

(** The end of the handler when [APPS[appName][env]] is truthy but
    inherited, so not a definition: after the test of the slot and the
    reading for [deployId], [config.steps.length] throws. *)
Definition trigger_inherited (appName env : jstring) : M World Response :=
  busy ← running.has (running_key appName env);
  if busy : bool then
    mret {| statusCode := 400; payload := DeploymentAlreadyRunning |}
  else
    Date.now;;
    throw (JsError TypeError_undefined_length).

(** [POST /webhook/deploy] with [req.body = { app, env }].  [APPS[appName]]
    and [APPS[appName][env]] are looked up among the configured apps and
    environments first, then among the properties that every object
    inherits.  [deployApp] is started and not awaited: here it runs to its
    end before the handler returns. *)
Definition post_webhook_deploy (body_app body_env : option jstring) : M World Response :=
  if negb (truthy body_app) || negb (truthy body_env) then
    mret {| statusCode := 400; payload := MissingRequiredFields |}
  else
    let appName := default [] body_app in
    let env := default [] body_env in
    apps ← gets APPS;
    match apps !! appName with
    | None =>
        if inherited_name appName then
          found ← inherited_member appName env;
          if found : bool then trigger_inherited appName env
          else mret {| statusCode := 400; payload := EnvironmentNotFound ∅ |}
        else mret {| statusCode := 400; payload := AppNotFound (dom apps) |}
    | Some envs =>
        match envs !! env with
        | None =>
            if inherited_name env then trigger_inherited appName env
            else mret {| statusCode := 400; payload := EnvironmentNotFound (dom envs) |}
        | Some config =>
            busy ← running.has (running_key appName env);
            if busy : bool then
              mret {| statusCode := 400; payload := DeploymentAlreadyRunning |}
            else
              t ← Date.now;
              let deployId := appName ++ "-"%char :: env ++ "-"%char :: String_of_Z t in
              timestamp ← new_Date_toISOString;
              spawn (deployApp deployId appName env config);;
              mret {| statusCode := 200;
                      payload := DeploymentStarted deployId appName env
                                   (length (cfg_steps config)) timestamp |}
        end
    end.

(** [parseInt(v)] without a radix; [None] is [NaN]. *)
Definition radix_digit (radix : Z) (c : ascii) : option Z :=
  let n := code c in
  let v := if (48 <=? n) && (n <=? 57) then Some (n - 48)
           else if (97 <=? n) && (n <=? 122) then Some (n - 87)
           else if (65 <=? n) && (n <=? 90) then Some (n - 55)
           else None in
  match v with
  | Some d => if d <? radix then Some d else None
  | None => None
  end.

Fixpoint radix_digits (radix : Z) (s : jstring) (acc : option Z) : option Z :=
  match s with
  | c :: r =>
      match radix_digit radix c with
      | Some d => radix_digits radix r (Some (radix * default 0 acc + d))
      | None => acc
      end
  | [] => acc
  end.

Definition parseInt (v : option jstring) : option Z :=
  match v with
  | None => None
  | Some s =>
      let s := trimStart s in
      let '(sign, s) :=
        match s with
        | c :: r => if Ascii.eqb c "-"%char then (-1, r)
                    else if Ascii.eqb c "+"%char then (1, r) else (1, s)
        | [] => (1, s)
        end in
      let '(radix, s) :=
        match s with
        | z :: x :: r =>
            if Ascii.eqb z "0"%char && (Ascii.eqb x "x"%char || Ascii.eqb x "X"%char)
            then (16, r) else (10, s)
        | _ => (10, s)
        end in
      match radix_digits radix s None with
      | Some n => Some (sign * n)
      | None => None
      end
  end.

(** [n || d] on a number: [NaN] and [0] are falsy. *)
Definition number_or (n : option Z) (d : Z) : Z :=
  match n with
  | Some v => if v =? 0 then d else v
  | None => d
  end.

(** [l.slice(0, limit)] *)
Definition slice0 {A} (limit : Z) (l : list A) : list A :=
  let len := Z.of_nat (length l) in
  let final := if limit <? 0 then Z.max (len + limit) 0 else Z.min limit len in
  take (Z.to_nat final) l.

(** [fs.readFile] then [parseLogFile], inside [try { } catch { }] with an
    empty handler: [logs] keeps its initial value [[]]. *)
Definition read_logs (logFilePath : jstring) : M World (list LogEntry) :=
  try_catch
    (data ← fs.readFile logFilePath; parseLogFile data)
    (fun _ => mret []).

Definition filter_logs (needle : option jstring) (logs : list LogEntry) : list LogEntry :=
  if truthy needle
  then filter (fun l => includes (deployId l) (default [] needle) = true) logs
  else logs.

(** [GET /webhook/deploy/log] with [req.query = { limit, app, env, date }]. *)
Definition get_webhook_deploy_log (q_limit q_app q_env q_date : option jstring)
  : M World Response :=
  try_catch
    (let limit := number_or (parseInt q_limit) 20 in
     logs ← (if truthy q_date
             then read_logs (path_join LOGS_DIR (default [] q_date ++ str ".txt"))
             else (logFilePath ← getLogFilePath_today; read_logs logFilePath));
     let logs := filter_logs q_app logs in
     let logs := filter_logs q_env logs in
     mret {| statusCode := 200;
             payload := LogList (slice0 limit logs) (length logs) q_app q_env q_date |})
    (fun err =>
     mret {| statusCode := 500; payload := FailedToReadLogs (exn_message err) |}).

Definition find_log (targetDeployId : jstring) (logs : list LogEntry) : option LogEntry :=
  List.find (fun l => bool_decide (deployId l = targetDeployId)) logs.

(** One [try] block of the search: read a file and look for the id. *)
Definition search_file (logFilePath targetDeployId : jstring) : M World (option LogEntry) :=
  try_catch
    (data ← fs.readFile logFilePath;
     logs ← parseLogFile data;
     mret (find_log targetDeployId logs))
    (fun _ => mret None).

(** [for (let i = ...; i <= 7; i++)], leaving the loop on the first match. *)
Fixpoint search_recent (targetDeployId : jstring) (days : list Z)
  : M World (option LogEntry) :=
  match days with
  | [] => mret None
  | i :: rest =>
      date ← new_Date;
      let date := setDate date (getDate date - i) in
      let oldLogFilePath := getLogFilePath date in
      found ← search_file oldLogFilePath targetDeployId;
      match found with
      | Some log => mret (Some log)
      | None => search_recent targetDeployId rest
      end
  end.

(** [GET /webhook/deploy/log/:deployId] *)
Definition get_webhook_deploy_log_by_id (targetDeployId : jstring) : M World Response :=
  try_catch
    (logFilePath ← getLogFilePath_today;
     found ← search_file logFilePath targetDeployId;
     match found with
     | Some log => mret {| statusCode := 200; payload := LogFound log |}
     | None =>
         found ← search_recent targetDeployId [1; 2; 3; 4; 5; 6; 7];
         match found with
         | Some log => mret {| statusCode := 200; payload := LogFound log |}
         | None => mret {| statusCode := 404; payload := LogNotFound |}
         end
     end)
    (fun err =>
     mret {| statusCode := 500; payload := FailedToReadLogs (exn_message err) |}).

(** ** The configuration file: [loadConfig], [authMiddleware]

    The handlers above take [APPS] as already typed ([APPS] and [shellPath]
    of a [World]).  [loadConfig] and [authMiddleware] are modelled on the
    values that [yaml.load] gives, so that the validation of [loadConfig]
    can be stated: null, booleans, integers, strings, sequences and mappings
    with string keys.  A mapping lists its members in the order of
    [Object.entries].  [undefined] is [None]. *)

Inductive yaml : Type :=
  | YNull
  | YBool (b : bool)
  | YInt (n : Z)
  | YStr (s : jstring)
  | YSeq (items : list yaml)
  | YMap (members : list (jstring * yaml)).

(** Truthiness of a value: [!v] is its negation. *)
Definition truthy_value (v : option yaml) : bool :=
  match v with
  | None | Some YNull => false
  | Some (YBool b) => b
  | Some (YInt n) => negb (n =? 0)
  | Some (YStr s) => truthy_string s
  | Some (YSeq _) | Some (YMap _) => true
  end.

(** [a || b] *)
Definition value_or (a b : option yaml) : option yaml :=
  if truthy_value a then a else b.

Fixpoint yaml_lookup (k : jstring) (members : list (jstring * yaml)) : option yaml :=
  match members with
  | [] => None
  | (k', v) :: rest => if decide (k' = k) then Some v else yaml_lookup k rest
  end.

(** [v.k] on a value that is not null, for a key [k] among [apps],
    [shellPath], [authToken], [port], [path] and [steps]: only a mapping has
    such a property. *)
Definition lookup_prop (v : yaml) (k : string) : option yaml :=
  match v with
  | YMap members => yaml_lookup (str k) members
  | _ => None
  end.

(** [Object.entries(v)] on a value that is not null: the members of a
    mapping, the elements of a sequence and the characters of a string
    under their indexes, nothing for a boolean or a number. *)
Definition own_entries (v : yaml) : list (jstring * yaml) :=
  match v with
  | YMap members => members
  | YSeq items => imap (fun i x => (String_of_Z (Z.of_nat i), x)) items
  | YStr s => imap (fun i c => (String_of_Z (Z.of_nat i), YStr [c])) s
  | _ => []
  end.

Definition TypeError_read (of_what key : string) : jstring :=
  str "Cannot read properties of " ++ str of_what ++ str " (reading '" ++ str key ++ str "')".

Definition TypeError_entries : jstring := str "Cannot convert undefined or null to object".

(** [v.k], which throws on [undefined] and on [null]. *)
Definition prop {St} (v : option yaml) (k : string) : M St (option yaml) :=
  match v with
  | None => throw (JsError (TypeError_read "undefined" k))
  | Some YNull => throw (JsError (TypeError_read "null" k))
  | Some y => mret (lookup_prop y k)
  end.

(** [Object.entries(v)] *)
Definition Object_entries {St} (v : option yaml) : M St (list (jstring * yaml)) :=
  match v with
  | None | Some YNull => throw (JsError TypeError_entries)
  | Some y => mret (own_entries y)
  end.

(** [Object.keys(v)] *)
Definition Object_keys {St} (v : option yaml) : M St (list jstring) :=
  entries ← Object_entries v; mret (map fst entries).

(** What [loadConfig] and the start of the server write with
    [console.error]. *)
Inductive ConfigReport :=
  | FailedToLoadConfig (message : option jstring)
  | FailedToStartServer (err : js_exn).

(** The module variables [config] and [APPS], and the console of
    [loadConfig]. *)
Record Globals := {
  g_config : option yaml;
  g_APPS : option yaml;
  g_console : list ConfigReport;
}.

Definition set_g_config (v : option yaml) (g : Globals) : Globals :=
  {| g_config := v; g_APPS := g_APPS g; g_console := g_console g |}.
Definition set_g_APPS (v : option yaml) (g : Globals) : Globals :=
  {| g_config := g_config g; g_APPS := v; g_console := g_console g |}.
Definition config_error (r : ConfigReport) : M (World * Globals) unit :=
  set_local (fun g => {| g_config := g_config g; g_APPS := g_APPS g;
                         g_console := g_console g ++ [r] |}).

(** The globals when the module is loaded: [let APPS = {}; let config = {}]. *)
Definition initial_globals : Globals :=
  {| g_config := Some (YMap []); g_APPS := Some (YMap []); g_console := [] |}.

(** [for (const x of l) body] *)
Fixpoint for_of {St A} (l : list A) (body : A -> M St unit) : M St unit :=
  match l with
  | [] => mret tt
  | x :: rest => body x;; for_of rest body
  end.

Definition CONFIG_FILE : jstring := str "config.yml".

(** [Array.isArray(v)] and, on an array, [v.length]. *)
Definition isArray (v : option yaml) : bool :=
  match v with Some (YSeq _) => true | _ => false end.
Definition array_length (v : option yaml) : Z :=
  match v with Some (YSeq items) => Z.of_nat (length items) | _ => 0 end.

(** The body of the inner loop of [loadConfig]. *)
Definition check_env (appName : jstring) (entry : jstring * yaml) : M (World * Globals) unit :=
  let envName := entry.1 in
  let envConfig := Some entry.2 in
  path ← prop envConfig "path";
  if negb (truthy_value path) then
    throw (JsError (str "Missing 'path' for " ++ appName ++ "."%char :: envName))
  else
    steps ← prop envConfig "steps";
    if negb (truthy_value steps) || negb (isArray steps) then
      throw (JsError (str "Missing or invalid 'steps' for " ++ appName ++ "."%char :: envName))
    else if array_length steps =? 0 then
      throw (JsError (str "No steps defined for " ++ appName ++ "."%char :: envName))
    else mret tt.

(** The body of the outer loop. *)
Definition check_app (entry : jstring * yaml) : M (World * Globals) unit :=
  envs ← Object_entries (Some entry.2);
  for_of envs (check_env entry.1).

Section Config.

(** [yaml.load] of the library js-yaml: it gives a value or throws. *)
Context (yaml_load : jstring -> outcome (option yaml)).

(** [app.listen(PORT, ...)] of express: it starts to listen, or throws
    (for a port out of range, [ERR_SOCKET_BAD_PORT]). *)
Context (app_listen : option yaml -> outcome unit).

Definition loadConfig : M (World * Globals) unit :=
  try_catch
    (fileContents ← lift (fs.readFile CONFIG_FILE);
     doc ← (fun _ s => (yaml_load fileContents, s));
     set_local (set_g_config doc);;
     config ← gets (fun s => g_config s.2);
     apps ← prop config "apps";
     set_local (set_g_APPS (value_or apps (Some (YMap []))));;
     config ← gets (fun s => g_config s.2);
     shellPath ← prop config "shellPath";
     (if negb (truthy_value shellPath)
      then throw (JsError (str "shellPath is not set")) else mret tt);;
     APPS ← gets (fun s => g_APPS s.2);
     entries ← Object_entries APPS;
     for_of entries check_app)
    (fun err =>
     config_error (FailedToLoadConfig (exn_message err));;
     throw err).

Inductive ReloadPayload :=
  | ConfigReloaded (apps : list jstring) (timestamp : Z)
  | FailedToReloadConfig (details : option jstring).

Record ReloadResponse := {
  reload_status : Z;
  reload_payload : ReloadPayload;
}.

(** [POST /reload-config] *)
Definition post_reload_config : M (World * Globals) ReloadResponse :=
  try_catch
    (loadConfig;;
     APPS ← gets (fun s => g_APPS s.2);
     apps ← Object_keys APPS;
     timestamp ← lift new_Date_toISOString;
     mret {| reload_status := 200; reload_payload := ConfigReloaded apps timestamp |})
    (fun err =>
     mret {| reload_status := 500;
             reload_payload := FailedToReloadConfig (exn_message err) |}).

(** How the start of the server ends: [app.listen(PORT)] or
    [process.exit(1)]. *)
Inductive Startup :=
  | Listening (port : option yaml)
  | Exited (code : Z).

Definition listen (PORT : option yaml) : M (World * Globals) unit :=
  fun _ s => (app_listen PORT, s).

(** [loadConfig().then(...).catch(...)] at the end of the module. *)
Definition startup : M (World * Globals) Startup :=
  try_catch
    (loadConfig;;
     config ← gets (fun s => g_config s.2);
     port ← prop config "port";
     let PORT := value_or port (Some (YInt 3001)) in
     listen PORT;;
     mret (Listening PORT))
    (fun err =>
     config_error (FailedToStartServer err);;
     mret (Exited 1)).

End Config.

(** [s.replace(p, r)] for a string [p] and a replacement [r] without [$]:
    the first occurrence of [p] is replaced. *)
Fixpoint replace_first (p r s : jstring) : jstring :=
  if starts_with p s then r ++ drop (length p) s
  else match s with
       | [] => []
       | c :: rest => c :: replace_first p r rest
       end.

(** [token !== config.authToken] is the negation of this test: [token] is
    a string or [undefined]. *)
Definition same_token (token : option jstring) (authToken : option yaml) : bool :=
  match token, authToken with
  | None, None => true
  | Some t, Some (YStr s) => bool_decide (t = s)
  | _, _ => false
  end.

(** What the middleware does: it answers 401 [{ error: "Unauthorized" }]
    or calls [next()]. *)
Inductive AuthResult := Unauthorized | Next.

Definition authMiddleware (authorization : option jstring) : M (World * Globals) AuthResult :=
  let token := replace_first (str "Bearer ") [] <$> authorization in
  config ← gets (fun s => g_config s.2);
  authToken ← prop config "authToken";
  if negb (same_token token authToken) then mret Unauthorized else mret Next.

(** ** Vocabulary of the properties of a run *)

(** What [exec] answers for step number [j] (from 0) of a run started in
    world [w], when every earlier step started one child process. *)
Definition step_callback (env : Env) (w : World) (config : EnvConfig) (j : nat)
    (s : DeploymentStep) : ExecCallback :=
  exec env (length (trace w) + j)%nat (step_command s)
    (exec_options (shellPath w) (cfg_path config)).

(** The step starts a child process: it has a command, and the command is
    not the empty string. *)
Definition starts_process (step : step_value) : bool := truthy (command_of step).

(** Every step of [steps], numbered from [j], is an object whose command
    is executed and ends without an error. *)
Fixpoint steps_succeed (env : Env) (w : World) (config : EnvConfig) (j : nat)
    (steps : list step_value) : bool :=
  match steps with
  | [] => true
  | StepObject s :: rest =>
      if starts_process (StepObject s) then
        match cb_error (step_callback env w config j s) with
        | None => steps_succeed env w config (S j) rest
        | Some _ => false
        end
      else false
  | _ :: _ => false
  end.

(** The message of the error with which the child process of step number
    [j] fails, if it does. *)
Definition step_failure (env : Env) (w : World) (config : EnvConfig) (j : nat)
    (step : step_value) : option jstring :=
  match step with
  | StepObject s =>
      if starts_process step then cb_error (step_callback env w config j s) else None
  | _ => None
  end.

(** The child processes started between two worlds. *)
Definition new_calls (w w' : World) : list ExecCall :=
  drop (length (trace w)) (trace w').

(** The call [call] runs the command of the step [step]. *)
Definition runs_step (call : ExecCall) (step : step_value) : Prop :=
  match step with
  | StepObject s => ec_command call = step_command s
  | _ => False
  end.

(** The readings of the clock around step number [k] (from 0) of a run
    started in world [w].  The run takes two readings before its first
    step, the first of them for [startTime], and every step that is not
    [null] takes two: [step_started w k] is the number of the reading
    taken before the command of step [k] is executed, the step's own start,
    and [step_ended w k] the number of the one taken when it has ended or
    failed. *)
Definition step_started (w : World) (k : nat) : nat := (clock w + 2 + 2 * k)%nat.
Definition step_ended (w : World) (k : nat) : nat := S (step_started w k).

(** The duration that a step result records, in terms of these readings:
    for a success the time from the step's own start to its end, for an
    error the time from the first reading of the run, its [startTime], to
    the end of the step. *)
Definition duration_recorded (env : Env) (w : World) (k : nat) (r : StepResult) : Prop :=
  match sr_status r with
  | StepSuccess => sr_duration r = now env (step_ended w k) - now env (step_started w k)
  | StepError => sr_duration r = now env (step_ended w k) - now env (clock w)
  end.

(** * Definitions used to state and to prove the properties *)

(** ** Closed forms: one step of a run, and its end *)

(** The world after [dc] more clock readings, the child processes [calls]
    and the reports [reports]. *)
Definition advance (w : World) (dc : nat) (calls : list ExecCall) (reports : list Report) : World :=
  {| APPS := APPS w; shellPath := shellPath w; running := running w;
     clock := (dc + clock w)%nat; trace := trace w ++ calls; logs_dir := logs_dir w;
     files := files w; console_error := console_error w ++ reports |}.

(** The child process that the command [command] starts in world [w]: it
    starts after the reading of [stepStartTime]. *)
Definition command_call (w : World) (config : EnvConfig) (command : jstring) : ExecCall :=
  {| ec_command := command;
     ec_options := exec_options (shellPath w) (cfg_path config);
     ec_running := running w;
     ec_clock := S (clock w) |}.

(** The child processes that a step starts in world [w]: one, or none. *)
Definition step_calls (w : World) (config : EnvConfig) (step : step_value) : list ExecCall :=
  match command_of step with
  | Some (c :: cs) => [command_call w config (c :: cs)]
  | _ => []
  end.

(** What [exec] answers in world [w] for the command [command]. *)
Definition command_callback (env : Env) (config : EnvConfig) (command : jstring) (w : World)
  : ExecCallback :=
  exec env (length (trace w)) command (exec_options (shellPath w) (cfg_path config)).

(** The step result that the body of the loop pushes for a step that is not
    [null]. *)
Definition step_entry (env : Env) (startTime : Z) (config : EnvConfig) (i : nat)
    (step : step_value) (w : World) : StepResult :=
  match command_of step with
  | Some (c :: cs) =>
      let cb := command_callback env config (c :: cs) w in
      match cb_error cb with
      | None =>
          {| sr_order := Z.of_nat i + 1; sr_name := stepName i step;
             sr_command := command_of step;
             sr_status := StepSuccess;
             sr_duration := now env (S (clock w)) - now env (clock w);
             sr_output :=
               Some (if truthy_string (cb_stdout cb) then slice_last 1000 (cb_stdout cb) else []);
             sr_stderr :=
               Some (if truthy_string (cb_stderr cb) then slice_last 500 (cb_stderr cb) else []);
             sr_error := None; sr_stdout := None |}
      | Some m =>
          {| sr_order := Z.of_nat i + 1; sr_name := stepName i step;
             sr_command := command_of step;
             sr_status := StepError;
             sr_duration := now env (S (clock w)) - startTime;
             sr_output := None;
             sr_stderr := Some (cb_stderr cb);
             sr_error := Some m; sr_stdout := Some (cb_stdout cb) |}
      end
  | _ =>
      {| sr_order := Z.of_nat i + 1; sr_name := stepName i step;
         sr_command := command_of step;
         sr_status := StepError;
         sr_duration := now env (S (clock w)) - startTime;
         sr_output := None; sr_stderr := None; sr_error := None; sr_stdout := None |}
  end.

(** How the body of the loop ends for a step that is not [null], and what
    it reports. *)
Definition step_outcome (env : Env) (deployId : jstring) (config : EnvConfig) (i : nat)
    (step : step_value) (w : World) : outcome unit * list Report :=
  match command_of step with
  | Some (c :: cs) =>
      let cb := command_callback env config (c :: cs) w in
      match cb_error cb with
      | None => (Returned tt, [])
      | Some m => (Thrown (ExecRejection m (cb_stderr cb) (cb_stdout cb)),
                   [StepFailed deployId (stepName i step) (Some m)])
      end
  | _ => (Thrown (JsError (exec_TypeError env (command_of step))),
          [StepFailed deployId (stepName i step) None])
  end.

(** [log.steps.push] for each of [rs]. *)
Definition push_steps (rs : list StepResult) (l : RunRecord) : RunRecord :=
  {| log_deployId := log_deployId l; log_app := log_app l; log_env := log_env l;
     log_startTime := log_startTime l; log_status := log_status l; log_path := log_path l;
     log_steps := log_steps l ++ rs; log_duration := log_duration l;
     log_error := log_error l; log_endTime := log_endTime l |}.

(** What [saveLog] writes as [output] and [stderr] of a step. *)
Definition persisted_output (r : StepResult) : jstring :=
  or_empty (js_or (sr_output r) (sr_stdout r)).
Definition persisted_stderr (r : StepResult) : jstring := or_empty (sr_stderr r).

(** A successful step keeps at most the last 1000 code units of stdout and
    the last 500 of stderr. *)
Definition success_bounded (r : StepResult) : Prop :=
  sr_status r = StepSuccess ->
  (length (persisted_output r) <= 1000)%nat /\
  (length (persisted_stderr r) <= 500)%nat.

(** The record at the end of [deployApp], from the record [l] the loop left.
    [out] is how the loop ended, [t] the reading for the duration and [tEnd]
    the one for [endTime]. *)
Definition finish_log (out : outcome unit) (startTime t tEnd : Z) (l : RunRecord) : RunRecord :=
  set_endTime tEnd
    match out with
    | Returned _ => set_duration (t - startTime) (set_status Success l)
    | Thrown err =>
        set_error (js_or (exn_error err) (exn_message err))
          (set_duration (t - startTime) (set_status Failed l))
    end.

(** The record with which [deployApp] starts. *)
Definition init_log (deployId appName env : jstring) (config : EnvConfig) (startIso : Z)
  : RunRecord :=
  {| log_deployId := deployId; log_app := appName; log_env := env;
     log_startTime := startIso; log_status := InProgress; log_path := cfg_path config;
     log_steps := []; log_duration := None; log_error := None; log_endTime := None |}.

(** The world in which the loop over the steps starts. *)
Definition loop_world (key : jstring) (w : World) : World :=
  set_running ({[key]} ∪ running w) (set_clock (S (S (clock w))) w).

(** What the outer [catch] reports. *)
Definition final_reports (deployId : jstring) (out : outcome unit) (d : Z) : list Report :=
  match out with Returned _ => [] | Thrown _ => [DeploymentFailed deployId d] end.

(** ** The file system under [saveLog] *)

(** The file system refuses nothing that [saveLog] needs. *)
Definition persist_ok (env : Env) (w : World) : bool :=
  match appendFile_error env with
  | Some _ => false
  | None => match mkdir_error env with None => true | Some _ => logs_dir w end
  end.

(** The same outside world, with other answers of the file system. *)
Definition set_faults (m a : option jstring) (env : Env) : Env :=
  {| now := now env; localTZA := localTZA env; exec := exec env;
     exec_TypeError := exec_TypeError env; inherited_truthy := inherited_truthy env;
     mkdir_error := m; appendFile_error := a |}.

(** The partition that [getLogFilePath()] names at clock reading [k]. *)
Definition partition_at (env : Env) (k : nat) : jstring :=
  getLogFilePath {| localTime := now env k + localTZA env (now env k) |}.

(** ** JSON texts *)

(** Reading one more decimal digit. *)
Definition digit_step (a : Z) (c : ascii) : Z := 10 * a + (code c - 48).

(** A text after which a number literal ends. *)
Definition ends_number (rest : jstring) : Prop :=
  match rest with
  | [] => True
  | c :: _ =>
      is_digit c = false /\ Ascii.eqb c "."%char = false
      /\ Ascii.eqb c "e"%char = false /\ Ascii.eqb c "E"%char = false
  end.

(** Values without a [JReal]: those that [saveLog] prints. *)
Fixpoint no_real (v : json) : bool :=
  match v with
  | JReal _ => false
  | JArr l => forallb no_real l
  | JObj ms => forallb (fun m => no_real m.2) ms
  | _ => true
  end.

(** A bound on the fuel that parsing the text of a value takes. *)
Fixpoint json_size (v : json) : nat :=
  match v with
  | JArr l => S (list_sum (map (fun x => S (json_size x)) l))
  | JObj ms => S (list_sum (map (fun m => S (json_size m.2)) ms))
  | _ => 1
  end.

(** The text of a member of an object. *)
Definition print_member (m : jstring * json) : jstring :=
  quote m.1 ++ ":"%char :: JSON.stringify m.2.

(** A character with which a number literal starts and nothing else does. *)
Definition number_start (c : ascii) : Prop :=
  Ascii.eqb c "-"%char = true \/ is_digit c = true.

(** The first character of a printed value. *)
Definition value_start (c : ascii) : Prop :=
  is_json_ws c = false /\ Ascii.eqb c "]"%char = false.

(** The fuel for the elements of an array and for the members of an object. *)
Definition size_elems (l : list json) : nat := list_sum (map (fun x => S (json_size x)) l).
Definition size_members (ms : list (jstring * json)) : nat :=
  list_sum (map (fun m => S (json_size m.2)) ms).

(** ** The calendar *)

(** Year of era and day of year of a day of era, as in [civil_from_days]. *)
Definition yoe_of (doe : Z) : Z := (doe - doe / 1460 + doe / 36524 - doe / 146096) / 365.
Definition doy_of (doe : Z) : Z := doe - (365 * yoe_of doe + yoe_of doe / 4 - yoe_of doe / 100).

(** The partition of a day number. *)
Definition day_partition (day : Z) : jstring :=
  getLogFilePath {| localTime := day * msPerDay |}.

(** ** Log files *)

(** The entries that a line contributes to the result of [parseLogFile]. *)
Definition pushed (line : jstring) : list LogEntry :=
  match parseLine line with
  | LinePushed entry => [entry]
  | _ => []
  end.

(** What [parseLogFile] reports for a line. *)
Definition line_reports (line : jstring) : list Report :=
  match parseLine line with
  | LineFailed => [FailedToParseLogLine]
  | _ => []
  end.

(** The lines of a file that are not blank. *)
Definition log_lines (content : jstring) : list jstring :=
  filter (fun line => truthy_string (trim line) = true) (split_lines content).

(** The result of [parseLogFile], as a function of the content. *)
Definition parsed (content : jstring) : list LogEntry := flat_map pushed (log_lines content).

(** The world after [console.error] has been called with [reports]. *)
Definition reported (reports : list Report) (w : World) : World :=
  set_console_error (console_error w ++ reports) w.

(** The logs of a file, or none when the file cannot be read. *)
Definition logs_of (w : World) (path : jstring) : list LogEntry :=
  match files w !! path with
  | Some content => parsed content
  | None => []
  end.

(** The local day of the [k]-th reading of the clock. *)
Definition local_day (env : Env) (k : nat) : Z :=
  Day (now env k + localTZA env (now env k)).

(** The [n] readings from number [k0] on fall on the local day [today]. *)
Definition same_day (env : Env) (k0 n : nat) (today : Z) : bool :=
  forallb (fun i => local_day env (k0 + i) =? today) (seq 0 n).

(** The first record with the id [target] in the partitions of the days
    [today - i], for [i] in [offsets], in that order. *)
Fixpoint first_match (target : jstring) (w : World) (today : Z) (offsets : list Z)
  : option LogEntry :=
  match offsets with
  | [] => None
  | i :: rest =>
      match find_log target (logs_of w (day_partition (today - i))) with
      | Some log => Some log
      | None => first_match target w today rest
      end
  end.

(** The answer of the search by id. *)
Definition found_response (found : option LogEntry) : Response :=
  match found with
  | Some log => {| statusCode := 200; payload := LogFound log |}
  | None => {| statusCode := 404; payload := LogNotFound |}
  end.

(** ** Reading a line back *)

(** The string has a character that is not white space. *)
Definition has_ink (s : jstring) : bool := existsb (fun c => negb (is_js_ws c)) s.

(** [obj[k]] on a parsed object: the last member with the key [k], since a
    later member replaces an earlier one with the same key. *)
Fixpoint assoc_last (k : jstring) (ms : list (jstring * json)) : option json :=
  match ms with
  | [] => None
  | (k', v) :: rest =>
      match assoc_last k rest with
      | Some v' => Some v'
      | None => if decide (k' = k) then Some v else None
      end
  end.

Definition js_get (k : string) (v : json) : option json :=
  match v with
  | JObj ms => assoc_last (str k) ms
  | _ => None
  end.

(** The line that [saveLog] writes, without its line feed. *)
Definition logLine_text (logEntry : RunRecord) : jstring :=
  log_deployId logEntry ++ ":"%char :: " "%char ::
    JSON.stringify (JArr (formattedSteps (log_steps logEntry))).

(** ** More vocabulary: runs, triggers and the store *)

(** The step result [r] reports what the child process that answered [cb]
    did: of a process that ends without an error, the last 1000 code units
    of stdout and the last 500 of stderr; of one that fails, the message,
    stdout and stderr as they are. *)
Definition reports_callback (cb : ExecCallback) (r : StepResult) : Prop :=
  match cb_error cb with
  | None =>
      sr_status r = StepSuccess
      /\ sr_output r = Some (slice_last 1000 (cb_stdout cb))
      /\ sr_stderr r = Some (slice_last 500 (cb_stderr cb))
      /\ sr_error r = None /\ sr_stdout r = None
  | Some message =>
      sr_status r = StepError
      /\ sr_error r = Some message
      /\ sr_stderr r = Some (cb_stderr cb)
      /\ sr_stdout r = Some (cb_stdout cb)
      /\ sr_output r = None
  end.

(** What holds of result number [k] of a loop over [steps] that starts at
    the reading number [c] of the clock, with the step number [i] and with
    [j] child processes started before by the run; [n] is the number of
    results and [calls] the child processes of the loop.  The result is the
    one of step [k], which is not [null], and every result but the last is a
    success.  With a child process, the step is an object with a command
    and the result reports that process; without one, the step has no
    command to execute and the result is an error without message. *)
Definition result_facts (env : Env) (t0 : Z) (w0 : World) (config : EnvConfig)
    (i j c n : nat) (steps : list step_value) (calls : list ExecCall) (k : nat)
    (r : StepResult) : Prop :=
  exists step,
    steps !! k = Some step /\ step <> StepNull
    /\ sr_order r = Z.of_nat (i + k) + 1
    /\ sr_name r = stepName (i + k) step
    /\ sr_command r = command_of step
    /\ sr_duration r = match sr_status r with
                       | StepSuccess => now env (S (c + 2 * k)) - now env (c + 2 * k)
                       | StepError => now env (S (c + 2 * k)) - t0
                       end
    /\ (S k < n -> sr_status r = StepSuccess)%nat
    /\ match calls !! k with
       | Some call =>
           exists s, step = StepObject s /\ step_command s <> []
             /\ ec_command call = step_command s
             /\ ec_clock call = S (c + 2 * k)
             /\ reports_callback (step_callback env w0 config (j + k) s) r
       | None =>
           starts_process step = false
           /\ sr_status r = StepError /\ sr_error r = None /\ sr_stderr r = None
           /\ sr_stdout r = None /\ sr_output r = None
       end.

(** The options that [execCommand] passes to [exec] for a definition. *)
Definition options_of (w : World) (config : EnvConfig) (o : ExecOptions) : Prop :=
  opt_cwd o = cfg_path config
  /\ opt_timeout o = 300000
  /\ match opt_shell o with
     | Some shell =>
         exists sp, shellPath w = Some sp /\ sp <> []
                    /\ shell = replace_backslashes sp
                    /\ ~ In backslash shell
                    /\ length shell = length sp
     | None => truthy (shellPath w) = false
     end.

(** [w'] differs from [w] at most in the clock and in what was written on
    the console. *)
Definition only_observes (w w' : World) : Prop :=
  APPS w' = APPS w /\ shellPath w' = shellPath w /\ running w' = running w
  /\ trace w' = trace w /\ logs_dir w' = logs_dir w /\ files w' = files w.

(** Every file of [w] is still there in [w'], and its content begins with
    the content it had. *)
Definition log_content_kept (w w' : World) : Prop :=
  forall path content,
    files w !! path = Some content ->
    exists more, files w' !! path = Some (content ++ more).

(** The condition under which [POST /webhook/deploy] starts a run. *)
Definition accepts (w : World) (body_app body_env : option jstring) : Prop :=
  exists appName en envs config,
    body_app = Some appName /\ body_env = Some en
    /\ appName <> [] /\ en <> []
    /\ APPS w !! appName = Some envs /\ envs !! en = Some config
    /\ running_key appName en ∉ running w.

(** The [deployId] of the answer "Deployment started". *)
Definition started_deployId (res : outcome Response) : option jstring :=
  match res with
  | Returned {| payload := DeploymentStarted deployId _ _ _ _ |} => Some deployId
  | _ => None
  end.

(** An id as [parseLogFile] can give it: no white space around it, no colon
    and no line feed in it. *)
Definition plain_id (s : jstring) : bool :=
  bool_decide (trim s = s) && negb (includes s (str ":")) && negb (includes s [LF]).

(** A record of the store: an entry of some file. *)
Definition stored (w : World) (log : LogEntry) : Prop :=
  exists path content, files w !! path = Some content /\ In log (parsed content).

(** The content ends with a line feed, or is empty: the next line appended
    starts on a line of its own. *)
Definition lines_closed (content : jstring) : bool :=
  match last content with
  | Some c => Ascii.eqb c LF
  | None => true
  end.

(** Every file ends with a line feed or is empty. *)
Definition store_closed (w : World) : Prop :=
  forall path content, files w !! path = Some content -> lines_closed content = true.

(** The partition that a query reads. *)
Definition query_path (env : Env) (w : World) (q_date : option jstring) : jstring :=
  if truthy q_date then path_join LOGS_DIR (default [] q_date ++ str ".txt")
  else partition_at env (clock w).

(** The records that a query finds before it applies the limit. *)
Definition query_matching (env : Env) (w : World) (q_app q_env q_date : option jstring)
  : list LogEntry :=
  filter_logs q_env (filter_logs q_app (logs_of w (query_path env w q_date))).

(** The entry that the line of a record parses to. *)
Definition entry_of (r : RunRecord) : LogEntry :=
  {| deployId := log_deployId r; steps := JArr (formattedSteps (log_steps r)) |}.

(** What [saveLog] and a run do to the files. *)
Definition appends_line (w w' : World) (p : jstring) (r : RunRecord) : Prop :=
  files w' = <[p := default [] (files w !! p) ++ logLine r]> (files w).

(** ** Vocabulary: the log store as the specification sees it *)

(** A number below 100 in two decimal digits. *)
Definition two_digits (n : Z) : jstring := [digit_char (n / 10); digit_char (n mod 10)].

(** The partition of the day number [day] (day 0 is 1970-01-01):
    [logs/YYYYMMDD.txt] for the year, the month and the day of the month of
    that day. *)
Definition partition_name (day : Z) : jstring :=
  let '(y, m, d) := civil_from_days day in
  str "logs/" ++ String_of_Z y ++ two_digits m ++ two_digits d ++ str ".txt".

(** The text holds no escape above [\u00FF]: wherever a backslash is
    followed by [u], two zeros follow.  Such an escape stands for a code
    unit outside the 8-bit strings of the model. *)
Fixpoint latin1_escapes (s : jstring) : bool :=
  match s with
  | [] => true
  | c :: rest =>
      match rest with
      | u :: h1 :: h2 :: _ =>
          negb (Ascii.eqb c backslash && Ascii.eqb u "u"%char)
          || (Ascii.eqb h1 "0"%char && Ascii.eqb h2 "0"%char)
      | u :: _ => negb (Ascii.eqb c backslash && Ascii.eqb u "u"%char)
      | [] => true
      end
      && latin1_escapes rest
  end.

(** What follows the first colon of a text, if it has a colon. *)
Fixpoint after_colon (text : jstring) : option jstring :=
  match text with
  | [] => None
  | c :: rest => if Ascii.eqb c ":"%char then Some rest else after_colon rest
  end.

(** A line of a partition: the line that [saveLog] writes for a record, or
    any other line. *)
Inductive PartitionLine :=
  | RecordLine (r : RunRecord)
  | OtherLine (text : jstring).

(** The lines that a partition is expected to hold: lines of records whose
    [deployId] is plain, and other lines that are no records, that is,
    lines without a colon and lines in which no JSON text follows the first
    colon. *)
Definition well_formed_line (l : PartitionLine) : bool :=
  match l with
  | RecordLine r => plain_id (log_deployId r)
  | OtherLine text =>
      negb (existsb (Ascii.eqb LF) text)
      && match after_colon text with
         | None => true
         | Some after =>
             match JSON.parse (trim after) with Some _ => false | None => true end
             && latin1_escapes after
         end
  end.

Definition line_text (l : PartitionLine) : jstring :=
  match l with
  | RecordLine r => logLine r
  | OtherLine text => text ++ [LF]
  end.

(** The content of a partition with the lines [lines]. *)
Definition partition_text (lines : list PartitionLine) : jstring := flat_map line_text lines.

(** The file [path] holds exactly the lines [lines]; no file stands for no
    line. *)
Definition holds_lines (w : World) (path : jstring) (lines : list PartitionLine) : Prop :=
  default [] (files w !! path) = partition_text lines
  /\ forallb well_formed_line lines = true.

(** The records among the lines, in order. *)
Definition records_of (lines : list PartitionLine) : list RunRecord :=
  flat_map (fun l => match l with RecordLine r => [r] | OtherLine _ => [] end) lines.

(** The first record with the id [target] among the lines. *)
Definition record_with_id (target : jstring) (lines : list PartitionLine) : option RunRecord :=
  List.find (fun r => bool_decide (log_deployId r = target)) (records_of lines).




(** ** Vocabulary: a configuration that [loadConfig] accepts *)

(** An environment has a truthy [path] and a [steps] array that is not
    empty. *)
Definition valid_env (envConfig : yaml) : bool :=
  truthy_value (lookup_prop envConfig "path")
  && match lookup_prop envConfig "steps" with
     | Some (YSeq (_ :: _)) => true
     | _ => false
     end.

(** An app is not null and all its environments are valid. *)
Definition valid_app (envs : yaml) : bool :=
  match envs with
  | YNull => false
  | _ => forallb (fun entry => valid_env entry.2) (own_entries envs)
  end.

(** A document is neither [undefined] nor null, has a truthy [shellPath],
    and all the apps of [apps || {}] are valid. *)
Definition valid_config (doc : option yaml) : bool :=
  match doc with
  | None | Some YNull => false
  | Some y =>
      truthy_value (lookup_prop y "shellPath")
      && match value_or (lookup_prop y "apps") (Some (YMap [])) with
         | Some apps => forallb (fun entry => valid_app entry.2) (own_entries apps)
         | None => false
         end
  end.

(** [undefined] or [null]: what [yaml.load] gives for an empty document. *)
Definition nullish (doc : option yaml) : bool :=
  match doc with None | Some YNull => true | _ => false end.

(** The configuration file can be read, [yaml.load] gives a value for it
    and this value is a valid configuration. *)
Definition config_accepted (yaml_load : jstring -> outcome (option yaml)) (w : World) : Prop :=
  exists content doc,
    files w !! CONFIG_FILE = Some content /\ yaml_load content = Returned doc
    /\ valid_config doc = true.

(** What [loadConfig] complains about in an environment that is not null:
    the beginning of the message of its error. *)
Definition env_problem (envConfig : yaml) : option string :=
  if negb (truthy_value (lookup_prop envConfig "path")) then Some "Missing 'path' for "%string
  else match lookup_prop envConfig "steps" with
       | Some (YSeq []) => Some "No steps defined for "%string
       | Some (YSeq (_ :: _)) => None
       | _ => Some "Missing or invalid 'steps' for "%string
       end.

(** ** An example: the scenario [echo A], [exit 1], [echo B] *)

(** [exit 1] fails after printing 1001 characters on stdout and 501 on
    stderr; every other command succeeds and prints itself. *)
Definition ex_callback (command : jstring) : ExecCallback :=
  if bool_decide (command = str "exit 1")
  then {| cb_error := Some (str "Command failed: exit 1");
          cb_stdout := replicate 1001 "x"%char;
          cb_stderr := replicate 501 "e"%char |}
  else {| cb_error := None; cb_stdout := command; cb_stderr := [] |}.

(** The messages of Node for a command that [exec] does not take. *)
Definition ex_TypeError (command : option jstring) : jstring :=
  match command with
  | None =>
      str "The " ++ dquote :: str "command" ++ dquote
        :: str " argument must be of type string. Received undefined"
  | Some _ => str "The argument 'file' cannot be empty. Received ''"
  end.

(** Some inherited properties as Node answers for them: [__proto__] of
    [Object.prototype] is [null]; a function has a [name], has [call] and
    the properties of [Object.prototype], and throws when its [caller] is
    read; [toString] takes no argument, so its [length] is 0. *)
Definition ex_inherited (a e : jstring) : outcome bool :=
  if bool_decide (a = str "__proto__")
  then Returned (inherited_name e && negb (bool_decide (e = str "__proto__")))
  else if bool_decide (e = str "caller")
  then Thrown (JsError (str "'caller', 'callee', and 'arguments' properties may not be accessed"))
  else if bool_decide (e = str "length")
  then Returned (negb (bool_decide
                         (a ∈ map str ["toString"; "valueOf"; "toLocaleString"]%string)))
  else Returned (bool_decide (e ∈ map str ["name"; "call"; "apply"; "bind"]%string)
                 || inherited_name e).

(** The clock starts on 2024-01-01 00:00 UTC and moves by one second from
    one reading to the next; local time is UTC. *)
Definition ex_env : Env :=
  {| now := fun k => 1704067200000 + 1000 * Z.of_nat k;
     localTZA := fun _ => 0;
     exec := fun _ command _ => ex_callback command;
     exec_TypeError := ex_TypeError;
     inherited_truthy := ex_inherited;
     mkdir_error := None;
     appendFile_error := None |}.

Definition ex_step (command : string) : step_value :=
  StepObject {| step_name := None; step_command := str command |}.

Definition ex_config : EnvConfig :=
  {| cfg_path := str "/srv/app";
     cfg_steps := [ex_step "echo A"; ex_step "exit 1"; ex_step "echo B"] |}.

Definition ex_config_ok : EnvConfig :=
  {| cfg_path := str "/srv/app"; cfg_steps := [ex_step "echo A"; ex_step "echo B"] |}.

Definition ex_partition : jstring :=
  str "web-prod-1: []" ++ [LF] ++ str "this line is not a record" ++ [LF]
  ++ str "web-prod-2: []" ++ [LF] ++ str "web-stg-3: [1, 2" ++ [LF]
  ++ str "api-prod-4: []" ++ [LF].

Definition ex_world : World :=
  {| APPS := {[ str "a" := {[ str "b-c" := ex_config ]};
                str "a-b" := {[ str "c" := ex_config_ok ]} ]};
     shellPath := Some (str "/bin/bash");
     running := ∅; clock := 0; trace := []; logs_dir := true;
     files := {[ str "logs/20240101.txt" := ex_partition;
                 str "logs/20231231.txt" := str "old-prod-7: []" ++ [LF];
                 str "logs/20231224.txt" := str "ancient-prod-8: []" ++ [LF] ]};
     console_error := [] |}.

(** A record without steps, as the files of the example world hold them. *)
Definition ex_stored (id : string) : RunRecord :=
  {| log_deployId := str id; log_app := str "web"; log_env := str "prod";
     log_startTime := 1704067200000; log_status := Success; log_path := str "/srv/app";
     log_steps := []; log_duration := None; log_error := None; log_endTime := None |}.

(** The lines of [ex_partition]: three records, a line without a colon and
    a line whose JSON text is cut. *)
Definition ex_lines : list PartitionLine :=
  [ RecordLine (ex_stored "web-prod-1"); OtherLine (str "this line is not a record");
    RecordLine (ex_stored "web-prod-2"); OtherLine (str "web-stg-3: [1, 2");
    RecordLine (ex_stored "api-prod-4") ].


(** The clock of a request that arrives one second before midnight: the
    first reading is 2023-12-31 23:59:59 UTC, the next one 2024-01-01
    00:00:00. *)
Definition ex_env_midnight : Env :=
  {| now := fun k => 1704067199000 + 1000 * Z.of_nat k;
     localTZA := fun _ => 0;
     exec := fun _ command _ => ex_callback command;
     exec_TypeError := ex_TypeError;
     inherited_truthy := ex_inherited;
     mkdir_error := None;
     appendFile_error := None |}.


Definition ex_record : RunRecord :=
  {| log_deployId := str "web-prod-1704067200000"; log_app := str "web"; log_env := str "prod";
     log_startTime := 1704067200000; log_status := Success; log_path := str "/srv/app";
     log_steps := [ {| sr_order := 1; sr_name := str "Step 1";
                       sr_command := Some (str "echo A");
                       sr_status := StepSuccess; sr_duration := 12;
                       sr_output := Some (str "A"); sr_stderr := Some [];
                       sr_error := None; sr_stdout := None |} ];
     log_duration := Some 12; log_error := None; log_endTime := Some 1704067200012 |}.

(** An example: the configuration of the README as [yaml.load] gives it. *)
Definition ex_yaml_step (name command : string) : yaml :=
  YMap [ (str "name", YStr (str name)); (str "command", YStr (str command)) ].

Definition ex_yaml_env : yaml :=
  YMap [ (str "path", YStr (str "/home/user/app_config"));
         (str "branch", YStr (str "staging"));
         (str "steps", YSeq [ ex_yaml_step "Pull the latest code" "git pull";
                              ex_yaml_step "Install dependencies" "npm install" ]) ].

Definition ex_yaml : option yaml :=
  Some (YMap [ (str "apps", YMap [ (str "app_config", YMap [ (str "stg", ex_yaml_env) ]) ]);
               (str "authToken", YStr (str "your-secure-token-here"));
               (str "port", YInt 3001);
               (str "shellPath", YStr (str "D:/Git/bin/bash.exe")) ]).

(** The same configuration with a second environment that has no steps,
    and without a token. *)
Definition ex_yaml_no_steps : yaml :=
  YMap [ (str "apps",
          YMap [ (str "app_config",
                  YMap [ (str "stg", ex_yaml_env);
                         (str "prod", YMap [ (str "path", YStr (str "/srv/prod"));
                                             (str "steps", YSeq []) ]) ]) ]);
         (str "shellPath", YStr (str "/bin/bash")) ].

(** A loader that knows four texts: [README] stands for the text of the
    configuration of the README, [no steps] for the one of
    [ex_yaml_no_steps], [apps: {}] is a document without [shellPath], and
    the empty text is the empty document, for which js-yaml gives
    [undefined]. *)
Definition ex_yaml_load (content : jstring) : outcome (option yaml) :=
  if bool_decide (content = str "README") then Returned ex_yaml
  else if bool_decide (content = str "no steps") then Returned (Some ex_yaml_no_steps)
  else if bool_decide (content = str "apps: {}")
       then Returned (Some (YMap [(str "apps", YMap [])]))
  else if bool_decide (content = []) then Returned None
  else Thrown (JsError (str "YAMLException")).

(** The configuration of the README with the port 70000, and an
    [app.listen] that throws for a port that is not between 0 and 65535. *)
Definition ex_yaml_port : yaml :=
  YMap [ (str "apps", YMap [ (str "app_config", YMap [ (str "stg", ex_yaml_env) ]) ]);
         (str "port", YInt 70000);
         (str "shellPath", YStr (str "/bin/bash")) ].

Definition ex_listen (PORT : option yaml) : outcome unit :=
  match PORT with
  | Some (YInt n) =>
      if (0 <=? n) && (n <? 65536) then Returned tt
      else Thrown (JsError (str "ERR_SOCKET_BAD_PORT"))
  | _ => Returned tt
  end.

(** The example world with a configuration file. *)
Definition ex_config_world (content : string) : World :=
  set_files (<[CONFIG_FILE := str content]> (files ex_world)) ex_world.

(** The globals after the configuration of the README was loaded. *)
Definition ex_globals : Globals :=
  {| g_config := ex_yaml;
     g_APPS := lookup_prop (default YNull ex_yaml) "apps";
     g_console := [] |}.

(** * Properties *)

(** ** Runs: [deployApp] *)

Ltac run_monad :=
  repeat (progress (cbv [mbind M_bind mret M_ret try_catch try_finally lift with_local
                 get_local set_local execCommand exec_promise Date.now new_Date
                 new_Date_toISOString gets modify ask throw console.error
                 running.has running.add running.delete spawn]; simpl)).

Lemma advance_id w : advance w 0 [] [] = w.
Proof. destruct w; unfold advance; simpl; rewrite !app_nil_r; reflexivity. Qed.

Lemma advance_advance w a c r a' c' r' :
  advance (advance w a c r) a' c' r' = advance w (a + a') (c ++ c') (r ++ r').
Proof.
  unfold advance; simpl. rewrite <- !app_assoc. f_equal. lia.
Qed.

Lemma push_steps_nil l : push_steps [] l = l.
Proof. destruct l; unfold push_steps; simpl; rewrite app_nil_r; reflexivity. Qed.

Lemma push_steps_push r rs l : push_steps rs (push_step r l) = push_steps (r :: rs) l.
Proof. unfold push_steps, push_step; simpl. rewrite <- app_assoc. reflexivity. Qed.

Lemma for_steps_cons {St} (body : nat -> step_value -> M St unit) i step rest env st :
  for_steps body i (step :: rest) env st =
  match body i step env st with
  | (Returned _, st') => for_steps body (S i) rest env st'
  | (Thrown e, st') => (Thrown e, st')
  end.
Proof. reflexivity. Qed.

Lemma slice_last_length n s : (length (slice_last n s) <= n)%nat.
Proof. unfold slice_last. rewrite length_drop. lia. Qed.

(** *** The loop over the steps, for a fixed outside world and definition *)

Section Loop.

Context (env : Env) (deployId : jstring) (config : EnvConfig).

Lemma run_step_null startTime i w l :
  run_step deployId startTime config i StepNull env (w, l)
  = (Thrown (JsError TypeError_null_name), (w, l)).
Proof. reflexivity. Qed.

Lemma step_null_or_not (step : step_value) : step = StepNull \/ step <> StepNull.
Proof. destruct step; [left; reflexivity | right; discriminate | right; discriminate]. Qed.

Lemma run_step_other startTime i step w l :
  step <> StepNull ->
  run_step deployId startTime config i step env (w, l)
  = ((step_outcome env deployId config i step w).1,
     (advance w 2 (step_calls w config step) (step_outcome env deployId config i step w).2,
      push_step (step_entry env startTime config i step w) l)).
Proof.
  intros Hnull.
  unfold step_outcome, step_entry, step_calls, command_callback, command_call, run_step.
  destruct w.
  destruct step as [|s|name]; [congruence| |].
  - destruct s as [name [|c cs]]; run_monad;
      [unfold advance; simpl; rewrite ?app_nil_r; reflexivity|].
    destruct (cb_error _) eqn:E; run_monad; unfold advance; simpl;
      rewrite ?app_nil_r; reflexivity.
  - run_monad. unfold advance; simpl; rewrite ?app_nil_r; reflexivity.
Qed.

Lemma step_entry_bounded t i step w : success_bounded (step_entry env t config i step w).
Proof.
  unfold success_bounded, step_entry, persisted_output, persisted_stderr.
  destruct (command_of step) as [[|c cs]|]; [discriminate| |discriminate].
  destruct (cb_error _); simpl; [discriminate|].
  intros _. split.
  - destruct (truthy_string _); [|simpl; lia].
    unfold js_or, or_empty. cbn [truthy].
    destruct (truthy_string (slice_last 1000 _)) eqn:E; cbn [truthy]; rewrite ?E; simpl;
      [apply slice_last_length | lia].
  - destruct (truthy_string _); [|simpl; lia].
    unfold or_empty. cbn [truthy].
    destruct (truthy_string (slice_last 500 _)) eqn:E; simpl;
      [apply slice_last_length | lia].
Qed.

Lemma step_entry_order t i step w :
  sr_order (step_entry env t config i step w) = Z.of_nat i + 1.
Proof.
  unfold step_entry. destruct (command_of step) as [[|c cs]|]; try reflexivity.
  destruct (cb_error _); reflexivity.
Qed.

(** The body of the loop ends without an error exactly when it has pushed
    a success, and it starts a child process then. *)
Lemma step_outcome_status t i step w :
  ((step_outcome env deployId config i step w).1 = Returned tt
   <-> sr_status (step_entry env t config i step w) = StepSuccess)
  /\ ((step_outcome env deployId config i step w).1 = Returned tt ->
      length (step_calls w config step) = 1%nat).
Proof.
  unfold step_outcome, step_entry, step_calls.
  destruct (command_of step) as [[|c cs]|]; simpl; try (split; [split|]; discriminate).
  destruct (cb_error _); simpl; split; try split; try discriminate; reflexivity.
Qed.

(** What holds of the loop over the steps whatever the steps do. *)
Lemma for_steps_general c0 steps :
  forall i w l,
  exists out calls results reports,
    for_steps (run_step deployId (now env c0) config) i steps env (w, l)
    = (out, (advance w (2 * length results) calls reports, push_steps results l))
    /\ Forall success_bounded results
    /\ Forall (fun c => ec_running c = running w) calls
    /\ (forall k r, results !! k = Some r -> sr_order r = Z.of_nat (i + k) + 1).
Proof.
  induction steps as [|step rest IH]; intros i w l.
  - exists (Returned tt), [], [], []. simpl.
    rewrite advance_id, push_steps_nil. repeat split; try constructor.
    intros k r Hk. discriminate.
  - rewrite for_steps_cons. destruct (step_null_or_not step) as [->|Hstep].
    + rewrite run_step_null. exists (Thrown (JsError TypeError_null_name)), [], [], [].
      simpl. rewrite advance_id, push_steps_nil. repeat split; try constructor.
      intros k r Hk. discriminate.
    + rewrite run_step_other by exact Hstep.
      pose proof (step_entry_bounded (now env c0) i step w) as Hb.
      pose proof (step_entry_order (now env c0) i step w) as Ho.
      set (e := step_entry env (now env c0) config i step w) in *.
      assert (Hrun : Forall (fun c => ec_running c = running w) (step_calls w config step)).
      { unfold step_calls. destruct (command_of step) as [[|c cs]|]; repeat constructor. }
      set (cs := step_calls w config step) in *.
      destruct (step_outcome env deployId config i step w) as [[[]|err] reps]; simpl.
      * destruct (IH (S i) (advance w 2 cs reps) (push_step e l))
          as (out & calls & results & reports & Heq & H2 & H3 & H5).
        exists out, (cs ++ calls), (e :: results), (reps ++ reports).
        rewrite Heq, advance_advance, push_steps_push. simpl.
        replace (S (S (length results + (length results + 0))))
          with (S (length results + S (length results + 0))) by lia.
        split; [reflexivity|]. split; [|split].
        -- constructor; assumption.
        -- apply Forall_app. split; [exact Hrun | exact H3].
        -- intros [|k] r Hk.
           ++ injection Hk as <-. rewrite Ho. f_equal. lia.
           ++ rewrite (H5 k r Hk). f_equal. lia.
      * exists (Thrown err), cs, [e], reps. split; [reflexivity|].
        split; [|split].
        -- constructor; [exact Hb | constructor].
        -- exact Hrun.
        -- intros [|k] r Hk; [|discriminate]. injection Hk as <-.
           rewrite Ho. f_equal. lia.
Qed.

(** Steps that all succeed are all run, one child process each. *)
Lemma for_steps_success_prefix t0 w0 pre :
  forall i j w l rest,
    steps_succeed env w0 config j pre = true ->
    length (trace w) = (length (trace w0) + j)%nat ->
    shellPath w = shellPath w0 ->
    exists calls results,
      for_steps (run_step deployId t0 config) i (pre ++ rest) env (w, l)
      = for_steps (run_step deployId t0 config) (i + length pre) rest env
          (advance w (2 * length pre) calls [], push_steps results l)
      /\ length calls = length pre
      /\ length results = length pre
      /\ Forall (fun r => sr_status r = StepSuccess) results
      /\ Forall2 runs_step calls pre.
Proof.
  induction pre as [|step pre IH]; intros i j w l rest Hok Htr Hsh.
  - exists [], []. simpl. rewrite advance_id, push_steps_nil, Nat.add_0_r.
    repeat split; constructor.
  - simpl in Hok. destruct step as [|s|name]; [discriminate| |discriminate].
    destruct (starts_process (StepObject s)) eqn:Hsp; [|discriminate].
    unfold step_callback in Hok.
    destruct (cb_error _) as [m|] eqn:E in Hok; [discriminate|].
    rewrite <- Htr, <- Hsh in E.
    simpl app. rewrite for_steps_cons, run_step_other by discriminate.
    unfold starts_process in Hsp. cbn [command_of truthy] in Hsp.
    destruct (step_command s) as [|c cs] eqn:Hcmd; [discriminate|].
    assert (Hout : step_outcome env deployId config i (StepObject s) w = (Returned tt, [])).
    { unfold step_outcome, command_callback. cbn [command_of]. rewrite Hcmd, E. reflexivity. }
    assert (Hcalls : step_calls w config (StepObject s) = [command_call w config (c :: cs)]).
    { unfold step_calls. cbn [command_of]. rewrite Hcmd. reflexivity. }
    rewrite Hout, Hcalls. simpl.
    set (call := command_call w config (c :: cs)).
    set (e := step_entry env t0 config i (StepObject s) w).
    assert (He : sr_status e = StepSuccess).
    { subst e. unfold step_entry, command_callback. cbn [command_of]. rewrite Hcmd, E.
      reflexivity. }
    destruct (IH (S i) (S j) (advance w 2 [call] []) (push_step e l) rest Hok)
      as (calls & results & Heq & H1 & H2 & H3 & H4).
    { simpl. rewrite length_app, Htr. simpl. lia. }
    { simpl. exact Hsh. }
    exists (call :: calls), (e :: results).
    rewrite Heq, advance_advance, push_steps_push. simpl.
    replace (i + S (length pre))%nat with (S (i + length pre)) by lia.
    replace (S (S (length pre + (length pre + 0))))
      with (S (length pre + S (length pre + 0))) by lia.
    split; [reflexivity|].
    split; [lia|]. split; [lia|]. split.
    + constructor; assumption.
    + constructor; [simpl; symmetry; exact Hcmd | assumption].
Qed.

(** A step whose child process fails. *)
Lemma step_fails t i j s w w0 message :
  length (trace w) = (length (trace w0) + j)%nat ->
  shellPath w = shellPath w0 ->
  step_failure env w0 config j (StepObject s) = Some message ->
  exists err reps,
    step_outcome env deployId config i (StepObject s) w = (Thrown err, reps)
    /\ exn_error err = Some message
    /\ step_calls w config (StepObject s) = [command_call w config (step_command s)]
    /\ sr_status (step_entry env t config i (StepObject s) w) = StepError
    /\ sr_error (step_entry env t config i (StepObject s) w) = Some message.
Proof.
  intros Htr Hsh. unfold step_failure, starts_process, step_callback.
  unfold step_outcome, step_calls, step_entry, command_callback. cbn [command_of truthy].
  rewrite Htr, Hsh.
  destruct (step_command s) as [|c cs]; [discriminate|]. cbn [truthy_string].
  intros ->. eexists _, _. repeat split; reflexivity.
Qed.

End Loop.

(** *** The whole run *)

Lemma saveLog_returns l env w : (saveLog l env w).1 = Returned tt.
Proof.
  destruct w as [? ? ? ? ? ld ? ?].
  unfold saveLog, ensureLogsDir, getLogFilePath_today, fs.mkdir, fs.appendFile.
  run_monad.
  destruct (mkdir_error env), (appendFile_error env), ld; reflexivity.
Qed.

Lemma deployApp_unfold env w deployId appName en config :
  let c0 := clock w in
  let key := running_key appName en in
  let l0 := init_log deployId appName en config (now env (S c0)) in
  forall out w2 l2,
    for_steps (run_step deployId (now env c0) config) 0 (cfg_steps config) env
      (loop_world key w, l0) = (out, (w2, l2)) ->
    let lf := finish_log out (now env c0) (now env (clock w2)) (now env (S (clock w2))) l2 in
    let w3 := set_running (running w2 ∖ {[key]})
                (advance w2 2 [] (final_reports deployId out (now env (clock w2) - now env c0))) in
    deployApp deployId appName en config env w
    = (Returned lf, (saveLog lf env w3).2)
    /\ (saveLog lf env w3).1 = Returned tt.
Proof.
  intros c0 key l0 out w2 l2 Hloop lf w3.
  split; [|apply saveLog_returns].
  subst lf w3 l0 c0. unfold loop_world, init_log in Hloop. destruct w.
  unfold deployApp. run_monad. fold key.
  cbv [set_running set_clock] in *; simpl in *. rewrite Hloop.
  destruct out as [[]|e], w2; simpl; unfold finish_log, advance, final_reports; simpl;
    rewrite ?app_nil_r;
    match goal with
    | |- context [saveLog ?l env ?w] =>
        pose proof (saveLog_returns l env w) as Hs;
        destruct (saveLog l env w) as [o s']; simpl in Hs; subst o
    end; reflexivity.
Qed.

Lemma saveLog_frame l env w :
  let w' := (saveLog l env w).2 in
  running w' = running w /\ trace w' = trace w /\ clock w' = S (clock w)
  /\ APPS w' = APPS w /\ shellPath w' = shellPath w.
Proof.
  destruct w as [? ? ? ? ? ld ? ?].
  unfold saveLog, ensureLogsDir, getLogFilePath_today, fs.mkdir, fs.appendFile.
  run_monad.
  destruct (mkdir_error env), (appendFile_error env), ld; simpl; auto.
Qed.

(** Whatever the body of a [try] does, the slot is free after the [finally]
    block that deletes it. *)
Lemma try_finally_frees_slot {A} (body : M (World * RunRecord) A) key env st :
  key ∉ running (try_finally body (lift (running.delete key)) env st).2.1.
Proof.
  unfold try_finally. destruct (body env st) as [r [w l]]. run_monad.
  intros [_ Hn]%elem_of_difference. apply Hn, elem_of_singleton. reflexivity.
Qed.

Lemma slice_last_nil n : slice_last n [] = [].
Proof. unfold slice_last. apply drop_nil. Qed.

Lemma slice_last_truthy n s :
  (if truthy_string s then slice_last n s else []) = slice_last n s.
Proof. destruct s; [rewrite slice_last_nil|]; reflexivity. Qed.

Lemma saveLog_files l env w :
  let p := partition_at env (clock w) in
  files (saveLog l env w).2 =
    if persist_ok env w
    then <[p := default [] (files w !! p) ++ logLine l]> (files w)
    else files w.
Proof.
  destruct w as [? ? ? ? ? ld ? ?]. unfold persist_ok, partition_at.
  unfold saveLog, ensureLogsDir, getLogFilePath_today, fs.mkdir, fs.appendFile.
  run_monad.
  destruct (mkdir_error env), (appendFile_error env), ld; reflexivity.
Qed.

Lemma saveLog_reports l env w :
  let w' := (saveLog l env w).2 in
  (forall m, mkdir_error env = Some m ->
     In (FailedToCreateLogsDir (JsError m)) (console_error w'))
  /\ (forall m, appendFile_error env = Some m ->
     In (FailedToSaveLog (JsError m)) (console_error w'))
  /\ (persist_ok env w = false -> exists err, In (FailedToSaveLog err) (console_error w')).
Proof.
  destruct w as [? ? ? ? ? ld ? ?]. unfold persist_ok.
  unfold saveLog, ensureLogsDir, getLogFilePath_today, fs.mkdir, fs.appendFile.
  run_monad.
  destruct (mkdir_error env), (appendFile_error env), ld; simpl;
    (split; [|split]); intros; simplify_eq; try (eexists; rewrite !in_app_iff; simpl; eauto; fail);
    rewrite !in_app_iff; simpl; auto.
Qed.

(** *** What a run is made of *)

Lemma finish_log_steps out t0 t tEnd l : log_steps (finish_log out t0 t tEnd l) = log_steps l.
Proof. destruct out; reflexivity. Qed.

Lemma steps_succeed_cons env w config j step rest :
  steps_succeed env w config j (step :: rest)
  = steps_succeed env w config j [step] && steps_succeed env w config (S j) rest.
Proof.
  destruct step as [|s|name]; try reflexivity. cbn [steps_succeed].
  destruct (starts_process (StepObject s)); [|reflexivity].
  destruct (cb_error _); reflexivity.
Qed.

Section Results.

Context (env : Env) (deployId : jstring) (config : EnvConfig) (t0 : Z) (w0 : World).

(** The body of the loop for a step that is not [null]: what it pushes, and
    the two ways in which it goes, with a child process or without. *)
Lemma step_cases i j step w :
  step <> StepNull ->
  length (trace w) = (length (trace w0) + j)%nat ->
  shellPath w = shellPath w0 ->
  let e := step_entry env t0 config i step w in
  let o := (step_outcome env deployId config i step w).1 in
  (sr_order e = Z.of_nat i + 1 /\ sr_name e = stepName i step
   /\ sr_command e = command_of step
   /\ sr_duration e = match sr_status e with
                      | StepSuccess => now env (S (clock w)) - now env (clock w)
                      | StepError => now env (S (clock w)) - t0
                      end
   /\ (o = Returned tt <-> sr_status e = StepSuccess)
   /\ (o = Returned tt <-> steps_succeed env w0 config j [step] = true))
  /\ ((exists s,
         step = StepObject s /\ step_command s <> []
         /\ step_calls w config step = [command_call w config (step_command s)]
         /\ reports_callback (step_callback env w0 config j s) e)
      \/ (starts_process step = false /\ step_calls w config step = []
          /\ o = Thrown (JsError (exec_TypeError env (command_of step)))
          /\ sr_status e = StepError /\ sr_error e = None /\ sr_stderr e = None
          /\ sr_stdout e = None /\ sr_output e = None)).
Proof.
  intros Hnull Htr Hsh e o. subst e o.
  unfold step_entry, step_outcome, step_calls, command_callback, reports_callback,
    step_callback, starts_process.
  destruct step as [|s|name]; [congruence| |].
  - cbn [command_of truthy steps_succeed]. unfold starts_process, step_callback.
    cbn [command_of truthy]. rewrite Htr, Hsh.
    destruct (step_command s) as [|c cs] eqn:Hcmd; cbn [truthy_string].
    + split; [repeat split; try discriminate|].
      right. repeat split; reflexivity.
    + destruct (cb_error _) as [m|] eqn:E; cbn [fst snd sr_status sr_order sr_name
        sr_command sr_duration sr_output sr_stderr sr_error sr_stdout].
      * split; [repeat split; try discriminate|].
        left. exists s. rewrite Hcmd. split; [reflexivity|]. split; [discriminate|].
        split; [reflexivity|]. rewrite E. repeat split.
      * split; [repeat split|].
        left. exists s. rewrite Hcmd. split; [reflexivity|]. split; [discriminate|].
        split; [reflexivity|]. rewrite E. rewrite !slice_last_truthy. repeat split.
  - cbn [command_of truthy steps_succeed].
    split; [repeat split; try discriminate|].
    right. repeat split; reflexivity.
Qed.

(** The facts about a result do not change when a step is put in front. *)
Lemma result_facts_shift i j c n step rest call calls k r :
  result_facts env t0 w0 config (S i) (S j) (2 + c) n rest calls k r ->
  result_facts env t0 w0 config i j c (S n) (step :: rest) (call :: calls) (S k) r.
Proof.
  intros (st & H1 & H2 & H3 & H4 & H5 & H6 & H7 & H8).
  exists st. cbn [lookup list_lookup].
  replace (i + S k)%nat with (S i + k)%nat by lia.
  replace (j + S k)%nat with (S j + k)%nat by lia.
  replace (c + 2 * S k)%nat with (2 + c + 2 * k)%nat by lia.
  split; [exact H1|]. split; [exact H2|]. split; [exact H3|]. split; [exact H4|].
  split; [exact H5|]. split; [exact H6|]. split; [intros Hlt; apply H7; lia | exact H8].
Qed.

(** The loop over the steps: how it ends, and what it pushes for each step. *)
Lemma for_steps_results steps :
  forall i j w l,
    length (trace w) = (length (trace w0) + j)%nat ->
    shellPath w = shellPath w0 ->
    exists out calls results reports,
      for_steps (run_step deployId t0 config) i steps env (w, l)
      = (out, (advance w (2 * length results) calls reports, push_steps results l))
      /\ (length calls <= length results <= S (length calls))%nat
      /\ (length results <= length steps)%nat
      /\ Forall (fun c => ec_options c = exec_options (shellPath w0) (cfg_path config)
                          /\ ec_running c = running w) calls
      /\ (forall k r, results !! k = Some r ->
            result_facts env t0 w0 config i j (clock w) (length results) steps calls k r)
      /\ (out = Returned tt <-> steps_succeed env w0 config j steps = true)
      /\ (forall k step,
            steps !! k = Some step -> step <> StepNull ->
            steps_succeed env w0 config j (take k steps) = true ->
            (k < length results)%nat)
      /\ (forall k step,
            (k < length results)%nat -> steps !! k = Some step ->
            starts_process step = false ->
            out = Thrown (JsError (exec_TypeError env (command_of step)))).
Proof.
  induction steps as [|step rest IH]; intros i j w l Ht Hs.
  - exists (Returned tt), [], [], []. simpl.
    rewrite advance_id, push_steps_nil.
    split; [reflexivity|]. split; [lia|]. split; [lia|]. split; [constructor|].
    split; [intros k r Hk; discriminate|]. split; [split; reflexivity|].
    split; intros k step Hk; [discriminate | lia].
  - rewrite for_steps_cons, steps_succeed_cons.
    destruct (step_null_or_not step) as [->|Hstep].
    + rewrite run_step_null. exists (Thrown (JsError TypeError_null_name)), [], [], [].
      simpl. rewrite advance_id, push_steps_nil.
      split; [reflexivity|]. split; [lia|]. split; [lia|]. split; [constructor|].
      split; [intros k r Hk; discriminate|]. split; [split; discriminate|].
      split; [|intros k step Hk; lia].
      intros [|k] step Hk Hn Hpre; [injection Hk as <-; congruence | discriminate].
    + rewrite run_step_other by exact Hstep.
      destruct (step_cases i j step w Hstep Ht Hs)
        as ((Ho & Hn & Hc & Hd & Hst & Hok) & Hcases).
      set (e := step_entry env t0 config i step w) in *.
      set (cs := step_calls w config step) in *.
      destruct (step_outcome env deployId config i step w) as [[[]|err] reps] eqn:Eout;
        cbn [fst snd] in *.
      * destruct Hcases as [(s & Hobj & Hne & Hcalls & Hrep)|(_ & _ & Hno & _)];
          [|discriminate].
        set (call := command_call w config (step_command s)) in *.
        destruct (IH (S i) (S j) (advance w 2 cs reps) (push_step e l))
          as (out & calls & results & reports & Heq & H1 & H2 & H3 & H4 & H5 & H6 & H7).
        { simpl. rewrite length_app, Ht, Hcalls. simpl. lia. }
        { simpl. exact Hs. }
        exists out, (cs ++ calls), (e :: results), (reps ++ reports).
        rewrite Heq, advance_advance, push_steps_push. simpl length.
        replace (2 + 2 * length results)%nat with (2 * S (length results))%nat by lia.
        split; [reflexivity|]. rewrite Hcalls. cbn [app length].
        split; [lia|]. split; [lia|].
        split.
        { constructor; [|exact H3]. subst call. simpl. rewrite Hs. split; reflexivity. }
        split.
        { intros [|k] r Hk.
          - injection Hk as <-. exists step. rewrite !Nat.add_0_r.
            split; [reflexivity|]. split; [exact Hstep|]. split; [exact Ho|].
            split; [exact Hn|]. split; [exact Hc|]. split; [exact Hd|].
            split; [intros _; apply Hst; reflexivity|].
            cbn [lookup list_lookup]. exists s.
            split; [exact Hobj|]. split; [exact Hne|]. split; [reflexivity|].
            split; [reflexivity | exact Hrep].
          - apply result_facts_shift. apply (H4 k r Hk). }
        split; [rewrite (proj1 Hok eq_refl); exact H5|].
        split.
        { intros [|k] step' Hk Hn' Hpre; [simpl; lia|].
          cbn [lookup list_lookup] in Hk. cbn [take] in Hpre.
          rewrite steps_succeed_cons in Hpre. apply andb_prop in Hpre as [_ Hpre].
          specialize (H6 k step' Hk Hn' Hpre). simpl. lia. }
        intros [|k] step' Hlt Hk Hsp.
        { injection Hk as <-. exfalso. rewrite Hobj in Hsp.
          unfold starts_process in Hsp. cbn [command_of truthy] in Hsp.
          destruct (step_command s); [congruence | discriminate]. }
        cbn [lookup list_lookup] in Hk.
        apply (H7 k step'); [simpl in Hlt; lia | exact Hk | exact Hsp].
      * exists (Thrown err), cs, [e], reps. cbn [length].
        split; [reflexivity|].
        assert (Hlen : (length cs <= 1)%nat).
        { destruct Hcases as [(s & _ & _ & -> & _)|(_ & -> & _)]; simpl; lia. }
        split; [lia|]. split; [simpl; lia|].
        split.
        { destruct Hcases as [(s & _ & _ & Hcalls & _)|(_ & Hcalls & _)];
            rewrite Hcalls; repeat constructor. simpl. rewrite Hs. reflexivity. }
        split.
        { intros [|k] r Hk; [|discriminate]. injection Hk as <-.
          exists step. rewrite !Nat.add_0_r.
          split; [reflexivity|]. split; [exact Hstep|]. split; [exact Ho|].
          split; [exact Hn|]. split; [exact Hc|]. split; [exact Hd|].
          split; [intros Hlt; lia|].
          destruct Hcases as [(s & Hobj & Hne & Hcalls & Hrep)|(Hsp & Hcalls & _ & Herr)];
            rewrite Hcalls; cbn [lookup list_lookup].
          - exists s. split; [exact Hobj|]. split; [exact Hne|]. split; [reflexivity|].
            split; [reflexivity | exact Hrep].
          - split; [exact Hsp | exact Herr]. }
        split.
        { split; [discriminate|].
          intros H. apply andb_prop in H as [H _]. apply Hok in H. discriminate. }
        split.
        { intros [|k] step' Hk Hn' Hpre; [simpl; lia|].
          cbn [take] in Hpre.
          rewrite steps_succeed_cons in Hpre. apply andb_prop in Hpre as [Hpre _].
          apply Hok in Hpre. discriminate. }
        intros [|k] step' Hlt Hk Hsp; [|simpl in Hlt; lia].
        injection Hk as <-.
        destruct Hcases as [(s & Hobj & Hne & _)|(_ & _ & Herr & _)].
        { exfalso. rewrite Hobj in Hsp.
          unfold starts_process in Hsp. cbn [command_of truthy] in Hsp.
          destruct (step_command s); [congruence | discriminate]. }
        exact Herr.
Qed.

End Results.

(** What a run is made of: the loop over the steps, then the end of
    [deployApp]. *)
Lemma deployApp_anatomy env w deployId appName en config :
  let key := running_key appName en in
  let l0 := init_log deployId appName en config (now env (S (clock w))) in
  exists out calls results reports,
    let w2 := advance (loop_world key w) (2 * length results) calls reports in
    let lf := finish_log out (now env (clock w)) (now env (clock w2)) (now env (S (clock w2)))
                (push_steps results l0) in
    let w3 := set_running (running w2 ∖ {[key]})
                (advance w2 2 [] (final_reports deployId out
                                    (now env (clock w2) - now env (clock w)))) in
    deployApp deployId appName en config env w = (Returned lf, (saveLog lf env w3).2)
    /\ new_calls w (saveLog lf env w3).2 = calls
    /\ clock (saveLog lf env w3).2 = (clock w + 2 * length results + 5)%nat
    /\ (APPS (saveLog lf env w3).2 = APPS w
        /\ shellPath (saveLog lf env w3).2 = shellPath w
        /\ running (saveLog lf env w3).2 = running w ∖ {[key]}
        /\ files (saveLog lf env w3).2 =
             (let p := partition_at env (clock w + 2 * length results + 4)%nat in
              if persist_ok env w
              then <[p := default [] (files w !! p) ++ logLine lf]> (files w)
              else files w))
    /\ (length calls <= length results <= S (length calls))%nat
    /\ (length results <= length (cfg_steps config))%nat
    /\ Forall (fun c => ec_options c = exec_options (shellPath w) (cfg_path config)
                        /\ ec_running c = {[key]} ∪ running w) calls
    /\ (forall k r, results !! k = Some r ->
          result_facts env (now env (clock w)) w config 0 0 (clock w + 2)
            (length results) (cfg_steps config) calls k r)
    /\ (out = Returned tt <-> steps_succeed env w config 0 (cfg_steps config) = true)
    /\ (forall k step,
          cfg_steps config !! k = Some step -> step <> StepNull ->
          steps_succeed env w config 0 (take k (cfg_steps config)) = true ->
          (k < length results)%nat)
    /\ (forall k step,
          (k < length results)%nat -> cfg_steps config !! k = Some step ->
          starts_process step = false ->
          out = Thrown (JsError (exec_TypeError env (command_of step)))).
Proof.
  intros key l0.
  destruct (for_steps_results env deployId config (now env (clock w)) w (cfg_steps config)
              0%nat 0%nat (loop_world key w) l0)
    as (out & calls & results & reports & Heq & H1 & H2 & H3 & H4 & H5 & H6 & H7).
  { simpl. lia. }
  { reflexivity. }
  exists out, calls, results, reports. intros w2 lf w3.
  destruct (deployApp_unfold env w deployId appName en config _ _ _ Heq) as [Hd _].
  split; [exact Hd|].
  destruct (saveLog_frame lf env w3) as (Hr & Ht & Hc & Ha & Hs).
  split.
  { unfold new_calls. rewrite Ht. simpl.
    rewrite ?app_nil_r, <- ?app_assoc, drop_app_length. reflexivity. }
  split.
  { rewrite Hc. simpl. lia. }
  split.
  { split; [rewrite Ha; reflexivity|]. split; [rewrite Hs; reflexivity|]. split.
    - rewrite Hr. simpl. apply set_eq. intros x.
      rewrite !elem_of_difference, elem_of_union, elem_of_singleton. tauto.
    - rewrite saveLog_files.
      replace (clock w3) with (clock w + 2 * length results + 4)%nat by (simpl; lia).
      reflexivity. }
  split; [exact H1|]. split; [exact H2|]. split; [exact H3|].
  split; [|split; [exact H5 | split; [exact H6 | exact H7]]].
  intros k r Hk. specialize (H4 k r Hk).
  replace (clock w + 2)%nat with (clock (loop_world key w)) by (simpl; lia).
  exact H4.
Qed.

(** C4. For every run, in every world and whatever the steps and the child
    processes do (all steps succeed, a step fails, or a malformed step raises
    an internal [TypeError]), [deployApp] returns and the slot of its
    (app, env) pair is free afterwards; the other slots are as they were.
    The release is the [finally] block of the [try] around the steps. *)
Theorem deployApp_releases_slot env w deployId appName en config :
  exists r w',
    deployApp deployId appName en config env w = (Returned r, w')
    /\ (running_key appName en ∉ running w')
    /\ running w' = running w ∖ {[running_key appName en]}.
Proof.
  set (key := running_key appName en).
  destruct (for_steps_general env deployId config (clock w) (cfg_steps config) 0
              (loop_world key w)
              (init_log deployId appName en config (now env (S (clock w)))))
    as (out & calls & results & reports & Heq & _).
  destruct (deployApp_unfold env w deployId appName en config _ _ _ Heq) as [Hd _].
  fold key in Hd. rewrite Hd.
  eexists _, _. split; [reflexivity|].
  match goal with
  | |- context [saveLog ?l env ?w3] => destruct (saveLog_frame l env w3) as (Hr & _)
  end.
  rewrite Hr. simpl. split.
  - intros [_ Hn]%elem_of_difference. apply Hn, elem_of_singleton. reflexivity.
  - apply set_eq. intros x. rewrite !elem_of_difference, elem_of_union, elem_of_singleton.
    tauto.
Qed.

(** C5. When every step of the definition is an object whose command ends
    without an error, the run record has status [Success] and as many step
    results as the definition has steps. *)
Theorem deployApp_all_succeed env w deployId appName en config :
  steps_succeed env w config 0 (cfg_steps config) = true ->
  exists r w',
    deployApp deployId appName en config env w = (Returned r, w')
    /\ log_status r = Success
    /\ length (log_steps r) = length (cfg_steps config).
Proof.
  intros Hok.
  set (key := running_key appName en).
  set (l0 := init_log deployId appName en config (now env (S (clock w)))).
  destruct (for_steps_success_prefix env deployId config (now env (clock w)) w
              (cfg_steps config) 0 0 (loop_world key w) l0 [] Hok)
    as (calls & results & Heq & H1 & H2 & H3 & H4).
  { simpl. lia. }
  { reflexivity. }
  rewrite app_nil_r in Heq. simpl in Heq.
  destruct (deployApp_unfold env w deployId appName en config _ _ _ Heq) as [Hd _].
  rewrite Hd. eexists _, _. split; [reflexivity|].
  simpl. split; [reflexivity|]. exact H2.
Qed.

(** C1. Let step number [i = length pre + 1] be the first one that fails,
    with an error message [message] (never empty for an error of [exec]).
    Then the child processes started by the run are those of the steps
    [1..i], in order, and none of the later steps; the record has exactly [i]
    step results, the last one with status [StepError]; the run has status
    [Failed] and its [error] is [message]. *)
Theorem deployApp_fail_fast env w deployId appName en config pre step post message :
  cfg_steps config = pre ++ step :: post ->
  steps_succeed env w config 0 pre = true ->
  step_failure env w config (length pre) step = Some message ->
  truthy_string message = true ->
  exists r w' failed,
    deployApp deployId appName en config env w = (Returned r, w')
    /\ Forall2 runs_step (new_calls w w') (pre ++ [step])
    /\ length (log_steps r) = S (length pre)
    /\ log_steps r !! length pre = Some failed
    /\ sr_status failed = StepError
    /\ sr_error failed = Some message
    /\ log_status r = Failed
    /\ log_error r = Some message.
Proof.
  intros Hsteps Hok Hfail Hne.
  set (key := running_key appName en).
  set (l0 := init_log deployId appName en config (now env (S (clock w)))).
  destruct (for_steps_success_prefix env deployId config (now env (clock w)) w
              pre 0 0 (loop_world key w) l0 (step :: post) Hok)
    as (calls & results & Heq & H1 & H2 & H3 & H4).
  { simpl. lia. }
  { reflexivity. }
  destruct step as [|s|name]; [discriminate| |discriminate].
  set (w1 := advance (loop_world key w) (2 * length pre) calls []) in *.
  destruct (step_fails env deployId config (now env (clock w)) (0 + length pre)
              (length pre) s w1 w message)
    as (err & reps & Hout & Herr & Hcalls & Hst & Hse).
  { subst w1. simpl. rewrite length_app, H1. reflexivity. }
  { reflexivity. }
  { exact Hfail. }
  rewrite for_steps_cons, run_step_other in Heq by discriminate.
  rewrite Hout, Hcalls in Heq. cbn [fst snd] in Heq. rewrite <- Hsteps in Heq.
  destruct (deployApp_unfold env w deployId appName en config _ _ _ Heq) as [Hd _].
  rewrite Hd. clear Hd Heq.
  eexists _, _, _. split; [reflexivity|].
  match goal with
  | |- context [saveLog ?l env ?w3] => destruct (saveLog_frame l env w3) as (_ & Ht & _)
  end.
  split.
  { unfold new_calls. rewrite Ht. simpl.
    rewrite ?app_nil_r, <- ?app_assoc, drop_app_length.
    apply Forall2_app; [assumption|]. constructor; [reflexivity | constructor]. }
  simpl. rewrite length_app, H2. simpl.
  split; [lia|]. split.
  { rewrite lookup_app_r by lia. rewrite H2, Nat.sub_diag. reflexivity. }
  split; [exact Hst|]. split; [exact Hse|]. split; [reflexivity|].
  rewrite Herr. unfold js_or. cbn [truthy]. rewrite Hne. reflexivity.
Qed.

(** C9.  The duration of every step result is taken from the readings of
    the clock around its step.  Step number [k] takes the reading
    [step_started w k] before its command is executed, its own start, and
    the reading [step_ended w k] when the command has ended or failed; the
    child process of the step runs between the two.  A successful step
    records the second minus the first: the time of that step alone.  A
    failed step records the second minus the very first reading of the run,
    [startTime]: the time since the start of the whole run.  Every step that
    is reached, all steps before it having succeeded, has a result, and it
    is a success exactly when the command of the step is executed and ends
    without an error. *)
Theorem deployApp_durations env w deployId appName en config :
  exists r w',
    deployApp deployId appName en config env w = (Returned r, w')
    /\ log_startTime r = now env (S (clock w))
    /\ (forall k res, log_steps r !! k = Some res -> duration_recorded env w k res)
    /\ (forall k call,
          new_calls w w' !! k = Some call ->
          ec_clock call = step_ended w k
          /\ exists res, log_steps r !! k = Some res
                         /\ sr_command res = Some (ec_command call))
    /\ (forall pre step post,
          cfg_steps config = pre ++ step :: post ->
          steps_succeed env w config 0 pre = true ->
          step <> StepNull ->
          exists res,
            log_steps r !! length pre = Some res
            /\ (sr_status res = StepSuccess
                <-> steps_succeed env w config (length pre) [step] = true)).
Proof.
  destruct (deployApp_anatomy env w deployId appName en config)
    as (out & calls & results & reports & Hd & Hcalls & _ & _ & Hlen & _ & _ & Hres & _ & Hex & _).
  eexists _, _. split; [exact Hd|]. rewrite Hcalls, finish_log_steps.
  cbn [log_steps push_steps init_log app].
  split; [destruct out; reflexivity|].
  split; [|split].
  - intros k res Hk. destruct (Hres k res Hk) as (step & _ & _ & _ & _ & _ & Hdur & _).
    unfold duration_recorded, step_ended, step_started.
    destruct (sr_status res); exact Hdur.
  - intros k call Hk.
    assert (Hlt : (k < length results)%nat).
    { apply lookup_lt_Some in Hk. lia. }
    destruct (lookup_lt_is_Some_2 results k Hlt) as [res Hr].
    destruct (Hres k res Hr) as (step & _ & _ & _ & _ & Hcmd & _ & _ & Hcall).
    rewrite Hk in Hcall. destruct Hcall as (s & -> & _ & Hec & Hclock & _).
    split; [exact Hclock|]. exists res. split; [exact Hr|].
    rewrite Hcmd, Hec. reflexivity.
  - intros pre step post Hsteps Hpre Hnull.
    assert (Hk : cfg_steps config !! length pre = Some step).
    { rewrite Hsteps. apply list_lookup_middle. reflexivity. }
    assert (Htake : take (length pre) (cfg_steps config) = pre).
    { rewrite Hsteps. apply take_app_length. }
    assert (Hlt : (length pre < length results)%nat).
    { apply (Hex (length pre) step Hk Hnull). rewrite Htake. exact Hpre. }
    destruct (lookup_lt_is_Some_2 results (length pre) Hlt) as [res Hr].
    exists res. split; [exact Hr|].
    destruct (Hres (length pre) res Hr) as (step' & Hk' & _ & _ & _ & _ & _ & _ & Hcall).
    rewrite Hk in Hk'. injection Hk' as <-.
    destruct (calls !! length pre) as [call|].
    + destruct Hcall as (s & -> & Hne & _ & _ & Hrep). cbn [steps_succeed].
      unfold starts_process. cbn [command_of truthy].
      destruct (step_command s) as [|c cs]; [congruence|]. cbn [truthy_string].
      unfold reports_callback in Hrep. cbn [Nat.add] in Hrep.
      destruct (cb_error (step_callback env w config (length pre) s)).
      * destruct Hrep as (E & _). rewrite E. split; discriminate.
      * destruct Hrep as (E & _). rewrite E. split; reflexivity.
    + destruct Hcall as (Hsp & E & _). rewrite E.
      split; [discriminate|]. intros H.
      destruct step as [|s|name]; cbn [steps_succeed] in H; try discriminate.
      rewrite Hsp in H. discriminate.
Qed.

Lemma run_step_faults m a env deployId t0 config i step st :
  run_step deployId t0 config i step (set_faults m a env) st
  = run_step deployId t0 config i step env st.
Proof.
  destruct st as [w l]. destruct (step_null_or_not step) as [->|Hstep]; [reflexivity|].
  rewrite !run_step_other by exact Hstep. reflexivity.
Qed.

Lemma for_steps_faults m a env deployId t0 config steps :
  forall i st,
    for_steps (run_step deployId t0 config) i steps (set_faults m a env) st
    = for_steps (run_step deployId t0 config) i steps env st.
Proof.
  induction steps as [|step rest IH]; intros i st; [reflexivity|].
  rewrite !for_steps_cons, run_step_faults.
  destruct (run_step _ _ _ _ _ env st) as [[[]|e] st']; [apply IH | reflexivity].
Qed.

(** Every step result of a run is numbered from 1, and the results of the
    successful steps are truncated. *)
Lemma deployApp_step_results env w deployId appName en config :
  exists r w',
    deployApp deployId appName en config env w = (Returned r, w')
    /\ Forall success_bounded (log_steps r)
    /\ (forall k step, log_steps r !! k = Some step -> sr_order step = Z.of_nat k + 1).
Proof.
  set (key := running_key appName en).
  destruct (for_steps_general env deployId config (clock w) (cfg_steps config) 0
              (loop_world key w)
              (init_log deployId appName en config (now env (S (clock w)))))
    as (out & calls & results & reports & Heq & Hb & _ & Ho).
  destruct (deployApp_unfold env w deployId appName en config _ _ _ Heq) as [Hd _].
  rewrite Hd. eexists _, _. split; [reflexivity|].
  destruct out; simpl; (split; [exact Hb | exact Ho]).
Qed.

(** ** [JSON.parse] after [JSON.stringify] *)

Lemma code_digit_char d : 0 <= d <= 9 -> code (digit_char d) = 48 + d.
Proof.
  intros H. unfold code, digit_char.
  rewrite N_ascii_embedding by lia. lia.
Qed.

Lemma is_digit_digit_char d : 0 <= d <= 9 -> is_digit (digit_char d) = true.
Proof.
  intros H. unfold is_digit. rewrite code_digit_char by lia.
  apply andb_true_intro; split; lia.
Qed.

Lemma digits_fuel_spec fuel :
  forall n acc,
    0 <= n < 2 ^ Z.of_nat fuel ->
    exists ds,
      digits_fuel fuel n acc = ds ++ acc
      /\ Forall (fun c => is_digit c = true) ds
      /\ fold_left digit_step ds 0 = n
      /\ (fuel <> O -> ds <> [])
      /\ (n <> 0 -> head ds <> Some "0"%char)
      /\ (n = 0 -> fuel <> O -> ds = ["0"%char]).
Proof.
  induction fuel as [|f IH]; intros n acc Hn.
  - exists []. simpl in *. assert (n = 0) by lia. subst.
    repeat split; try constructor; congruence.
  - simpl digits_fuel.
    assert (Hmod : 0 <= n mod 10 <= 9) by (pose proof (Z.mod_pos_bound n 10); lia).
    assert (Hdiv : n = 10 * (n / 10) + n mod 10) by (apply Z.div_mod; lia).
    destruct (n / 10 =? 0) eqn:E.
    + apply Z.eqb_eq in E. exists [digit_char (n mod 10)].
      split; [reflexivity|]. split.
      { constructor; [apply is_digit_digit_char; lia | constructor]. }
      split.
      { simpl. unfold digit_step. rewrite code_digit_char by lia. lia. }
      split; [discriminate|]. split.
      { intros Hnz. simpl. intros [= Heq].
        assert (code (digit_char (n mod 10)) = code "0"%char) by (rewrite Heq; reflexivity).
        rewrite code_digit_char in H by lia. change (code "0"%char) with 48 in H. lia. }
      { intros -> _. reflexivity. }
    + apply Z.eqb_neq in E.
      assert (Hq : 0 <= n / 10 < 2 ^ Z.of_nat f).
      { split; [apply Z.div_pos; lia|].
        rewrite Nat2Z.inj_succ, Z.pow_succ_r in Hn by lia.
        apply Z.div_lt_upper_bound; lia. }
      destruct (IH (n / 10) (digit_char (n mod 10) :: acc) Hq)
        as (ds & Heq & Hall & Hval & Hne & Hhd & _).
      assert (Hf : f <> O).
      { intros ->. simpl in Hq. lia. }
      exists (ds ++ [digit_char (n mod 10)]).
      split; [rewrite Heq, <- app_assoc; reflexivity|]. split.
      { apply Forall_app; split; [assumption|].
        constructor; [apply is_digit_digit_char; lia | constructor]. }
      split.
      { rewrite fold_left_app, Hval. simpl. unfold digit_step.
        rewrite code_digit_char by lia. lia. }
      split.
      { intros _ Habs. apply app_eq_nil in Habs. destruct Habs; discriminate. }
      split.
      { intros _. specialize (Hne Hf). specialize (Hhd E).
        destruct ds; [congruence|]. exact Hhd. }
      { intros -> _. exfalso. apply E. reflexivity. }
Qed.

Lemma digits_spec n :
  0 <= n ->
  exists c ds,
    digits n = c :: ds
    /\ Forall (fun c => is_digit c = true) (c :: ds)
    /\ digits_value (c :: ds) = n
    /\ (Ascii.eqb c "0"%char && negb (length ds =? 0)%nat = false).
Proof.
  intros Hn. unfold digits.
  destruct (digits_fuel_spec (S (Z.to_nat (Z.log2 n))) n [])
    as (ds & Heq & Hall & Hval & Hne & Hhd & Hz).
  { split; [assumption|].
    rewrite Nat2Z.inj_succ, Z2Nat.id by apply Z.log2_nonneg.
    destruct (Z.eq_dec n 0) as [->|Hnz]; [reflexivity|].
    apply Z.log2_spec. lia. }
  rewrite app_nil_r in Heq. rewrite Heq.
  destruct ds as [|c ds]; [exfalso; apply Hne; [discriminate | reflexivity]|].
  exists c, ds. split; [reflexivity|]. split; [assumption|]. split; [assumption|].
  destruct (Z.eq_dec n 0) as [->|Hnz].
  - specialize (Hz eq_refl ltac:(discriminate)). injection Hz as -> ->. reflexivity.
  - specialize (Hhd Hnz). simpl in Hhd.
    destruct (Ascii.eqb c "0"%char) eqn:E; [|reflexivity].
    apply Ascii.eqb_eq in E. subst. congruence.
Qed.

Lemma span_digits_app ds rest :
  Forall (fun c => is_digit c = true) ds ->
  match rest with [] => True | c :: _ => is_digit c = false end ->
  span_digits (ds ++ rest) = (ds, rest).
Proof.
  intros Hall Hrest. induction Hall as [|c ds Hc _ IH]; simpl.
  - destruct rest as [|c r]; [reflexivity|]. simpl. rewrite Hrest. reflexivity.
  - rewrite Hc, IH. reflexivity.
Qed.

Lemma is_digit_not_minus c : is_digit c = true -> Ascii.eqb c "-"%char = false.
Proof.
  intros H. destruct (Ascii.eqb c "-"%char) eqn:E; [|reflexivity].
  apply Ascii.eqb_eq in E. subst. discriminate.
Qed.

Lemma parse_frac_ends rest : ends_number rest -> parse_frac rest = Some ([], rest).
Proof.
  destruct rest as [|c r]; [reflexivity|]. intros (_ & H1 & _). simpl. rewrite H1. reflexivity.
Qed.

Lemma parse_exp_ends rest : ends_number rest -> parse_exp rest = Some ([], rest).
Proof.
  destruct rest as [|c r]; [reflexivity|]. intros (_ & _ & H2 & H3).
  simpl. rewrite H2, H3. reflexivity.
Qed.

Lemma parse_number_String_of_Z z rest :
  ends_number rest ->
  parse_number (String_of_Z z ++ rest) = Some (JNum z, rest).
Proof.
  intros Hrest. unfold String_of_Z.
  destruct (z <? 0) eqn:E.
  - apply Z.ltb_lt in E.
    destruct (digits_spec (- z) ltac:(lia)) as (c & ds & Heq & Hall & Hval & Hlead).
    unfold parse_number. simpl. rewrite Heq.
    rewrite span_digits_app; [| assumption | destruct rest; [exact I | apply Hrest]].
    rewrite Hlead, parse_frac_ends, parse_exp_ends by assumption.
    rewrite Hval. f_equal. f_equal. f_equal. lia.
  - apply Z.ltb_ge in E.
    destruct (digits_spec z E) as (c & ds & Heq & Hall & Hval & Hlead).
    unfold parse_number. rewrite Heq. simpl.
    rewrite is_digit_not_minus by (inversion Hall; assumption).
    change (c :: ds ++ rest) with ((c :: ds) ++ rest).
    rewrite span_digits_app; [| assumption | destruct rest; [exact I | apply Hrest]].
    rewrite Hlead, parse_frac_ends, parse_exp_ends by assumption.
    rewrite Hval. reflexivity.
Qed.

Lemma parse_string_quote_char c t :
  parse_string (quote_char c ++ t) =
  match parse_string t with
  | Some (u, rest) => Some (c :: u, rest)
  | None => None
  end.
Proof.
  destruct c as [[] [] [] [] [] [] [] []]; reflexivity.
Qed.

Lemma parse_string_quote_body s rest :
  parse_string (quote_body s ++ dquote :: rest) = Some (s, rest).
Proof.
  induction s as [|c s IH]; [reflexivity|].
  unfold quote_body in *. simpl flat_map. rewrite <- app_assoc.
  rewrite parse_string_quote_char, IH. reflexivity.
Qed.

Lemma parse_string_quote s rest :
  exists t, quote s ++ rest = dquote :: t /\ parse_string t = Some (s, rest).
Proof.
  exists (quote_body s ++ dquote :: rest). split.
  - unfold quote. simpl. rewrite <- app_assoc. reflexivity.
  - apply parse_string_quote_body.
Qed.

Lemma number_start_dispatch c :
  number_start c ->
  is_json_ws c = false /\ Ascii.eqb c dquote = false /\ Ascii.eqb c "["%char = false
  /\ Ascii.eqb c "{"%char = false /\ Ascii.eqb c "n"%char = false
  /\ Ascii.eqb c "t"%char = false /\ Ascii.eqb c "f"%char = false
  /\ Ascii.eqb c "]"%char = false.
Proof.
  intros [H|H].
  - apply Ascii.eqb_eq in H. subst. repeat split; reflexivity.
  - unfold is_json_ws. unfold is_digit in H. apply andb_prop in H as [H1 H2].
    apply Z.leb_le in H1, H2.
    repeat split;
      try (destruct (Ascii.eqb_spec c dquote) as [->|]; [discriminate | reflexivity]);
      try (match goal with
           | |- Ascii.eqb c ?x = false =>
               destruct (Ascii.eqb_spec c x) as [->|];
               [exfalso; revert H1 H2; vm_compute; intuition congruence | reflexivity]
           end).
    repeat (apply orb_false_intro); apply Z.eqb_neq; lia.
Qed.

Lemma String_of_Z_start z : exists c t, String_of_Z z = c :: t /\ number_start c.
Proof.
  unfold String_of_Z. destruct (z <? 0) eqn:E.
  - eexists _, _. split; [reflexivity|]. left. reflexivity.
  - apply Z.ltb_ge in E. destruct (digits_spec z E) as (c & ds & Heq & Hall & _).
    exists c, ds. split; [assumption|]. right. inversion Hall; assumption.
Qed.

Lemma parse_value_number f c t :
  number_start c -> parse_value (S f) (c :: t) = parse_number (c :: t).
Proof.
  intros H. apply number_start_dispatch in H as (H0 & H1 & H2 & H3 & H4 & H5 & H6 & _).
  simpl. rewrite H0, H1, H2, H3, H4, H5, H6. reflexivity.
Qed.

Lemma stringify_start v :
  no_real v = true -> exists c t, JSON.stringify v = c :: t /\ value_start c.
Proof.
  destruct v as [| [] | z | l | s | l | ms]; simpl; intros H; try discriminate;
    try (eexists _, _; split; [reflexivity | split; reflexivity]).
  destruct (String_of_Z_start z) as (c & t & Heq & Hs). exists c, t. split; [assumption|].
  apply number_start_dispatch in Hs. split; tauto.
Qed.

Lemma parse_elements_S f s :
  parse_elements (S f) s =
  match parse_value f s with
  | None => None
  | Some (v, r) =>
      match skip_ws r with
      | c :: r' =>
          if Ascii.eqb c ","%char then
            match parse_elements f r' with
            | Some (vs, rest) => Some (v :: vs, rest)
            | None => None
            end
          else if Ascii.eqb c "]"%char then Some ([v], r')
          else None
      | [] => None
      end
  end.
Proof. reflexivity. Qed.

Lemma parse_members_S f t k r1 :
  parse_string t = Some (k, ":"%char :: r1) ->
  parse_members (S f) (dquote :: t) =
  match parse_value f r1 with
  | None => None
  | Some (v, r3) =>
      match skip_ws r3 with
      | c :: r' =>
          if Ascii.eqb c ","%char then
            match parse_members f r' with
            | Some (ms, rest) => Some ((k, v) :: ms, rest)
            | None => None
            end
          else if Ascii.eqb c "}"%char then Some ([(k, v)], r')
          else None
      | [] => None
      end
  end.
Proof. intros H. simpl. rewrite H. reflexivity. Qed.

Lemma parse_value_arr f r c t :
  r = c :: t -> value_start c ->
  parse_value (S f) ("["%char :: r) =
  match parse_elements f r with
  | Some (l, rest) => Some (JArr l, rest)
  | None => None
  end.
Proof. intros -> [H1 H2]. simpl. rewrite H1, H2. reflexivity. Qed.

Lemma parse_value_obj f t :
  parse_value (S f) ("{"%char :: dquote :: t) =
  match parse_members f (dquote :: t) with
  | Some (l, rest) => Some (JObj l, rest)
  | None => None
  end.
Proof. reflexivity. Qed.

(** A number inside an array or an object is followed by a comma or by the
    closing bracket. *)
Lemma ends_number_comma r : ends_number (","%char :: r).
Proof. repeat split. Qed.

Lemma ends_number_bracket r : ends_number ("]"%char :: r).
Proof. repeat split. Qed.

Lemma ends_number_brace r : ends_number ("}"%char :: r).
Proof. repeat split. Qed.

Create HintDb json_ends.
#[local] Hint Resolve ends_number_comma ends_number_bracket ends_number_brace : json_ends.

Lemma stringify_arr l rest :
  JSON.stringify (JArr l) ++ rest
  = "["%char :: join_comma (map JSON.stringify l) ++ "]"%char :: rest.
Proof. simpl. rewrite <- app_assoc. reflexivity. Qed.

Lemma stringify_obj ms rest :
  JSON.stringify (JObj ms) ++ rest
  = "{"%char :: join_comma (map print_member ms) ++ "}"%char :: rest.
Proof. simpl. rewrite <- app_assoc. reflexivity. Qed.

Lemma join_comma_cons2 p q rest :
  join_comma (p :: q :: rest) = p ++ ","%char :: join_comma (q :: rest).
Proof. reflexivity. Qed.

Lemma join_comma_head c t parts tail :
  exists t', join_comma ((c :: t) :: parts) ++ tail = c :: t'.
Proof. destruct parts; simpl; eauto. Qed.

Lemma parse_roundtrip_fuel fuel :
  (forall v rest,
     (json_size v <= fuel)%nat -> no_real v = true -> ends_number rest ->
     parse_value fuel (JSON.stringify v ++ rest) = Some (v, rest))
  /\ (forall l rest,
     l <> [] -> (size_elems l <= fuel)%nat -> forallb no_real l = true ->
     parse_elements fuel (join_comma (map JSON.stringify l) ++ "]"%char :: rest)
     = Some (l, rest))
  /\ (forall ms rest,
     ms <> [] -> (size_members ms <= fuel)%nat -> forallb (fun m => no_real m.2) ms = true ->
     parse_members fuel (join_comma (map print_member ms) ++ "}"%char :: rest)
     = Some (ms, rest)).
Proof.
  induction fuel as [|f (IHv & IHe & IHm)].
  - split; [|split].
    + intros v rest Hs. destruct v; simpl in Hs; lia.
    + intros [|x l] rest Hne Hs; [congruence|]. unfold size_elems in Hs. simpl in Hs. lia.
    + intros [|x l] rest Hne Hs; [congruence|]. unfold size_members in Hs. simpl in Hs. lia.
  - split; [|split].
    + intros v rest Hs Hnr Hrest.
      destruct v as [| [] | z | lit | s | l | ms]; try discriminate.
      * reflexivity.
      * reflexivity.
      * reflexivity.
      * simpl JSON.stringify.
        destruct (String_of_Z_start z) as (c & t & Heq & Hst).
        pose proof (parse_number_String_of_Z z rest Hrest) as Hp.
        rewrite Heq in *. simpl app in *. rewrite parse_value_number by assumption.
        exact Hp.
      * simpl JSON.stringify.
        destruct (parse_string_quote s rest) as (t & Heq & Hp).
        rewrite Heq. simpl. rewrite Hp. reflexivity.
      * destruct l as [|x l]; [reflexivity|].
        simpl in Hs, Hnr. rewrite stringify_arr.
        apply andb_prop in Hnr as Hnr'. destruct Hnr' as [Hx _].
        destruct (stringify_start x Hx) as (c & t & Heq & Hst).
        destruct (join_comma_head c t (map JSON.stringify l) ("]"%char :: rest)) as (t' & Hhead).
        rewrite <- Heq in Hhead. change (JSON.stringify x :: map JSON.stringify l)
          with (map JSON.stringify (x :: l)) in Hhead.
        rewrite (parse_value_arr f _ c t' Hhead Hst).
        rewrite (IHe (x :: l) rest); [reflexivity | discriminate | | exact Hnr].
        unfold size_elems. simpl. lia.
      * destruct ms as [|[k x] ms]; [reflexivity|].
        simpl in Hs, Hnr. rewrite stringify_obj.
        destruct (join_comma_head dquote (quote_body k ++ [dquote] ++ ":"%char :: JSON.stringify x)
                    (map print_member ms) ("}"%char :: rest)) as (t' & Hhead).
        assert (Hpm : dquote :: quote_body k ++ [dquote] ++ ":"%char :: JSON.stringify x
                      = print_member (k, x)).
        { unfold print_member, quote. simpl. rewrite <- app_assoc. reflexivity. }
        rewrite Hpm in Hhead.
        change (print_member (k, x) :: map print_member ms)
          with (map print_member ((k, x) :: ms)) in Hhead.
        rewrite Hhead, parse_value_obj, <- Hhead.
        rewrite (IHm ((k, x) :: ms) rest); [reflexivity | discriminate | | exact Hnr].
        unfold size_members. simpl. lia.
    + intros l rest Hne Hs Hnr.
      destruct l as [|x l]; [congruence|].
      unfold size_elems in Hs. simpl in Hs, Hnr. apply andb_prop in Hnr as [Hx Hl].
      rewrite parse_elements_S.
      destruct l as [|y l].
      * change (join_comma (map JSON.stringify [x])) with (JSON.stringify x).
        rewrite IHv; [| simpl in Hs; lia | assumption | auto with json_ends].
        reflexivity.
      * change (map JSON.stringify (x :: y :: l))
          with (JSON.stringify x :: JSON.stringify y :: map JSON.stringify l).
        rewrite join_comma_cons2, <- app_assoc.
        change ((","%char :: join_comma (JSON.stringify y :: map JSON.stringify l))
                  ++ "]"%char :: rest)
          with (","%char :: join_comma (map JSON.stringify (y :: l)) ++ "]"%char :: rest).
        rewrite IHv; [| simpl in Hs; lia | assumption | auto with json_ends].
        change (skip_ws (","%char :: ?r)) with (","%char :: r).
        cbv match. change (Ascii.eqb ","%char ","%char) with true. cbv iota.
        rewrite (IHe (y :: l) rest); [reflexivity | discriminate | | exact Hl].
        unfold size_elems. simpl in *. lia.
    + intros ms rest Hne Hs Hnr.
      destruct ms as [|[k x] ms]; [congruence|].
      unfold size_members in Hs. simpl in Hs, Hnr. apply andb_prop in Hnr as [Hx Hl].
      destruct ms as [|y ms].
      * change (join_comma (map print_member [(k, x)])) with (quote k ++ ":"%char :: JSON.stringify x).
        rewrite <- app_assoc.
        change ((":"%char :: JSON.stringify x) ++ "}"%char :: rest)
          with (":"%char :: JSON.stringify x ++ "}"%char :: rest).
        destruct (parse_string_quote k (":"%char :: JSON.stringify x ++ "}"%char :: rest))
          as (t & Heq & Hp).
        rewrite Heq, (parse_members_S f t k _ Hp).
        rewrite IHv; [| simpl in Hs; lia | assumption | auto with json_ends].
        reflexivity.
      * change (map print_member ((k, x) :: y :: ms))
          with ((quote k ++ ":"%char :: JSON.stringify x) :: print_member y :: map print_member ms).
        rewrite join_comma_cons2, <- !app_assoc.
        change ((":"%char :: JSON.stringify x) ++
                (","%char :: join_comma (print_member y :: map print_member ms)) ++ "}"%char :: rest)
          with (":"%char :: JSON.stringify x ++
                ","%char :: join_comma (map print_member (y :: ms)) ++ "}"%char :: rest).
        destruct (parse_string_quote k
                    (":"%char :: JSON.stringify x ++ ","%char ::
                       join_comma (map print_member (y :: ms)) ++ "}"%char :: rest))
          as (t & Heq & Hp).
        rewrite Heq, (parse_members_S f t k _ Hp).
        rewrite IHv; [| simpl in Hs; lia | assumption | auto with json_ends].
        change (skip_ws (","%char :: ?r)) with (","%char :: r).
        cbv match. change (Ascii.eqb ","%char ","%char) with true. cbv iota.
        rewrite (IHm (y :: ms) rest); [reflexivity | discriminate | | exact Hl].
        unfold size_members. simpl in *. lia.
Qed.

(** ** The calendar: [setDate] goes back whole days *)

Lemma doe_bounds doe :
  0 <= doe <= 146096 ->
  0 <= yoe_of doe <= 399 /\ 0 <= doy_of doe <= 365.
Proof.
  intros H. unfold doy_of, yoe_of.
  Z.to_euclidean_division_equations; lia.
Qed.

Lemma civil_from_days_eq z :
  let z' := z + 719468 in
  let era := z' / 146097 in
  let doe := z' - era * 146097 in
  let mp := (5 * doy_of doe + 2) / 153 in
  let m := if mp <? 10 then mp + 3 else mp - 9 in
  civil_from_days z =
    (yoe_of doe + era * 400 + (if m <=? 2 then 1 else 0), m,
     doy_of doe - (153 * mp + 2) / 5 + 1).
Proof. reflexivity. Qed.

(** The calendar date of a day number names that day. *)
Lemma days_from_civil_from_days z :
  let '(y, m, d) := civil_from_days z in
  days_from_civil y m d = z /\ 1 <= m <= 12.
Proof.
  rewrite civil_from_days_eq.
  set (z' := z + 719468). set (era := z' / 146097). set (doe := z' - era * 146097).
  assert (Hdoe : 0 <= doe <= 146096).
  { subst doe era. pose proof (Z.mod_pos_bound z' 146097 ltac:(lia)) as Hm.
    rewrite Z.mod_eq in Hm by lia. lia. }
  destruct (doe_bounds doe Hdoe) as [Hy Hd].
  set (mp := (5 * doy_of doe + 2) / 153).
  assert (Hmp : 0 <= mp <= 11).
  { subst mp. Z.to_euclidean_division_equations; lia. }
  set (m := if mp <? 10 then mp + 3 else mp - 9).
  assert (Hm : 1 <= m <= 12 /\ (if 2 <? m then m - 3 else m + 9) = mp
               /\ (if m <=? 2 then 1 else 0) = (if mp <? 10 then 0 else 1)).
  { subst m. destruct (mp <? 10) eqn:E.
    - apply Z.ltb_lt in E.
      replace (2 <? mp + 3) with true by (symmetry; apply Z.ltb_lt; lia).
      replace (mp + 3 <=? 2) with false by (symmetry; apply Z.leb_gt; lia). lia.
    - apply Z.ltb_ge in E.
      replace (2 <? mp - 9) with false by (symmetry; apply Z.ltb_ge; lia).
      replace (mp - 9 <=? 2) with true by (symmetry; apply Z.leb_le; lia). lia. }
  destruct Hm as (Hm1 & Hm2 & Hm3).
  split; [|exact Hm1].
  cbv beta zeta delta [days_from_civil]. rewrite Hm2.
  set (y := yoe_of doe + era * 400 + (if m <=? 2 then 1 else 0)).
  assert (Hy' : (if m <=? 2 then y - 1 else y) = yoe_of doe + era * 400).
  { subst y. destruct (m <=? 2); lia. }
  rewrite Hy'.
  assert (Hera : (yoe_of doe + era * 400) / 400 = era).
  { rewrite Z.div_add by lia. rewrite Z.div_small by lia. lia. }
  rewrite Hera.
  replace (yoe_of doe + era * 400 - era * 400) with (yoe_of doe) by lia.
  unfold doy_of. subst doe z'. lia.
Qed.

Lemma Day_of_day day r : 0 <= r < msPerDay -> Day (day * msPerDay + r) = day.
Proof.
  intros H. unfold Day. rewrite Z.add_comm, Z.div_add by (unfold msPerDay; lia).
  rewrite Z.div_small by assumption. reflexivity.
Qed.

Lemma getLogFilePath_day d : getLogFilePath d = day_partition (Day (localTime d)).
Proof.
  unfold day_partition, getLogFilePath, getFullYear, getMonth, getDate. cbn [localTime].
  replace (Day (Day (localTime d) * msPerDay)) with (Day (localTime d)); [reflexivity|].
  symmetry. replace (Day (localTime d) * msPerDay) with (Day (localTime d) * msPerDay + 0) by lia.
  apply Day_of_day. unfold msPerDay. lia.
Qed.

(** [date.setDate(date.getDate() - i)] goes back [i] calendar days. *)
Lemma setDate_back d i :
  Day (localTime (setDate d (getDate d - i))) = Day (localTime d) - i.
Proof.
  unfold setDate. cbn [localTime]. unfold getDate, getFullYear, getMonth, MakeDay.
  pose proof (days_from_civil_from_days (Day (localTime d))) as H.
  destruct (civil_from_days (Day (localTime d))) as [[y m] dd]. cbn [fst snd].
  destruct H as [H Hm].
  replace ((m - 1) / 12) with 0 by (symmetry; apply Z.div_small; lia).
  replace ((m - 1) mod 12 + 1) with m by (rewrite Z.mod_small; lia).
  rewrite Z.add_0_r.
  replace (days_from_civil y m 1 + (dd - i) - 1) with (days_from_civil y m dd - i).
  2:{ unfold days_from_civil. lia. }
  rewrite H. apply Day_of_day. unfold TimeWithinDay. apply Z.mod_pos_bound.
  unfold msPerDay. lia.
Qed.

(** ** Log files: [parseLogFile] and the two queries *)

Lemma reported_nil w : reported [] w = w.
Proof. destruct w. unfold reported, set_console_error. simpl. rewrite app_nil_r. reflexivity. Qed.

Lemma reported_app r1 r2 w : reported r2 (reported r1 w) = reported (r1 ++ r2) w.
Proof. unfold reported, set_console_error. simpl. rewrite app_assoc. reflexivity. Qed.

Lemma parseLines_eq lines : forall env w,
  parseLines lines env w
  = (Returned (flat_map pushed lines), reported (flat_map line_reports lines) w).
Proof.
  induction lines as [|line rest IH]; intros env w.
  - simpl. rewrite reported_nil. reflexivity.
  - cbn [parseLines flat_map]. unfold pushed at 1, line_reports at 1.
    destruct (parseLine line); run_monad; rewrite IH; simpl.
    + rewrite <- (reported_nil w) at 1. rewrite reported_app. reflexivity.
    + rewrite <- (reported_nil w) at 1. rewrite reported_app. reflexivity.
    + change (set_console_error (console_error w ++ [FailedToParseLogLine]) w)
        with (reported [FailedToParseLogLine] w).
      rewrite reported_app. reflexivity.
Qed.

Lemma parseLogFile_eq content env w :
  parseLogFile content env w
  = (Returned (parsed content), reported (flat_map line_reports (log_lines content)) w).
Proof. unfold parseLogFile. apply parseLines_eq. Qed.

Lemma split_lines_nonempty s : split_lines s <> [].
Proof.
  destruct s as [|c s]; simpl; [discriminate|].
  destruct (Ascii.eqb c LF); [discriminate|]. destruct (split_lines s); discriminate.
Qed.

Lemma split_lines_app a b :
  split_lines (a ++ LF :: b) = split_lines a ++ split_lines b.
Proof.
  induction a as [|c a IH]; [reflexivity|].
  simpl. destruct (Ascii.eqb c LF).
  - rewrite IH. reflexivity.
  - rewrite IH. destruct (split_lines a) as [|l ls] eqn:E; [|reflexivity].
    exfalso. exact (split_lines_nonempty a E).
Qed.

(** Lines are parsed one by one: the entries of a file are those of its
    first lines followed by those of the rest. *)
Lemma parsed_app a b : parsed (a ++ LF :: b) = parsed a ++ parsed b.
Proof.
  unfold parsed, log_lines. rewrite split_lines_app, filter_app, flat_map_app. reflexivity.
Qed.

Lemma split_lines_no_LF line : ~ In LF line -> split_lines line = [line].
Proof.
  induction line as [|c line IH]; [reflexivity|]. intros H. simpl.
  destruct (Ascii.eqb_spec c LF) as [->|Hc]; [exfalso; apply H; left; reflexivity|].
  rewrite IH; [reflexivity|]. intros Hin. apply H. right. exact Hin.
Qed.


Lemma read_logs_eq path env w :
  exists reports,
    read_logs path env w = (Returned (logs_of w path), reported reports w).
Proof.
  unfold read_logs, logs_of, fs.readFile. run_monad.
  destruct (files w !! path) as [content|].
  - rewrite parseLogFile_eq. eexists. reflexivity.
  - exists []. rewrite reported_nil. reflexivity.
Qed.

Lemma search_file_eq path target env w :
  exists reports,
    search_file path target env w
    = (Returned (find_log target (logs_of w path)), reported reports w).
Proof.
  unfold search_file, logs_of, fs.readFile. run_monad.
  destruct (files w !! path) as [content|].
  - rewrite parseLogFile_eq. eexists. reflexivity.
  - exists []. rewrite reported_nil. reflexivity.
Qed.

Lemma first_match_cons target w today i rest :
  first_match target w today (i :: rest) =
  match find_log target (logs_of w (day_partition (today - i))) with
  | Some log => Some log
  | None => first_match target w today rest
  end.
Proof. reflexivity. Qed.

Lemma first_match_files target w1 w2 today offsets :
  files w1 = files w2 ->
  first_match target w1 today offsets = first_match target w2 today offsets.
Proof.
  intros H. induction offsets as [|i rest IH]; [reflexivity|].
  simpl. unfold logs_of. rewrite H, IH. reflexivity.
Qed.

Lemma same_day_lookup env k0 n today i :
  same_day env k0 n today = true -> (i < n)%nat -> local_day env (k0 + i) = today.
Proof.
  unfold same_day. rewrite forallb_forall. intros H Hi.
  apply Z.eqb_eq, H, in_seq. lia.
Qed.

Lemma search_recent_eq target env today offsets :
  forall w,
    Forall (fun k => local_day env k = today)
           (seq (clock w) (length offsets)) ->
    exists w',
      search_recent target offsets env w = (Returned (first_match target w today offsets), w')
      /\ files w' = files w.
Proof.
  induction offsets as [|i rest IH]; intros w Hday.
  - exists w. split; reflexivity.
  - simpl in Hday. pose proof (Forall_inv Hday) as Hk.
    pose proof (Forall_inv_tail Hday) as Hrest.
    cbn [search_recent first_match]. unfold new_Date. run_monad.
    match goal with
    | |- context [search_file ?p target env ?w1] =>
        destruct (search_file_eq p target env w1) as (reports & Hs); rewrite Hs
    end.
    rewrite getLogFilePath_day, setDate_back. cbn [localTime].
    unfold local_day in Hk. rewrite Hk.
    change (logs_of (set_clock (S (clock w)) w)) with (logs_of w).
    destruct (find_log target (logs_of w (day_partition (today - i)))) as [log|].
    + eexists. split; reflexivity.
    + destruct (IH (reported reports (set_clock (S (clock w)) w))) as (w' & Heq & Hf).
      { exact Hrest. }
      exists w'. split; [|exact Hf].
      rewrite Heq. f_equal. f_equal. apply first_match_files. reflexivity.
Qed.

(** ** The line written by [saveLog] parses back *)

(** Induction on JSON values, with the elements of arrays and objects. *)
Lemma json_nested_ind (P : json -> Prop) :
  P JNull -> (forall b, P (JBool b)) -> (forall n, P (JNum n)) ->
  (forall l, P (JReal l)) -> (forall s, P (JStr s)) ->
  (forall l, Forall P l -> P (JArr l)) ->
  (forall ms, Forall (fun m => P m.2) ms -> P (JObj ms)) ->
  forall v, P v.
Proof.
  intros Hnull Hbool Hnum Hreal Hstr Harr Hobj.
  fix IH 1. intros [| b | n | l | s | l | ms].
  - exact Hnull.
  - apply Hbool.
  - apply Hnum.
  - apply Hreal.
  - apply Hstr.
  - apply Harr. induction l as [|x l IHl]; constructor; [apply IH | exact IHl].
  - apply Hobj. induction ms as [|[k x] ms IHl]; constructor; [apply IH | exact IHl].
Qed.

Lemma length_join_comma parts :
  parts <> [] ->
  length (join_comma parts) = (list_sum (map (@length ascii) parts) + (length parts - 1))%nat.
Proof.
  induction parts as [|p [|q rest] IH]; intros H; [congruence | simpl; rewrite !Nat.add_0_r; reflexivity |].
  rewrite join_comma_cons2, length_app. cbn [length]. rewrite IH by discriminate.
  simpl. lia.
Qed.

Lemma String_of_Z_length z : (1 <= length (String_of_Z z))%nat.
Proof. destruct (String_of_Z_start z) as (c & t & -> & _). simpl. lia. Qed.

Lemma json_size_le_length v :
  no_real v = true -> (json_size v <= length (JSON.stringify v))%nat.
Proof.
  induction v as [| [] | n | l | s | l IH | ms IH] using json_nested_ind;
    intros Hnr; try discriminate; try (simpl; lia).
  - simpl. apply String_of_Z_length.
  - destruct l as [|x l]; [simpl; lia|].
    cbn [JSON.stringify json_size]. cbn [length]. rewrite length_app. cbn [length].
    rewrite length_join_comma by discriminate. rewrite length_map.
    simpl in Hnr.
    assert (Hsum : (list_sum (map (fun x => S (json_size x)) (x :: l))
                    <= list_sum (map (@length ascii) (map JSON.stringify (x :: l)))
                       + length (x :: l))%nat).
    { clear -IH Hnr. change (no_real x && forallb no_real l) with (forallb no_real (x :: l)) in Hnr.
      induction (x :: l) as [|y l' IHl]; [simpl; lia|].
      simpl in Hnr. apply andb_prop in Hnr as [Hy Hl].
      inversion IH as [|? ? Hy' Hl']; subst.
      specialize (IHl Hl' Hl). specialize (Hy' Hy). simpl in *. lia. }
    cbn [length] in *. lia.
  - destruct ms as [|m ms]; [simpl; lia|].
    cbn [JSON.stringify json_size]. cbn [length]. rewrite length_app. cbn [length].
    rewrite length_join_comma by discriminate. rewrite length_map.
    simpl in Hnr.
    assert (Hsum : (list_sum (map (fun m => S (json_size m.2)) (m :: ms))
                    <= list_sum (map (@length ascii)
                         (map (fun m => quote m.1 ++ ":"%char :: JSON.stringify m.2) (m :: ms)))
                       + length (m :: ms))%nat).
    { clear -IH Hnr.
      change (no_real m.2 && forallb (fun m => no_real m.2) ms)
        with (forallb (fun m => no_real m.2) (m :: ms)) in Hnr.
      induction (m :: ms) as [|y l' IHl]; [simpl; lia|].
      simpl in Hnr. apply andb_prop in Hnr as [Hy Hl].
      inversion IH as [|? ? Hy' Hl']; subst.
      specialize (IHl Hl' Hl). specialize (Hy' Hy). simpl in *.
      rewrite length_app. simpl. lia. }
    cbn [length] in *. lia.
Qed.

(** [JSON.parse(JSON.stringify(v))] gives [v] back. *)
Lemma JSON_parse_stringify v : no_real v = true -> JSON.parse (JSON.stringify v) = Some v.
Proof.
  intros Hnr. unfold JSON.parse.
  destruct (parse_roundtrip_fuel (2 * length (JSON.stringify v) + 2)) as (Hv & _).
  specialize (Hv v [] ltac:(pose proof (json_size_le_length v Hnr); lia) Hnr I).
  rewrite app_nil_r in Hv. rewrite Hv. reflexivity.
Qed.

(** A JSON text has no line feed: control characters are escaped. *)
Lemma quote_char_no_LF c : ~ In LF (quote_char c).
Proof.
  destruct c as [[] [] [] [] [] [] [] []]; vm_compute; intuition discriminate.
Qed.

Lemma quote_no_LF s : ~ In LF (quote s).
Proof.
  unfold quote. intros [H|H]; [discriminate|].
  apply in_app_or in H as [H|[H|[]]]; [|discriminate].
  unfold quote_body in H. apply in_flat_map in H as (c & _ & H).
  exact (quote_char_no_LF c H).
Qed.

Lemma is_digit_not_LF c : is_digit c = true -> c <> LF.
Proof. intros H ->. discriminate. Qed.

Lemma String_of_Z_no_LF z : ~ In LF (String_of_Z z).
Proof.
  assert (Hd : forall n, 0 <= n -> ~ In LF (digits n)).
  { intros n Hn Hin. destruct (digits_spec n Hn) as (c & ds & Heq & Hall & _).
    rewrite Heq in Hin. rewrite Forall_forall in Hall.
    apply list_elem_of_In in Hin. exact (is_digit_not_LF _ (Hall _ Hin) eq_refl). }
  unfold String_of_Z. destruct (z <? 0) eqn:E.
  - apply Z.ltb_lt in E. intros [H|H]; [discriminate|]. apply (Hd (- z)); [lia | exact H].
  - apply Z.ltb_ge in E. apply Hd. exact E.
Qed.

Lemma join_comma_no_LF parts :
  Forall (fun p => ~ In LF p) parts -> ~ In LF (join_comma parts).
Proof.
  induction parts as [|p [|q rest] IH]; intros H Hin.
  - destruct Hin.
  - exact (Forall_inv H Hin).
  - rewrite join_comma_cons2 in Hin. apply in_app_or in Hin as [Hin|[Hin|Hin]].
    + exact (Forall_inv H Hin).
    + discriminate.
    + exact (IH (Forall_inv_tail H) Hin).
Qed.

Lemma stringify_no_LF v : no_real v = true -> ~ In LF (JSON.stringify v).
Proof.
  induction v as [| [] | n | l | s | l IH | ms IH] using json_nested_ind;
    intros Hnr; try discriminate.
  - vm_compute. intuition discriminate.
  - vm_compute. intuition discriminate.
  - vm_compute. intuition discriminate.
  - apply String_of_Z_no_LF.
  - apply quote_no_LF.
  - cbn [JSON.stringify]. intros [H|H]; [discriminate|].
    apply in_app_or in H as [H|[H|[]]]; [|discriminate].
    revert H. apply join_comma_no_LF.
    simpl in Hnr. induction l as [|x l IHl]; [constructor|].
    simpl in Hnr. apply andb_prop in Hnr as [Hx Hl].
    simpl. constructor; [exact (Forall_inv IH Hx) | exact (IHl (Forall_inv_tail IH) Hl)].
  - cbn [JSON.stringify]. intros [H|H]; [discriminate|].
    apply in_app_or in H as [H|[H|[]]]; [|discriminate].
    revert H. apply join_comma_no_LF.
    simpl in Hnr. induction ms as [|[k x] ms IHl]; [constructor|].
    simpl in Hnr. apply andb_prop in Hnr as [Hx Hl].
    simpl. constructor; [|exact (IHl (Forall_inv_tail IH) Hl)].
    intros Hin. change (In LF (quote k ++ ":"%char :: JSON.stringify x)) in Hin.
    apply in_app_or in Hin as [Hin|[Hin|Hin]].
    + exact (quote_no_LF k Hin).
    + discriminate.
    + exact (Forall_inv IH Hx Hin).
Qed.

Lemma trimStart_ink s : has_ink (trimStart s) = has_ink s.
Proof.
  induction s as [|c s IH]; [reflexivity|]. simpl.
  destruct (is_js_ws c) eqn:E; simpl; [exact IH | rewrite E; reflexivity].
Qed.

Lemma has_ink_rev s : has_ink (rev s) = has_ink s.
Proof.
  unfold has_ink. induction s as [|c s IH]; [reflexivity|].
  simpl. rewrite existsb_app, IH. simpl. rewrite orb_false_r. apply orb_comm.
Qed.

Lemma trim_ink s : has_ink (trim s) = has_ink s.
Proof.
  unfold trim, trimEnd. rewrite has_ink_rev, trimStart_ink, has_ink_rev, trimStart_ink.
  reflexivity.
Qed.

Lemma ink_truthy s : has_ink s = true -> truthy_string s = true.
Proof. destruct s; [discriminate | reflexivity]. Qed.

Lemma trimStart_ink_head c s : is_js_ws c = false -> trimStart (c :: s) = c :: s.
Proof. intros H. simpl. rewrite H. reflexivity. Qed.

(** A text between two characters that are not white space is its own trim,
    also after a space. *)
Lemma trim_bracketed a body b :
  is_js_ws a = false -> is_js_ws b = false ->
  trim (" "%char :: a :: body ++ [b]) = a :: body ++ [b].
Proof.
  intros Ha Hb. unfold trim, trimEnd.
  assert (H1 : trimStart (" "%char :: a :: body ++ [b]) = (a :: body) ++ [b]).
  { simpl. rewrite Ha. reflexivity. }
  rewrite H1, rev_app_distr.
  assert (H2 : trimStart (rev [b] ++ rev (a :: body)) = rev [b] ++ rev (a :: body)).
  { simpl rev at 1. simpl app at 1. apply trimStart_ink_head. exact Hb. }
  rewrite H2, <- rev_app_distr, rev_involutive. reflexivity.
Qed.

Lemma cut_at_colon_app before after :
  ~ In ":"%char before ->
  cut_at_colon (before ++ ":"%char :: after) = Some (before, after).
Proof.
  induction before as [|c s IH]; intros H; [reflexivity|].
  simpl. destruct (Ascii.eqb_spec c ":"%char) as [->|Hc].
  - exfalso. apply H. left. reflexivity.
  - rewrite IH; [reflexivity|]. intros Hin. apply H. right. exact Hin.
Qed.

Lemma no_real_imap (f : nat -> StepResult -> json) l :
  (forall i x, no_real (f i x) = true) -> forallb no_real (imap f l) = true.
Proof.
  revert f. induction l as [|x l IH]; intros f Hf; [reflexivity|].
  simpl. rewrite Hf. apply IH. intros i y. apply Hf.
Qed.

Lemma no_real_formattedSteps l : no_real (JArr (formattedSteps l)) = true.
Proof.
  apply no_real_imap. intros i x. unfold formatStep, optional_member.
  destruct (sr_command x); reflexivity.
Qed.

Lemma logLine_eq r : logLine r = logLine_text r ++ [LF].
Proof.
  unfold logLine, logLine_text. rewrite <- app_assoc. reflexivity.
Qed.

Lemma logLine_text_no_LF r : ~ In LF (log_deployId r) -> ~ In LF (logLine_text r).
Proof.
  intros H Hin. unfold logLine_text in Hin.
  apply in_app_or in Hin as [Hin|[Hin|[Hin|Hin]]]; try discriminate.
  - exact (H Hin).
  - exact (stringify_no_LF _ (no_real_formattedSteps _) Hin).
Qed.

Lemma logLine_text_ink r : truthy_string (trim (logLine_text r)) = true.
Proof.
  apply ink_truthy. rewrite trim_ink. unfold logLine_text, has_ink.
  rewrite existsb_app. simpl. apply orb_true_r.
Qed.

Lemma parseLine_logLine_text r :
  ~ In ":"%char (log_deployId r) ->
  parseLine (logLine_text r)
  = LinePushed {| deployId := trim (log_deployId r);
                  steps := JArr (formattedSteps (log_steps r)) |}.
Proof.
  intros H. unfold parseLine, logLine_text. rewrite cut_at_colon_app by assumption.
  assert (Ht : trim (" "%char :: JSON.stringify (JArr (formattedSteps (log_steps r))))
               = JSON.stringify (JArr (formattedSteps (log_steps r)))).
  { cbn [JSON.stringify]. apply trim_bracketed; reflexivity. }
  rewrite Ht, JSON_parse_stringify by apply no_real_formattedSteps. reflexivity.
Qed.

Lemma log_lines_logLine r :
  ~ In LF (log_deployId r) -> log_lines (logLine r) = [logLine_text r].
Proof.
  intros H. unfold log_lines. rewrite logLine_eq.
  change (logLine_text r ++ [LF]) with (logLine_text r ++ LF :: []).
  rewrite split_lines_app, split_lines_no_LF by (apply logLine_text_no_LF; exact H).
  simpl split_lines. cbn [app].
  rewrite filter_cons, decide_True by apply logLine_text_ink.
  rewrite filter_cons, decide_False by (simpl; discriminate).
  reflexivity.
Qed.

Lemma includes_char s c : includes s [c] = false -> ~ In c s.
Proof.
  induction s as [|x s IH]; intros H Hin; [destruct Hin|].
  cbn [includes] in H. apply orb_false_elim in H as [H1 H2].
  destruct Hin as [->|Hin]; [|exact (IH H2 Hin)].
  unfold starts_with in H1. simpl in H1. rewrite bool_decide_eq_true_2 in H1 by reflexivity.
  discriminate.
Qed.

(** C3, as amended.  For a record whose [deployId] has no colon and no
    line feed, the line written by [saveLog] parses back to one entry, with
    the trimmed [deployId] and one object per step, in order.  The object of
    step number [i] (from 0) has the [name], [command], [status] and
    [duration] of the step result (no [command] when the result has none);
    its position is kept as [step = i] and there is no [order] field. *)
Theorem log_line_round_trip r env w :
  includes (log_deployId r) (str ":") = false ->
  includes (log_deployId r) [LF] = false ->
  parseLogFile (logLine r) env w
  = (Returned [{| deployId := trim (log_deployId r);
                  steps := JArr (formattedSteps (log_steps r)) |}], w)
  /\ forall i step,
      log_steps r !! i = Some step ->
      exists obj,
        formattedSteps (log_steps r) !! i = Some obj
        /\ js_get "step" obj = Some (JNum (Z.of_nat i))
        /\ js_get "name" obj = Some (JStr (sr_name step))
        /\ js_get "command" obj = JStr <$> sr_command step
        /\ js_get "status" obj = Some (JStr (StepStatus_string (sr_status step)))
        /\ js_get "duration" obj = Some (JNum (sr_duration step))
        /\ js_get "order" obj = None.
Proof.
  intros Hcolon Hlf. apply includes_char in Hcolon, Hlf. split.
  - rewrite parseLogFile_eq. unfold parsed. rewrite log_lines_logLine by assumption.
    simpl flat_map. unfold pushed, line_reports.
    rewrite parseLine_logLine_text by assumption. simpl. rewrite reported_nil. reflexivity.
  - intros i step Hi. exists (formatStep i step). split.
    + unfold formattedSteps. rewrite list_lookup_imap, Hi. reflexivity.
    + unfold formatStep, optional_member.
      destruct (sr_command step); repeat split; reflexivity.
Qed.

(** The example of the specification: [echo A], [exit 1], [echo B]. *)
Lemma deployApp_fail_fast_witness :
  (cfg_steps ex_config = [ex_step "echo A"] ++ ex_step "exit 1" :: [ex_step "echo B"]
   /\ steps_succeed ex_env ex_world ex_config 0 [ex_step "echo A"] = true
   /\ step_failure ex_env ex_world ex_config 1 (ex_step "exit 1")
      = Some (str "Command failed: exit 1")
   /\ truthy_string (str "Command failed: exit 1") = true)
  /\ exists r w',
      deployApp (str "web-prod-1") (str "web") (str "prod") ex_config ex_env ex_world
      = (Returned r, w')
      /\ length (log_steps r) = 2%nat
      /\ log_status r = Failed
      /\ log_error r = Some (str "Command failed: exit 1")
      /\ map ec_command (new_calls ex_world w') = [str "echo A"; str "exit 1"].
Proof.
  split; [repeat split|].
  destruct (deployApp_fail_fast ex_env ex_world (str "web-prod-1") (str "web") (str "prod")
              ex_config [ex_step "echo A"] (ex_step "exit 1") [ex_step "echo B"]
              (str "Command failed: exit 1") eq_refl eq_refl eq_refl eq_refl)
    as (r & w' & failed & Heq & Hcalls & Hlen & _ & _ & _ & Hst & Herr).
  exists r, w'. split; [exact Heq|]. split; [exact Hlen|]. split; [exact Hst|].
  split; [exact Herr|].
  vm_compute in Heq. injection Heq as <- <-. reflexivity.
Defined.

Lemma deployApp_all_succeed_witness :
  steps_succeed ex_env ex_world ex_config_ok 0 (cfg_steps ex_config_ok) = true
  /\ exists r w',
      deployApp (str "web-prod-1") (str "web") (str "prod") ex_config_ok ex_env ex_world
      = (Returned r, w')
      /\ log_status r = Success
      /\ length (log_steps r) = length (cfg_steps ex_config_ok).
Proof.
  split; [reflexivity|].
  apply (deployApp_all_succeed ex_env ex_world (str "web-prod-1") (str "web") (str "prod")
           ex_config_ok eq_refl).
Defined.

(** C2.  The code at a failing input: the second step of the example fails
    after printing 1001 characters on stdout and 501 on stderr.  Its step
    result is written with an [output] of 1001 characters and a [stderr] of
    501, and this is what is read back from the partition. *)
Theorem failed_step_output_not_truncated :
  exists r w' step,
    deployApp (str "web-prod-1") (str "web") (str "prod") ex_config ex_env ex_world
    = (Returned r, w')
    /\ log_steps r !! 1%nat = Some step
    /\ sr_status step = StepError
    /\ js_get "output" (formatStep 1 step) = Some (JStr (replicate 1001 "x"%char))
    /\ js_get "stderr" (formatStep 1 step) = Some (JStr (replicate 501 "e"%char))
    /\ (exists entry obj out err,
          logs_of w' (str "logs/20240101.txt") = parsed ex_partition ++ [entry]
          /\ steps entry = JArr [formatStep 0 (default step (log_steps r !! 0%nat)); obj]
          /\ js_get "output" obj = Some (JStr out) /\ length out = 1001%nat
          /\ js_get "stderr" obj = Some (JStr err) /\ length err = 501%nat).
Proof.
  eexists _, _, _. split; [vm_compute; reflexivity|].
  split; [reflexivity|]. split; [reflexivity|]. split; [reflexivity|]. split; [reflexivity|].
  eexists _, _, _, _. split; [vm_compute; reflexivity|].
  split; [reflexivity|]. repeat split; reflexivity.
Qed.

(** C3, counterexample.  A step with [order = 1] is written and parsed
    back: the parsed object has no [order], and its [step] is 0. *)
Lemma round_trip_loses_order :
  exists step obj,
    log_steps ex_record = [step]
    /\ sr_order step = 1
    /\ (parseLogFile (logLine ex_record) ex_env ex_world).1
       = Returned [{| deployId := log_deployId ex_record; steps := JArr [obj] |}]
    /\ js_get "order" obj = None
    /\ js_get "step" obj = Some (JNum 0).
Proof.
  eexists _, _. split; [reflexivity|]. split; [reflexivity|].
  split; [vm_compute; reflexivity|]. split; reflexivity.
Qed.

Lemma log_line_round_trip_witness :
  (includes (log_deployId ex_record) (str ":") = false
   /\ includes (log_deployId ex_record) [LF] = false)
  /\ parseLogFile (logLine ex_record) ex_env ex_world
     = (Returned [{| deployId := trim (log_deployId ex_record);
                     steps := JArr (formattedSteps (log_steps ex_record)) |}], ex_world).
Proof.
  split; [split; reflexivity|].
  exact (proj1 (log_line_round_trip ex_record ex_env ex_world eq_refl eq_refl)).
Defined.


(** The scenario of the specification: [limit=1] and three matching lines;
    the two lines that do not parse are skipped. *)
Lemma query_limit_one_of_three :
  (get_webhook_deploy_log (Some (str "1")) None None (Some (str "20240101"))
     ex_env ex_world).1
  = Returned {| statusCode := 200;
                payload := LogList [{| deployId := str "web-prod-1"; steps := JArr [] |}] 3
                             None None (Some (str "20240101")) |}.
Proof. vm_compute. reflexivity. Qed.

(** A deployId with a colon in it is cut too early: the line does not
    parse and the record is not found again. *)
Lemma round_trip_needs_plain_deployId :
  (parseLogFile (str "we:b-prod-1: []" ++ [LF]) ex_env ex_world).1 = Returned [].
Proof. vm_compute. reflexivity. Qed.

(** The failed step of the example: its child process runs between the
    readings 4 and 5 of the clock, one second apart, and the duration written
    is the five seconds since the first reading of the run. *)
Lemma failed_step_duration_example :
  exists r w' step call,
    deployApp (str "web-prod-1") (str "web") (str "prod") ex_config ex_env ex_world
    = (Returned r, w')
    /\ log_steps r !! 1%nat = Some step
    /\ new_calls ex_world w' !! 1%nat = Some call
    /\ ec_clock call = 5%nat
    /\ now ex_env 5 - now ex_env 4 = 1000
    /\ sr_duration step = 5000
    /\ sr_duration step = now ex_env 5 - now ex_env (clock ex_world).
Proof. eexists _, _, _, _. split; [vm_compute; reflexivity|]. repeat split. Qed.

(** What [saveLog] writes for a step. *)
Lemma formatStep_fields i step :
  js_get "output" (formatStep i step) = Some (JStr (persisted_output step))
  /\ js_get "stderr" (formatStep i step) = Some (JStr (persisted_stderr step))
  /\ js_get "error" (formatStep i step) = Some (JStr (or_empty (sr_error step))).
Proof.
  unfold formatStep, optional_member. destruct (sr_command step); repeat split; reflexivity.
Qed.

(** A run that meets a [null] step is an internal error: no child process
    starts, the run is recorded as failed and the slot is free again. *)
Lemma internal_error_run :
  exists r w',
    deployApp (str "web-prod-1") (str "web") (str "prod")
      {| cfg_path := str "/srv/app"; cfg_steps := [StepNull] |} ex_env ex_world
    = (Returned r, w')
    /\ log_status r = Failed
    /\ log_steps r = []
    /\ log_error r = Some TypeError_null_name
    /\ new_calls ex_world w' = []
    /\ running w' = ∅.
Proof. eexists _, _. split; [vm_compute; reflexivity|]. repeat split. Qed.

(** A run whose only step is the string [git pull]: [step.command] is
    [undefined] and [exec] throws at once.  No child process starts, the
    clock is read seven times, and the run is recorded as failed with one
    error result that has no command, no error, no stdout and no stderr; the
    error of the run is the message of [exec]. *)
Lemma string_step_run :
  exists r w' res,
    deployApp (str "web-prod-1") (str "web") (str "prod")
      {| cfg_path := str "/srv/app"; cfg_steps := [StepWithoutCommand None] |} ex_env ex_world
    = (Returned r, w')
    /\ clock w' = (clock ex_world + 7)%nat
    /\ new_calls ex_world w' = []
    /\ log_status r = Failed
    /\ log_steps r = [res]
    /\ sr_status res = StepError
    /\ sr_name res = str "Step 1"
    /\ sr_command res = None
    /\ sr_error res = None /\ sr_stdout res = None /\ sr_stderr res = None
    /\ sr_duration res = now ex_env 3 - now ex_env 0
    /\ log_error r = Some (ex_TypeError None)
    /\ running w' = ∅.
Proof. eexists _, _, _. split; [vm_compute; reflexivity|]. repeat split. Qed.

(** The same for an object step whose command is the empty string. *)
Lemma empty_command_run :
  exists r w' res,
    deployApp (str "web-prod-1") (str "web") (str "prod")
      {| cfg_path := str "/srv/app"; cfg_steps := [ex_step ""; ex_step "echo B"] |}
      ex_env ex_world
    = (Returned r, w')
    /\ clock w' = (clock ex_world + 7)%nat
    /\ new_calls ex_world w' = []
    /\ log_status r = Failed
    /\ log_steps r = [res]
    /\ sr_status res = StepError
    /\ sr_command res = Some []
    /\ sr_error res = None
    /\ log_error r = Some (ex_TypeError (Some [])).
Proof. eexists _, _, _. split; [vm_compute; reflexivity|]. repeat split. Qed.

(** ** More on runs: what the record holds *)

Lemma replace_backslashes_spec s :
  ~ In backslash (replace_backslashes s)
  /\ length (replace_backslashes s) = length s.
Proof.
  unfold replace_backslashes. split; [|apply length_map].
  intros Hin. apply in_map_iff in Hin as (c & Hc & _).
  destruct (Ascii.eqb_spec c backslash) as [E|Hne]; [discriminate | congruence].
Qed.

Lemma exec_options_spec w config : options_of w config (exec_options (shellPath w) (cfg_path config)).
Proof.
  unfold options_of, exec_options. simpl. split; [reflexivity|]. split; [reflexivity|].
  destruct (shellPath w) as [[|c sp]|]; simpl; try reflexivity.
  exists (c :: sp). split; [reflexivity|]. split; [discriminate|]. split; [reflexivity|].
  apply (replace_backslashes_spec (c :: sp)).
Qed.

(** X1.  The step results of a run follow the definition.  There are at most
    as many results as the definition has steps.  Result number [k] (from 0)
    belongs to step number [k], which is not [null]: it carries the order
    [k + 1], the name [step.name || `Step ${k + 1}`] and the command of that
    step, or none when the step has none; and every result but the last is
    a success.  Each child process belongs to a result: process number [k]
    runs the command of step [k], an object whose command is not empty; only
    the last result can be without a process.  Every step that is reached,
    the steps before it having succeeded, has a result unless it is
    [null]. *)
Theorem deployApp_results_follow_definition env w deployId appName en config :
  exists r w',
    deployApp deployId appName en config env w = (Returned r, w')
    /\ (length (log_steps r) <= length (cfg_steps config))%nat
    /\ (length (new_calls w w') <= length (log_steps r) <= S (length (new_calls w w')))%nat
    /\ (forall k res,
          log_steps r !! k = Some res ->
          exists step, cfg_steps config !! k = Some step /\ step <> StepNull
                       /\ sr_order res = Z.of_nat k + 1
                       /\ sr_name res = stepName k step
                       /\ sr_command res = command_of step
                       /\ (S k < length (log_steps r) -> sr_status res = StepSuccess)%nat)
    /\ (forall k call,
          new_calls w w' !! k = Some call ->
          exists s, cfg_steps config !! k = Some (StepObject s)
                    /\ step_command s <> []
                    /\ ec_command call = step_command s)
    /\ (forall pre step post,
          cfg_steps config = pre ++ step :: post ->
          steps_succeed env w config 0 pre = true ->
          step <> StepNull ->
          (length pre < length (log_steps r))%nat).
Proof.
  destruct (deployApp_anatomy env w deployId appName en config)
    as (out & calls & results & reports & Hd & Hcalls & _ & _ & Hlen & Hle & _ & Hres & _
        & Hex & _).
  eexists _, _. split; [exact Hd|]. rewrite Hcalls, finish_log_steps.
  cbn [log_steps push_steps init_log app].
  split; [exact Hle|]. split; [exact Hlen|]. split; [|split].
  3:{ intros pre step post Hsteps Hpre Hnull.
      apply (Hex (length pre) step); [|exact Hnull|].
      - rewrite Hsteps. apply list_lookup_middle. reflexivity.
      - rewrite Hsteps, take_app_length. exact Hpre. }
  - intros k res Hk.
    destruct (Hres k res Hk) as (step & H1 & H2 & H3 & H4 & H5 & _ & H7 & _).
    exists step. repeat split; assumption.
  - intros k call Hk.
    assert (Hlt : (k < length results)%nat).
    { apply lookup_lt_Some in Hk. lia. }
    destruct (lookup_lt_is_Some_2 results k Hlt) as [res Hr].
    destruct (Hres k res Hr) as (step & H1 & _ & _ & _ & _ & _ & _ & Hcall).
    rewrite Hk in Hcall. destruct Hcall as (s & -> & Hne & Hec & _).
    exists s. repeat split; assumption.
Qed.

(** X2.  Each step result of a run reports what became of its step.  When
    the step has a command that is not empty, the command is executed and
    the result reports that child process: when the process ends without an
    error the result is a success with exactly the last 1000 code units of
    its stdout as [output] and the last 500 of its stderr as [stderr]; when
    it fails the result is an error with the message, the whole stdout and
    the whole stderr of the process.  When the step has no command, or an
    empty one, no process is started: the result is an error without
    message, stdout or stderr, and the [error] of the run is the message of
    the [TypeError] that [exec] throws. *)
Theorem deployApp_results_report_processes env w deployId appName en config :
  exists r w',
    deployApp deployId appName en config env w = (Returned r, w')
    /\ forall k res,
         log_steps r !! k = Some res ->
         exists step,
           cfg_steps config !! k = Some step
           /\ (starts_process step = true ->
               exists s call,
                 step = StepObject s
                 /\ new_calls w w' !! k = Some call
                 /\ ec_command call = step_command s
                 /\ reports_callback (step_callback env w config k s) res)
           /\ (starts_process step = false ->
               new_calls w w' !! k = None
               /\ sr_status res = StepError
               /\ sr_error res = None /\ sr_stderr res = None
               /\ sr_stdout res = None /\ sr_output res = None
               /\ log_status r = Failed
               /\ log_error r = Some (exec_TypeError env (command_of step))).
Proof.
  destruct (deployApp_anatomy env w deployId appName en config)
    as (out & calls & results & reports & Hd & Hcalls & _ & _ & _ & _ & _ & Hres & _ & _ & Herr).
  eexists _, _. split; [exact Hd|]. rewrite Hcalls, finish_log_steps.
  cbn [log_steps push_steps init_log app]. intros k res Hk.
  destruct (Hres k res Hk) as (step & H1 & _ & _ & _ & _ & _ & _ & Hcall).
  exists step. split; [exact H1|].
  destruct (calls !! k) as [call|] eqn:Ec.
  - destruct Hcall as (s & -> & Hne & Hec & _ & Hrep). split.
    + intros _. exists s, call. repeat split; assumption.
    + unfold starts_process. cbn [command_of truthy].
      destruct (step_command s); [congruence | discriminate].
  - destruct Hcall as (Hsp & Hst & He & Hse & Hso & Hout). split.
    + rewrite Hsp. discriminate.
    + intros _. split; [reflexivity|].
      assert (Hlt : (k < length results)%nat) by (apply lookup_lt_Some in Hk; exact Hk).
      rewrite (Herr k step Hlt H1 Hsp). repeat split; assumption.
Qed.

(** X3.  The status of a run is decided by the steps alone: the record has
    status [Success] exactly when every step of the definition is an object
    whose command ends without an error, and [Failed] otherwise; it is never
    left in progress.  A successful run has no [error]. *)
Theorem deployApp_status env w deployId appName en config :
  exists r w',
    deployApp deployId appName en config env w = (Returned r, w')
    /\ log_status r = (if steps_succeed env w config 0 (cfg_steps config)
                       then Success else Failed)
    /\ (log_status r = Success -> log_error r = None).
Proof.
  destruct (deployApp_anatomy env w deployId appName en config)
    as (out & calls & results & reports & Hd & _ & _ & _ & _ & _ & _ & _ & Hout & _).
  eexists _, _. split; [exact Hd|].
  destruct out as [[]|e]; simpl.
  - rewrite (proj1 Hout eq_refl). split; [reflexivity|]. reflexivity.
  - destruct (steps_succeed env w config 0 (cfg_steps config)).
    + destruct Hout as [_ Hout]. specialize (Hout eq_refl). discriminate.
    + split; [reflexivity | discriminate].
Qed.

(** X4.  The record of a run carries the [deployId], app, env and path it
    was started with.  A run takes two readings of the clock per step
    result and five more: [startTime] is the second one, the duration is
    the reading taken after the loop minus the first reading, and [endTime]
    is the reading after that, the one before [saveLog] names the
    partition. *)
Theorem deployApp_record_fields env w deployId appName en config :
  exists r w',
    deployApp deployId appName en config env w = (Returned r, w')
    /\ log_deployId r = deployId /\ log_app r = appName /\ log_env r = en
    /\ log_path r = cfg_path config
    /\ log_startTime r = now env (S (clock w))
    /\ (let n := length (log_steps r) in
        clock w' = (clock w + 2 * n + 5)%nat
        /\ log_duration r = Some (now env (clock w + 2 * n + 2)%nat - now env (clock w))
        /\ log_endTime r = Some (now env (clock w + 2 * n + 3)%nat)).
Proof.
  destruct (deployApp_anatomy env w deployId appName en config)
    as (out & calls & results & reports & Hd & Hcalls & Hclock & _).
  eexists _, _. split; [exact Hd|]. rewrite Hclock, finish_log_steps.
  cbn [log_steps push_steps init_log app].
  assert (H2 : clock (advance (loop_world (running_key appName en) w)
                        (2 * length results) calls reports)
               = (clock w + 2 * length results + 2)%nat).
  { simpl. lia. }
  rewrite H2.
  replace (S (clock w + 2 * length results + 2))
    with (clock w + 2 * length results + 3)%nat by lia.
  destruct out; repeat split; reflexivity.
Qed.

(** X5.  Every child process of a run is started in the working directory of
    the definition with a timeout of 300000 ms.  Its shell is the configured
    [shellPath] with every backslash replaced by a slash, and it has no
    [shell] option when [shellPath] is missing or empty. *)
Theorem deployApp_exec_options env w deployId appName en config :
  exists r w',
    deployApp deployId appName en config env w = (Returned r, w')
    /\ Forall (fun call => options_of w config (ec_options call)) (new_calls w w').
Proof.
  destruct (deployApp_anatomy env w deployId appName en config)
    as (out & calls & results & reports & Hd & Hcalls & _ & _ & _ & _ & Hopt & _).
  eexists _, _. split; [exact Hd|]. rewrite Hcalls.
  eapply Forall_impl; [exact Hopt|].
  intros call [-> _]. apply exec_options_spec.
Qed.

(** X6.  A [null] entry among the steps is an internal error, not a crash.
    When the steps before it succeed, the run starts their child processes
    and no other, records one successful result for each of them, ends with
    status [Failed] and the message of the [TypeError] as [error], and frees
    its slot. *)
Theorem deployApp_null_step env w deployId appName en config pre post :
  cfg_steps config = pre ++ StepNull :: post ->
  steps_succeed env w config 0 pre = true ->
  exists r w',
    deployApp deployId appName en config env w = (Returned r, w')
    /\ Forall2 runs_step (new_calls w w') pre
    /\ length (log_steps r) = length pre
    /\ Forall (fun res => sr_status res = StepSuccess) (log_steps r)
    /\ log_status r = Failed
    /\ log_error r = Some TypeError_null_name
    /\ running_key appName en ∉ running w'.
Proof.
  intros Hsteps Hok.
  set (key := running_key appName en).
  set (l0 := init_log deployId appName en config (now env (S (clock w)))).
  destruct (for_steps_success_prefix env deployId config (now env (clock w)) w
              pre 0 0 (loop_world key w) l0 (StepNull :: post) Hok)
    as (calls & results & Heq & H1 & H2 & H3 & H4).
  { simpl. lia. }
  { reflexivity. }
  rewrite for_steps_cons, run_step_null in Heq. rewrite <- Hsteps in Heq.
  destruct (deployApp_unfold env w deployId appName en config _ _ _ Heq) as [Hd _].
  rewrite Hd. clear Hd Heq.
  eexists _, _. split; [reflexivity|].
  match goal with
  | |- context [saveLog ?l env ?w3] => destruct (saveLog_frame l env w3) as (Hr & Ht & _)
  end.
  split.
  { unfold new_calls. rewrite Ht. simpl.
    rewrite ?app_nil_r, <- ?app_assoc, drop_app_length. exact H4. }
  rewrite Hr. simpl.
  split; [exact H2|]. split; [exact H3|]. split; [reflexivity|]. split; [reflexivity|].
  intros [_ Hn]%elem_of_difference. apply Hn, elem_of_singleton. reflexivity.
Qed.

Lemma deployApp_null_step_witness :
  (cfg_steps {| cfg_path := str "/srv/app";
                cfg_steps := [ex_step "echo A"; StepNull; ex_step "echo B"] |}
   = [ex_step "echo A"] ++ StepNull :: [ex_step "echo B"]
   /\ steps_succeed ex_env ex_world
        {| cfg_path := str "/srv/app";
           cfg_steps := [ex_step "echo A"; StepNull; ex_step "echo B"] |} 0
        [ex_step "echo A"] = true)
  /\ exists r w',
      deployApp (str "web-prod-1") (str "web") (str "prod")
        {| cfg_path := str "/srv/app";
           cfg_steps := [ex_step "echo A"; StepNull; ex_step "echo B"] |} ex_env ex_world
      = (Returned r, w')
      /\ length (log_steps r) = 1%nat
      /\ log_status r = Failed
      /\ log_error r = Some TypeError_null_name.
Proof.
  split; [split; reflexivity|].
  destruct (deployApp_null_step ex_env ex_world (str "web-prod-1") (str "web") (str "prod")
              {| cfg_path := str "/srv/app";
                 cfg_steps := [ex_step "echo A"; StepNull; ex_step "echo B"] |}
              [ex_step "echo A"] [ex_step "echo B"] eq_refl eq_refl)
    as (r & w' & Heq & _ & Hlen & _ & Hst & Herr & _).
  exists r, w'. repeat split; assumption.
Defined.

(** ** The trigger: [POST /webhook/deploy] *)

Lemma only_observes_refl w : only_observes w w.
Proof. repeat split. Qed.

Lemma only_observes_trans w1 w2 w3 :
  only_observes w1 w2 -> only_observes w2 w3 -> only_observes w1 w3.
Proof.
  intros (A1 & B1 & C1 & D1 & E1 & F1) (A2 & B2 & C2 & D2 & E2 & F2).
  repeat split; congruence.
Qed.

Lemma only_observes_tick w reports :
  only_observes w (reported reports (set_clock (S (clock w)) w)).
Proof. repeat split. Qed.

Lemma only_observes_reported w reports : only_observes w (reported reports w).
Proof. repeat split. Qed.

Lemma set_clock_twice c1 c2 w : set_clock c2 (set_clock c1 w) = set_clock c2 w.
Proof. reflexivity. Qed.

(** How [trigger_inherited] ends. *)
Lemma trigger_inherited_eq appName en env w :
  trigger_inherited appName en env w
  = (Returned {| statusCode := 400; payload := DeploymentAlreadyRunning |}, w)
  \/ trigger_inherited appName en env w
     = (Thrown (JsError TypeError_undefined_length), set_clock (S (clock w)) w).
Proof.
  unfold trigger_inherited. cbv [mbind M_bind mret M_ret gets running.has Date.now throw].
  destruct (bool_decide (running_key appName en ∈ running w)); [left | right]; reflexivity.
Qed.

(** The ways in which [POST /webhook/deploy] ends: a trigger that is not
    accepted is answered 400 and changes nothing, or the handler throws
    for a name that is inherited, after at most one reading of the clock;
    a trigger that is accepted starts a run. *)
Lemma post_webhook_deploy_eq body_app body_env env w :
  (~ accepts w body_app body_env
   /\ exists out w',
       post_webhook_deploy body_app body_env env w = (out, w')
       /\ (w' = w \/ w' = set_clock (S (clock w)) w)
       /\ (forall res, out = Returned res -> statusCode res = 400 /\ w' = w)
       /\ (forall err, out = Thrown err ->
             exists appName en,
               body_app = Some appName /\ body_env = Some en
               /\ (inherited_name appName = true \/ inherited_name en = true)))
  \/ (exists appName en envs config,
        body_app = Some appName /\ body_env = Some en
        /\ appName <> [] /\ en <> []
        /\ APPS w !! appName = Some envs /\ envs !! en = Some config
        /\ (running_key appName en ∉ running w)
        /\ (let deployId :=
              appName ++ "-"%char :: en ++ "-"%char :: String_of_Z (now env (clock w)) in
            post_webhook_deploy body_app body_env env w
            = (Returned {| statusCode := 200;
                           payload := DeploymentStarted deployId appName en
                                        (length (cfg_steps config)) (now env (S (clock w))) |},
               (deployApp deployId appName en config env (set_clock (S (S (clock w))) w)).2))).
Proof.
  assert (Hplain : forall p,
             exists out w',
               (Returned {| statusCode := 400; payload := p |}, w) = (out, w')
               /\ (w' = w \/ w' = set_clock (S (clock w)) w)
               /\ (forall res, out = Returned res -> statusCode res = 400 /\ w' = w)
               /\ (forall err, out = Thrown err ->
                     exists appName en,
                       body_app = Some appName /\ body_env = Some en
                       /\ (inherited_name appName = true \/ inherited_name en = true))).
  { intros p. eexists _, _. split; [reflexivity|]. split; [left; reflexivity|].
    split; [intros res [= <-]; split; reflexivity | discriminate]. }
  assert (Hinh : forall appName en,
             body_app = Some appName -> body_env = Some en ->
             inherited_name appName = true \/ inherited_name en = true ->
             exists out w',
               trigger_inherited appName en env w = (out, w')
               /\ (w' = w \/ w' = set_clock (S (clock w)) w)
               /\ (forall res, out = Returned res -> statusCode res = 400 /\ w' = w)
               /\ (forall err, out = Thrown err ->
                     exists appName en,
                       body_app = Some appName /\ body_env = Some en
                       /\ (inherited_name appName = true \/ inherited_name en = true))).
  { intros appName en Ha He Hn.
    destruct (trigger_inherited_eq appName en env w) as [->| ->].
    - eexists _, _. split; [reflexivity|]. split; [left; reflexivity|].
      split; [intros res [= <-]; split; reflexivity | discriminate].
    - eexists _, _. split; [reflexivity|]. split; [right; reflexivity|].
      split; [discriminate|]. intros err _. exists appName, en. repeat split; assumption. }
  unfold post_webhook_deploy, accepts.
  destruct body_app as [[|a appName]|], body_env as [[|e en]|]; simpl;
    try (left; split; [intros (? & ? & ? & ? & ? & ? & ? & ? & _); congruence
                      | apply Hplain]).
  cbv [mbind M_bind mret M_ret gets running.has].
  destruct (APPS w !! (a :: appName)) as [envs|] eqn:Hap.
  2:{ left. split.
      { intros (? & ? & ? & ? & ? & ? & ? & ? & ? & _). congruence. }
      destruct (inherited_name (a :: appName)) eqn:Hn; [|apply Hplain].
      unfold inherited_member.
      destruct (inherited_truthy env (a :: appName) (e :: en)) as [[|]|err].
      - apply (Hinh (a :: appName) (e :: en)); [reflexivity | reflexivity | left; exact Hn].
      - apply Hplain.
      - eexists _, _. split; [reflexivity|]. split; [left; reflexivity|].
        split; [discriminate|]. intros err' _. exists (a :: appName), (e :: en).
        split; [reflexivity|]. split; [reflexivity|]. left. exact Hn. }
  destruct (envs !! (e :: en)) as [config|] eqn:Hen.
  2:{ left. split.
      { intros (? & ? & ? & ? & ? & ? & ? & ? & ? & ? & _). congruence. }
      destruct (inherited_name (e :: en)) eqn:Hn; [|apply Hplain].
      apply (Hinh (a :: appName) (e :: en)); [reflexivity | reflexivity | right; exact Hn]. }
  destruct (bool_decide (running_key (a :: appName) (e :: en) ∈ running w)) eqn:Hbusy.
  { left. split; [|apply Hplain].
    intros (? & ? & ? & ? & ? & ? & ? & ? & ? & ? & Hfree).
    apply bool_decide_eq_true in Hbusy. simplify_eq; contradiction. }
  right. apply bool_decide_eq_false in Hbusy.
  exists (a :: appName), (e :: en), envs, config.
  split; [reflexivity|]. split; [reflexivity|]. split; [discriminate|]. split; [discriminate|].
  split; [exact Hap|]. split; [exact Hen|]. split; [exact Hbusy|].
  cbv [Date.now new_Date_toISOString spawn]. reflexivity.
Qed.


(** The trigger for [app = constructor] and [env = name]: no app is
    configured under that name, but [APPS.constructor] is the function
    [Object] and its [name] is a string that is not empty.  Both checks
    pass, [Date.now()] is read for the id and [config.steps.length] throws.
    For [env = length] of [toString], which is 0, the answer is 400. *)
Lemma trigger_inherited_names :
  APPS ex_world !! str "constructor" = None
  /\ post_webhook_deploy (Some (str "constructor")) (Some (str "name")) ex_env ex_world
     = (Thrown (JsError TypeError_undefined_length), set_clock 1 ex_world)
  /\ post_webhook_deploy (Some (str "toString")) (Some (str "length")) ex_env ex_world
     = (Returned {| statusCode := 400; payload := EnvironmentNotFound ∅ |}, ex_world)
  /\ post_webhook_deploy (Some (str "a")) (Some (str "toString")) ex_env ex_world
     = (Thrown (JsError TypeError_undefined_length), set_clock 1 ex_world).
Proof. repeat split; vm_compute; reflexivity. Qed.

(** X8.  An accepted trigger answers with the id
    [app ++ "-" ++ env ++ "-" ++ Date.now()], the number of steps of the
    definition and the next reading of the clock, and starts [deployApp]
    with that id and that definition.  When the run is over the [running]
    set and [APPS] are as they were. *)
Theorem post_webhook_deploy_starts_run appName en envs config env w :
  truthy_string appName = true -> truthy_string en = true ->
  APPS w !! appName = Some envs -> envs !! en = Some config ->
  running_key appName en ∉ running w ->
  let deployId := appName ++ "-"%char :: en ++ "-"%char :: String_of_Z (now env (clock w)) in
  exists r w',
    deployApp deployId appName en config env (set_clock (S (S (clock w))) w) = (Returned r, w')
    /\ post_webhook_deploy (Some appName) (Some en) env w
       = (Returned {| statusCode := 200;
                      payload := DeploymentStarted deployId appName en
                                   (length (cfg_steps config)) (now env (S (clock w))) |}, w')
    /\ log_deployId r = deployId
    /\ running w' = running w
    /\ APPS w' = APPS w.
Proof.
  intros Ha He Hap Hen Hfree deployId.
  set (run := deployApp deployId appName en config env (set_clock (S (S (clock w))) w)).
  assert (Hrun : exists r, run.1 = Returned r /\ log_deployId r = deployId
                           /\ running run.2 = running w ∖ {[running_key appName en]}
                           /\ APPS run.2 = APPS w).
  { destruct (deployApp_anatomy env (set_clock (S (S (clock w))) w) deployId appName en config)
      as (out & calls & results & reports & Hd & _ & _ & (HA & _ & HR & _) & _).
    subst run. rewrite Hd. eexists. split; [reflexivity|].
    split; [destruct out; reflexivity|]. split; [exact HR | exact HA]. }
  destruct Hrun as (r & H1 & Hid & HR & HA).
  exists r, run.2. split; [rewrite <- H1; apply surjective_pairing|].
  split.
  { destruct (post_webhook_deploy_eq (Some appName) (Some en) env w)
      as [[Hno _]|(a' & e' & envs' & config' & Ha' & He' & _ & _ & Hap' & Hen' & _ & Heq)].
    - exfalso. apply Hno. exists appName, en, envs, config.
      repeat split; try assumption; intros ->; discriminate.
    - simplify_eq. exact Heq. }
  split; [exact Hid|].
  split.
  - rewrite HR. apply set_eq. intros x.
    rewrite elem_of_difference, elem_of_singleton. split; [tauto|].
    intros Hx. split; [exact Hx|]. intros ->. contradiction.
  - exact HA.
Qed.

Lemma post_webhook_deploy_starts_run_witness :
  (truthy_string (str "a-b") = true /\ truthy_string (str "c") = true
   /\ APPS ex_world !! str "a-b" = Some {[ str "c" := ex_config_ok ]}
   /\ ({[ str "c" := ex_config_ok ]} : gmap jstring EnvConfig) !! str "c" = Some ex_config_ok
   /\ running_key (str "a-b") (str "c") ∉ running ex_world)
  /\ exists w',
      post_webhook_deploy (Some (str "a-b")) (Some (str "c")) ex_env ex_world
      = (Returned {| statusCode := 200;
                     payload := DeploymentStarted (str "a-b-c-1704067200000") (str "a-b")
                                  (str "c") 2 1704067201000 |}, w')
      /\ running w' = running ex_world.
Proof.
  assert (Hfree : running_key (str "a-b") (str "c") ∉ running ex_world).
  { apply (bool_decide_unpack _). vm_compute. exact I. }
  split; [repeat split; try reflexivity; exact Hfree|].
  destruct (post_webhook_deploy_starts_run (str "a-b") (str "c") {[ str "c" := ex_config_ok ]}
              ex_config_ok ex_env ex_world eq_refl eq_refl eq_refl eq_refl Hfree)
    as (r & w' & _ & Hpost & _ & Hrun & _).
  exists w'. split; [exact Hpost | exact Hrun].
Defined.

(** C10.  The slot of a run is the string [appName ++ "-" ++ env], not the
    pair.  While a child process of a run for [(a1, e1)] is running, the
    [running] set holds that string on top of what it held before.  A
    trigger for a configured pair [(a2, e2)] that arrives then is answered
    400 "Deployment already running" when [a2 ++ "-" ++ e2] is that same
    string, also when the pairs differ; it is accepted when its string is
    another one and was free before.  A run whose first step has a command
    has such a child process, and afterwards the string is removed from the
    set. *)
Theorem slot_is_the_joined_string env w deployId a1 e1 a2 e2 config envs config2 :
  truthy_string a2 = true -> truthy_string e2 = true ->
  APPS w !! a2 = Some envs -> envs !! e2 = Some config2 ->
  exists r w',
    deployApp deployId a1 e1 config env w = (Returned r, w')
    /\ (forall s rest,
          cfg_steps config = StepObject s :: rest -> step_command s <> [] ->
          new_calls w w' <> [])
    /\ Forall (fun call =>
         ec_running call = {[ a1 ++ str "-" ++ e1 ]} ∪ running w
         /\ forall env2 w2,
              APPS w2 = APPS w -> running w2 = ec_running call ->
              (a2 ++ str "-" ++ e2 = a1 ++ str "-" ++ e1 ->
               post_webhook_deploy (Some a2) (Some e2) env2 w2
               = (Returned {| statusCode := 400; payload := DeploymentAlreadyRunning |}, w2))
              /\ (a2 ++ str "-" ++ e2 <> a1 ++ str "-" ++ e1 ->
                  a2 ++ str "-" ++ e2 ∉ running w ->
                  exists res w2',
                    post_webhook_deploy (Some a2) (Some e2) env2 w2 = (Returned res, w2')
                    /\ statusCode res = 200))
         (new_calls w w')
    /\ running w' = running w ∖ {[ a1 ++ str "-" ++ e1 ]}.
Proof.
  intros Ha He Hap Hen.
  change (a1 ++ str "-" ++ e1) with (running_key a1 e1).
  change (a2 ++ str "-" ++ e2) with (running_key a2 e2).
  destruct (deployApp_anatomy env w deployId a1 e1 config)
    as (out & calls & results & reports & Hd & Hcalls & _ & (_ & _ & Hrun & _) & _ & _ & Hall
        & Hres & _ & Hex & _).
  eexists _, _. split; [exact Hd|]. rewrite Hcalls. split; [|split; [|exact Hrun]].
  - intros s rest Hsteps Hcmd ->.
    assert (H0 : cfg_steps config !! 0%nat = Some (StepObject s)) by (rewrite Hsteps; reflexivity).
    assert (Hlt : (0 < length results)%nat).
    { apply (Hex 0%nat (StepObject s) H0); [discriminate | reflexivity]. }
    destruct (lookup_lt_is_Some_2 results 0 Hlt) as [res Hr].
    destruct (Hres 0%nat res Hr) as (step & Hk & _ & _ & _ & _ & _ & _ & Hcall).
    rewrite H0 in Hk. injection Hk as <-. cbn [lookup list_lookup] in Hcall.
    destruct Hcall as (Hsp & _). unfold starts_process in Hsp. cbn [command_of truthy] in Hsp.
    destruct (step_command s); [congruence | discriminate].
  - eapply Forall_impl; [exact Hall|].
    intros call [_ Hc]. split; [exact Hc|]. intros env2 w2 HA HR. split.
    + intros Hkey. unfold post_webhook_deploy.
      destruct a2 as [|x a2]; [discriminate|]. destruct e2 as [|y e2]; [discriminate|].
      simpl. cbv [mbind M_bind mret M_ret gets running.has]. rewrite HA, Hap, Hen.
      rewrite bool_decide_eq_true_2; [reflexivity|].
      rewrite HR, Hc. apply elem_of_union_l, elem_of_singleton. exact Hkey.
    + intros Hkey Hfree.
      destruct (post_webhook_deploy_eq (Some a2) (Some e2) env2 w2)
        as [[Hno _]|(a' & e' & envs' & config' & Ha' & He' & _ & _ & _ & _ & _ & Heq)].
      * exfalso. apply Hno. exists a2, e2, envs, config2.
        split; [reflexivity|]. split; [reflexivity|].
        split; [intros ->; discriminate|]. split; [intros ->; discriminate|].
        rewrite HA. split; [exact Hap|]. split; [exact Hen|].
        rewrite HR, Hc. intros [Hin|Hin]%elem_of_union; [|exact (Hfree Hin)].
        apply elem_of_singleton in Hin. exact (Hkey Hin).
      * eexists _, _. split; [exact Heq | reflexivity].
Qed.

Lemma slot_is_the_joined_string_witness :
  (truthy_string (str "a-b") = true /\ truthy_string (str "c") = true
   /\ APPS ex_world !! str "a-b" = Some {[ str "c" := ex_config_ok ]}
   /\ ({[ str "c" := ex_config_ok ]} : gmap jstring EnvConfig) !! str "c" = Some ex_config_ok)
  /\ (str "a", str "b-c") <> (str "a-b", str "c")
  /\ str "a-b" ++ str "-" ++ str "c" = str "a" ++ str "-" ++ str "b-c"
  /\ exists r w',
      deployApp (str "a-b-c-1") (str "a") (str "b-c") ex_config ex_env ex_world
      = (Returned r, w')
      /\ length (new_calls ex_world w') = 2%nat
      /\ Forall (fun call =>
           ec_running call = {[ str "a-b-c" ]}
           /\ post_webhook_deploy (Some (str "a-b")) (Some (str "c")) ex_env
                (set_running (ec_running call) ex_world)
              = (Returned {| statusCode := 400; payload := DeploymentAlreadyRunning |},
                 set_running (ec_running call) ex_world))
           (new_calls ex_world w').
Proof.
  split; [repeat split; reflexivity|]. split; [discriminate|]. split; [reflexivity|].
  destruct (slot_is_the_joined_string ex_env ex_world (str "a-b-c-1")
              (str "a") (str "b-c") (str "a-b") (str "c") ex_config
              {[ str "c" := ex_config_ok ]} ex_config_ok
              eq_refl eq_refl eq_refl eq_refl)
    as (r & w' & Heq & _ & Hall & _).
  exists r, w'. split; [exact Heq|]. split.
  - vm_compute in Heq. injection Heq as <- <-. reflexivity.
  - eapply Forall_impl; [exact Hall|]. intros call [Hc H]. split.
    + rewrite Hc. change (running ex_world) with (∅ : gset jstring).
      rewrite (right_id_L ∅ (∪)). reflexivity.
    + apply H; reflexivity.
Defined.

(** ** The ids of the store and the search by id on any day *)

(** *** [trim] *)

Lemma trimStart_head s :
  match trimStart s with [] => True | c :: _ => is_js_ws c = false end.
Proof.
  induction s as [|c s IH]; [exact I|]. simpl.
  destruct (is_js_ws c) eqn:E; [exact IH | exact E].
Qed.

Lemma trimStart_fixed s :
  match s with [] => True | c :: _ => is_js_ws c = false end -> trimStart s = s.
Proof. destruct s as [|c s]; [reflexivity|]. simpl. intros ->. reflexivity. Qed.

Lemma trimStart_suffix s : exists p, s = p ++ trimStart s.
Proof.
  induction s as [|c s [p IH]]; [exists []; reflexivity|]. simpl.
  destruct (is_js_ws c); [|exists []; reflexivity].
  exists (c :: p). simpl. rewrite <- IH. reflexivity.
Qed.

Lemma trim_sub s : exists p q, s = p ++ trim s ++ q.
Proof.
  unfold trim, trimEnd.
  destruct (trimStart_suffix s) as [p Hp].
  destruct (trimStart_suffix (rev (trimStart s))) as [q Hq].
  exists p, (rev q).
  rewrite <- rev_app_distr, <- Hq, rev_involutive. exact Hp.
Qed.

Lemma trim_In c s : In c (trim s) -> In c s.
Proof.
  intros H. destruct (trim_sub s) as (p & q & Hs). rewrite Hs.
  apply in_or_app. right. apply in_or_app. left. exact H.
Qed.

Lemma trim_trim s : trim (trim s) = trim s.
Proof.
  unfold trim at 2. unfold trimEnd.
  set (a := trimStart s). set (b := trimStart (rev a)).
  assert (Hb : trimStart b = b) by (apply trimStart_fixed, trimStart_head).
  assert (Hrb : trimStart (rev b) = rev b).
  { apply trimStart_fixed.
    destruct (rev b) as [|x rb] eqn:E; [exact I|].
    destruct (trimStart_suffix (rev a)) as [p Hp]. fold b in Hp.
    assert (Ha : a = x :: rb ++ rev p).
    { rewrite <- (rev_involutive a), Hp, rev_app_distr, E. reflexivity. }
    pose proof (trimStart_head s) as Hh. fold a in Hh. rewrite Ha in Hh. exact Hh. }
  unfold trim, trimEnd. rewrite Hrb, rev_involutive, Hb. reflexivity.
Qed.

(** *** The ids that [parseLogFile] gives *)

Lemma cut_at_colon_before line :
  forall before after, cut_at_colon line = Some (before, after) ->
    ~ In ":"%char before /\ line = before ++ ":"%char :: after.
Proof.
  induction line as [|c line IH]; intros before after H; [discriminate|].
  simpl in H. destruct (Ascii.eqb_spec c ":"%char) as [->|Hc].
  - injection H as <- <-. split; [intros []|reflexivity].
  - destruct (cut_at_colon line) as [[b a]|]; [|discriminate].
    injection H as <- <-. destruct (IH b a eq_refl) as [Hn ->].
    split; [|reflexivity]. intros [Heq|Hin]; [congruence | exact (Hn Hin)].
Qed.

Lemma split_lines_no_LF_in s : Forall (fun line => ~ In LF line) (split_lines s).
Proof.
  induction s as [|c s IH]; [constructor; [intros []|constructor]|].
  simpl. destruct (Ascii.eqb_spec c LF) as [->|Hc].
  - constructor; [intros []|exact IH].
  - destruct (split_lines s) as [|l ls]; [constructor; [|constructor]|].
    + intros [Heq|[]]. congruence.
    + constructor; [|exact (Forall_inv_tail IH)].
      intros [Heq|Hin]; [congruence | exact (Forall_inv IH Hin)].
Qed.

Lemma includes_char_iff s c : includes s [c] = true <-> In c s.
Proof.
  induction s as [|x s IH]; [split; [discriminate | intros []]|].
  cbn [includes]. unfold starts_with. simpl. rewrite orb_true_iff, IH.
  split.
  - intros [H|H]; [left | right; exact H].
    apply bool_decide_eq_true in H. congruence.
  - intros [->|H]; [left | right; exact H].
    apply bool_decide_eq_true_2. reflexivity.
Qed.

Lemma includes_char_false s c : ~ In c s -> includes s [c] = false.
Proof.
  intros H. destruct (includes s [c]) eqn:E; [|reflexivity].
  exfalso. apply H, includes_char_iff, E.
Qed.

Lemma parseLine_plain line entry :
  ~ In LF line -> parseLine line = LinePushed entry -> plain_id (deployId entry) = true.
Proof.
  unfold parseLine. intros Hlf H.
  destruct (cut_at_colon line) as [[before after]|] eqn:E; [|discriminate].
  destruct (JSON.parse (trim after)); [|discriminate]. injection H as <-. simpl.
  destruct (cut_at_colon_before line before after E) as [Hcolon Hline].
  unfold plain_id. rewrite bool_decide_eq_true_2 by apply trim_trim.
  change (str ":") with [":"%char].
  rewrite (includes_char_false (trim before) ":"%char).
  2:{ intros Hin. apply Hcolon, trim_In, Hin. }
  rewrite (includes_char_false (trim before) LF); [reflexivity|].
  intros Hin. apply Hlf. rewrite Hline. apply in_or_app. left. apply trim_In, Hin.
Qed.

Lemma parsed_plain content entry :
  In entry (parsed content) -> plain_id (deployId entry) = true.
Proof.
  unfold parsed, log_lines. intros H.
  apply in_flat_map in H as (line & Hline & Hin).
  apply list_elem_of_In, list_elem_of_filter in Hline as [_ Hline].
  apply list_elem_of_In in Hline.
  pose proof (split_lines_no_LF_in content) as Hall.
  rewrite Forall_forall in Hall.
  unfold pushed in Hin. destruct (parseLine line) as [e| |] eqn:E; try destruct Hin.
  - subst e. apply (parseLine_plain line entry); [|exact E].
    apply Hall. apply list_elem_of_In. exact Hline.
  - destruct H.
Qed.

(** X9.  [parseLogFile] returns for every content, and changes nothing but
    the console.  The [deployId] of each entry it gives is trimmed and holds
    no colon and no line feed. *)
Theorem parseLogFile_ids_plain content env w :
  exists logs w',
    parseLogFile content env w = (Returned logs, w')
    /\ only_observes w w'
    /\ Forall (fun entry =>
         trim (deployId entry) = deployId entry
         /\ ~ In ":"%char (deployId entry)
         /\ ~ In LF (deployId entry)) logs.
Proof.
  rewrite parseLogFile_eq. eexists _, _. split; [reflexivity|].
  split; [apply only_observes_reported|].
  apply Forall_forall. intros entry Hin. apply list_elem_of_In in Hin.
  apply parsed_plain in Hin. unfold plain_id in Hin.
  apply andb_prop in Hin as [Hin H3]. apply andb_prop in Hin as [H1 H2].
  apply bool_decide_eq_true in H1. apply negb_true_iff in H2, H3.
  split; [exact H1|]. split; apply includes_char; assumption.
Qed.

(** *** The search by id, on any day *)

Lemma find_log_sound target logs log :
  find_log target logs = Some log -> deployId log = target /\ In log logs.
Proof.
  unfold find_log. intros H. apply find_some in H as [Hin H].
  apply bool_decide_eq_true in H. split; assumption.
Qed.

Lemma find_log_stored target w path log :
  find_log target (logs_of w path) = Some log -> deployId log = target /\ stored w log.
Proof.
  intros H. apply find_log_sound in H as [Hid Hin]. split; [exact Hid|].
  unfold logs_of in Hin. destruct (files w !! path) as [content|] eqn:E; [|destruct Hin].
  exists path, content. split; assumption.
Qed.

Lemma stored_observes w w' log : only_observes w w' -> stored w' log -> stored w log.
Proof.
  intros (_ & _ & _ & _ & _ & Hf) (path & content & H1 & H2).
  exists path, content. rewrite <- Hf. split; assumption.
Qed.

Lemma search_recent_sound target env days :
  forall w,
    exists found w',
      search_recent target days env w = (Returned found, w')
      /\ only_observes w w'
      /\ (forall log, found = Some log -> deployId log = target /\ stored w log).
Proof.
  induction days as [|i rest IH]; intros w.
  - exists None, w. split; [reflexivity|]. split; [apply only_observes_refl | discriminate].
  - cbn [search_recent]. unfold new_Date. run_monad.
    match goal with
    | |- context [search_file ?p target env ?w1] =>
        destruct (search_file_eq p target env w1) as (reports & Hs); rewrite Hs;
        destruct (find_log target (logs_of w1 p)) as [log|] eqn:E
    end.
    + eexists _, _. split; [reflexivity|]. split; [apply only_observes_tick|].
      intros log' [= <-]. apply find_log_stored in E as [Hid Hst]. split; [exact Hid|].
      revert Hst. apply stored_observes. repeat split.
    + destruct (IH (reported reports (set_clock (S (clock w)) w)))
        as (found & w' & Heq & Hobs & Hfound).
      exists found, w'. split; [exact Heq|]. split.
      * eapply only_observes_trans; [apply only_observes_tick | exact Hobs].
      * intros log Hl. destruct (Hfound log Hl) as [Hid Hst]. split; [exact Hid|].
        revert Hst. apply stored_observes. apply only_observes_tick.
Qed.

Lemma get_by_id_sound target env w :
  exists found w',
    get_webhook_deploy_log_by_id target env w = (Returned (found_response found), w')
    /\ only_observes w w'
    /\ (forall log, found = Some log -> deployId log = target /\ stored w log).
Proof.
  unfold get_webhook_deploy_log_by_id, getLogFilePath_today, new_Date.
  remember (search_recent target [1; 2; 3; 4; 5; 6; 7]) as recent eqn:Hrecent.
  run_monad.
  match goal with
  | |- context [search_file ?p target env ?w1] =>
      destruct (search_file_eq p target env w1) as (reports & Hs); rewrite Hs;
      destruct (find_log target (logs_of w1 p)) as [log|] eqn:E
  end.
  - exists (Some log). eexists. split; [reflexivity|]. split; [apply only_observes_tick|].
    intros log' [= <-]. apply find_log_stored in E as [Hid Hst]. split; [exact Hid|].
    revert Hst. apply stored_observes. repeat split.
  - destruct (search_recent_sound target env [1; 2; 3; 4; 5; 6; 7]
                (reported reports (set_clock (S (clock w)) w)))
      as (found & w' & Heq & Hobs & Hfound).
    rewrite Hrecent, Heq. exists found, w'. split; [destruct found; reflexivity|]. split.
    + eapply only_observes_trans; [apply only_observes_tick | exact Hobs].
    + intros log Hl. destruct (Hfound log Hl) as [Hid Hst]. split; [exact Hid|].
      revert Hst. apply stored_observes. apply only_observes_tick.
Qed.

(** X11.  An id with white space around it, with a colon or with a line feed
    in it is never found, whatever the files hold: no entry that
    [parseLogFile] gives has such an id. *)
Theorem findById_odd_id_not_found target env w :
  plain_id target = false ->
  (get_webhook_deploy_log_by_id target env w).1
  = Returned {| statusCode := 404; payload := LogNotFound |}.
Proof.
  intros Hodd.
  destruct (get_by_id_sound target env w) as (found & w' & Heq & _ & Hfound).
  rewrite Heq. simpl. destruct found as [log|]; [|reflexivity].
  destruct (Hfound log eq_refl) as [Hid (path & content & _ & Hin)].
  apply parsed_plain in Hin. congruence.
Qed.

Lemma findById_odd_id_not_found_witness :
  plain_id (str "we:b-prod-1") = false
  /\ (get_webhook_deploy_log_by_id (str "we:b-prod-1") ex_env ex_world).1
     = Returned {| statusCode := 404; payload := LogNotFound |}.
Proof.
  split; [reflexivity|].
  apply (findById_odd_id_not_found (str "we:b-prod-1") ex_env ex_world eq_refl).
Defined.

(** ** The query, and what the handlers do to the files *)

Lemma get_webhook_deploy_log_eq q_limit q_app q_env q_date env w :
  let matching := query_matching env w q_app q_env q_date in
  exists w',
    get_webhook_deploy_log q_limit q_app q_env q_date env w
    = (Returned {| statusCode := 200;
                   payload := LogList (slice0 (number_or (parseInt q_limit) 20) matching)
                                (length matching) q_app q_env q_date |}, w')
    /\ only_observes w w'.
Proof.
  unfold query_matching, query_path, get_webhook_deploy_log.
  destruct (truthy q_date) eqn:Ed.
  - unfold try_catch at 1. unfold mbind at 1, M_bind at 1.
    destruct (read_logs_eq (path_join LOGS_DIR (default [] q_date ++ str ".txt")) env w)
      as (reports & Hr).
    rewrite Hr. eexists. split; [reflexivity | apply only_observes_reported].
  - unfold try_catch at 1. unfold getLogFilePath_today. run_monad.
    match goal with
    | |- context [read_logs ?p env ?w1] =>
        destruct (read_logs_eq p env w1) as (reports & Hr); rewrite Hr
    end.
    eexists. split; [reflexivity | apply only_observes_tick].
Qed.

Lemma filter_logs_comm a b logs :
  filter_logs a (filter_logs b logs) = filter_logs b (filter_logs a logs).
Proof.
  unfold filter_logs. destruct (truthy a), (truthy b); try reflexivity.
  rewrite !list_filter_filter. apply list_filter_iff. intros x. tauto.
Qed.

(** X12.  The filters [app] and [env] of the query are one and the same
    test, [deployId.includes]: exchanging the two values gives the same
    records and the same total.  Each record returned contains each filter
    that is given. *)
Theorem query_filters_commute q_limit a b q_date env w :
  exists logs total w1 w2,
    get_webhook_deploy_log q_limit a b q_date env w
    = (Returned {| statusCode := 200; payload := LogList logs total a b q_date |}, w1)
    /\ get_webhook_deploy_log q_limit b a q_date env w
       = (Returned {| statusCode := 200; payload := LogList logs total b a q_date |}, w2)
    /\ Forall (fun l =>
         (truthy a = true -> includes (deployId l) (default [] a) = true)
         /\ (truthy b = true -> includes (deployId l) (default [] b) = true)) logs.
Proof.
  destruct (get_webhook_deploy_log_eq q_limit a b q_date env w) as (w1 & H1 & _).
  destruct (get_webhook_deploy_log_eq q_limit b a q_date env w) as (w2 & H2 & _).
  unfold query_matching in *. rewrite filter_logs_comm in H2.
  eexists _, _, w1, w2. split; [exact H1|]. split; [exact H2|].
  apply Forall_forall. intros l Hl.
  assert (Hin : l ∈ filter_logs b (filter_logs a (logs_of w (query_path env w q_date)))).
  { unfold slice0 in Hl. eapply elem_of_sublist; [exact Hl | apply sublist_take]. }
  clear Hl H1 H2. unfold filter_logs in Hin.
  destruct (truthy a), (truthy b);
    rewrite ?list_elem_of_filter in Hin; split; intros; try discriminate; tauto.
Qed.

(** X13.  With a negative [limit] the query returns all matching records but
    the last [-limit] of them ([slice(0, limit)]), and [total] still counts
    them all. *)
Theorem query_negative_limit q_limit q_app q_env q_date env w n :
  parseInt q_limit = Some n -> n < 0 ->
  exists logs dropped,
    (get_webhook_deploy_log q_limit q_app q_env q_date env w).1
    = Returned {| statusCode := 200;
                  payload := LogList logs (length (logs ++ dropped)) q_app q_env q_date |}
    /\ query_matching env w q_app q_env q_date = logs ++ dropped
    /\ length dropped = Nat.min (Z.to_nat (- n)) (length (logs ++ dropped)).
Proof.
  intros Hn Hneg.
  destruct (get_webhook_deploy_log_eq q_limit q_app q_env q_date env w) as (w1 & H1 & _).
  rewrite H1, Hn. set (matching := query_matching env w q_app q_env q_date).
  assert (Hlim : number_or (Some n) 20 = n).
  { unfold number_or. replace (n =? 0) with false by (symmetry; apply Z.eqb_neq; lia).
    reflexivity. }
  rewrite Hlim. unfold slice0.
  replace (n <? 0) with true by (symmetry; apply Z.ltb_lt; lia).
  set (k := Z.to_nat (Z.max (Z.of_nat (length matching) + n) 0)).
  exists (take k matching), (drop k matching).
  rewrite take_drop. split; [reflexivity|]. split; [reflexivity|].
  rewrite length_drop. subst k. lia.
Qed.

Lemma query_negative_limit_witness :
  (parseInt (Some (str "-1")) = Some (-1) /\ -1 < 0)
  /\ exists logs dropped,
      (get_webhook_deploy_log (Some (str "-1")) None None (Some (str "20240101"))
         ex_env ex_world).1
      = Returned {| statusCode := 200;
                    payload := LogList logs (length (logs ++ dropped)) None None
                                 (Some (str "20240101")) |}
      /\ query_matching ex_env ex_world None None (Some (str "20240101")) = logs ++ dropped
      /\ length dropped = Nat.min (Z.to_nat (- -1)) (length (logs ++ dropped)).
Proof.
  split; [split; reflexivity|].
  exact (query_negative_limit (Some (str "-1")) None None (Some (str "20240101"))
           ex_env ex_world (-1) eq_refl eq_refl).
Defined.

(** X14.  The two queries only read: after [GET /webhook/deploy/log] and
    after [GET /webhook/deploy/log/:deployId] the configuration, the
    [running] set, the child processes and the files are as before. *)
Theorem queries_change_nothing env w :
  (forall q_limit q_app q_env q_date,
     only_observes w (get_webhook_deploy_log q_limit q_app q_env q_date env w).2)
  /\ (forall target, only_observes w (get_webhook_deploy_log_by_id target env w).2).
Proof.
  split.
  - intros q_limit q_app q_env q_date.
    destruct (get_webhook_deploy_log_eq q_limit q_app q_env q_date env w) as (w1 & H1 & Hobs).
    rewrite H1. exact Hobs.
  - intros target.
    destruct (get_by_id_sound target env w) as (found & w' & Heq & Hobs & _).
    rewrite Heq. exact Hobs.
Qed.

(** *** The store is only appended to *)

Lemma lines_closed_spec content :
  lines_closed content = true -> content = [] \/ exists body, content = body ++ [LF].
Proof.
  unfold lines_closed. destruct content as [|c content _] using rev_ind; [left; reflexivity|].
  rewrite last_snoc. intros H. apply Ascii.eqb_eq in H. subst. right. eexists. reflexivity.
Qed.

Lemma lines_closed_logLine content r : lines_closed (content ++ logLine r) = true.
Proof.
  unfold lines_closed. rewrite logLine_eq, app_assoc, last_snoc. reflexivity.
Qed.

Lemma parsed_closed old new :
  lines_closed old = true -> parsed (old ++ new) = parsed old ++ parsed new.
Proof.
  intros H. apply lines_closed_spec in H as [->|[body ->]]; [reflexivity|].
  rewrite <- app_assoc. simpl. rewrite parsed_app.
  change (body ++ [LF]) with (body ++ LF :: []). rewrite parsed_app.
  change (parsed []) with (@nil LogEntry). rewrite app_nil_r. reflexivity.
Qed.

Lemma parsed_logLine r :
  plain_id (log_deployId r) = true -> parsed (logLine r) = [entry_of r].
Proof.
  unfold plain_id. intros H.
  apply andb_prop in H as [H H3]. apply andb_prop in H as [H1 H2].
  apply bool_decide_eq_true in H1. apply negb_true_iff in H2, H3.
  apply includes_char in H2, H3.
  unfold parsed. rewrite log_lines_logLine by assumption. simpl. unfold pushed.
  rewrite parseLine_logLine_text by assumption. rewrite H1. reflexivity.
Qed.

Lemma appends_line_kept w w' p r : appends_line w w' p r -> log_content_kept w w'.
Proof.
  unfold appends_line. intros H path content Hc. rewrite H.
  destruct (decide (path = p)) as [->|Hne].
  - rewrite lookup_insert_eq, Hc. eexists. reflexivity.
  - rewrite lookup_insert_ne by congruence. exists []. rewrite app_nil_r. exact Hc.
Qed.

Lemma appends_line_closed w w' p r :
  appends_line w w' p r -> store_closed w -> store_closed w'.
Proof.
  unfold appends_line. intros H Hcl path content. rewrite H.
  destruct (decide (path = p)) as [->|Hne].
  - rewrite lookup_insert_eq. intros [= <-]. apply lines_closed_logLine.
  - rewrite lookup_insert_ne by congruence. apply Hcl.
Qed.

Lemma same_files_kept w w' : files w' = files w -> log_content_kept w w'.
Proof.
  intros H path content Hc. exists []. rewrite H, app_nil_r. exact Hc.
Qed.

Lemma deployApp_files env w deployId appName en config :
  exists r w',
    deployApp deployId appName en config env w = (Returned r, w')
    /\ log_deployId r = deployId
    /\ clock w' = S (pred (clock w'))
    /\ (clock w + 4 <= pred (clock w') <= clock w + 2 * length (cfg_steps config) + 4)%nat
    /\ (if persist_ok env w
        then appends_line w w' (partition_at env (pred (clock w'))) r
        else files w' = files w).
Proof.
  destruct (deployApp_anatomy env w deployId appName en config)
    as (out & calls & results & reports & Hd & _ & Hc & (_ & _ & _ & Hf) & _ & Hle & _).
  eexists _, _. split; [exact Hd|]. split; [destruct out; reflexivity|].
  rewrite Hc.
  replace (Init.Nat.pred (clock w + 2 * length results + 5))
    with (clock w + 2 * length results + 4)%nat by lia.
  split; [lia|]. split; [lia|].
  unfold appends_line. rewrite Hf. simpl. destruct (persist_ok env w); reflexivity.
Qed.

(** X15.  A trigger leaves the files as they are or appends the line of one
    record to one partition.  So every file keeps the content it had as the
    beginning of its content, and when every file ended with a line feed
    before, every file does afterwards. *)
Theorem trigger_appends_one_line body_app body_env env w :
  let w' := (post_webhook_deploy body_app body_env env w).2 in
  (files w' = files w \/ exists p r, appends_line w w' p r)
  /\ log_content_kept w w'
  /\ (store_closed w -> store_closed w').
Proof.
  intros w'. subst w'.
  destruct (post_webhook_deploy_eq body_app body_env env w)
    as [[_ (out & w1 & Heq & Hw & _)]
       |(appName & en & envs & config & _ & _ & _ & _ & _ & _ & _ & Heq)].
  - rewrite Heq. cbn [snd].
    assert (Hf : files w1 = files w) by (destruct Hw as [->| ->]; reflexivity).
    split; [left; exact Hf|].
    split; [apply same_files_kept; exact Hf|].
    intros Hcl path content. rewrite Hf. apply Hcl.
  - rewrite Heq. cbn [snd].
    destruct (deployApp_files env (set_clock (S (S (clock w))) w)
                (appName ++ "-"%char :: en ++ "-"%char :: String_of_Z (now env (clock w)))
                appName en config)
      as (r & w' & Hd & _ & _ & _ & Hf).
    rewrite Hd. cbn [snd].
    change (persist_ok env (set_clock (S (S (clock w))) w)) with (persist_ok env w) in Hf.
    destruct (persist_ok env w).
    + assert (Ha : appends_line w w' (partition_at env (Init.Nat.pred (clock w'))) r) by exact Hf.
      split; [right; eexists _, _; exact Ha|].
      split; [exact (appends_line_kept _ _ _ _ Ha) | exact (appends_line_closed _ _ _ _ Ha)].
    + assert (Hs : files w' = files w) by exact Hf.
      split; [left; exact Hs|]. split; [apply same_files_kept; exact Hs|].
      intros Hcl path content. rewrite Hs. apply Hcl.
Qed.

(** ** From the trigger to the search by id *)

Lemma same_day_sub env k0 n k1 m today :
  same_day env k0 n today = true -> (k0 <= k1)%nat -> (k1 + m <= k0 + n)%nat ->
  same_day env k1 m today = true.
Proof.
  unfold same_day. rewrite !forallb_forall. intros H H1 H2 i Hi. apply in_seq in Hi.
  replace (k1 + i)%nat with (k0 + (k1 - k0 + i))%nat by lia.
  apply H. apply in_seq. lia.
Qed.

Lemma partition_at_day env k : partition_at env k = day_partition (local_day env k).
Proof. unfold partition_at, local_day. rewrite getLogFilePath_day. reflexivity. Qed.

Lemma find_log_app target l1 l2 :
  find_log target (l1 ++ l2)
  = match find_log target l1 with Some x => Some x | None => find_log target l2 end.
Proof.
  unfold find_log. induction l1 as [|x l1 IH]; [reflexivity|].
  simpl. destruct (bool_decide (deployId x = target)); [reflexivity | exact IH].
Qed.

Lemma logs_of_default w path : logs_of w path = parsed (default [] (files w !! path)).
Proof. unfold logs_of. destruct (files w !! path); reflexivity. Qed.

(** The search by id when the clock readings of the request fall on one
    day. *)
Lemma get_by_id_first_match target env w today :
  same_day env (clock w) 8 today = true ->
  (get_webhook_deploy_log_by_id target env w).1
  = Returned (found_response (first_match target w today [0; 1; 2; 3; 4; 5; 6; 7])).
Proof.
  intros Hday.
  unfold get_webhook_deploy_log_by_id, getLogFilePath_today, new_Date.
  remember (search_recent target [1; 2; 3; 4; 5; 6; 7]) as recent eqn:Hrecent.
  rewrite first_match_cons, Z.sub_0_r.
  remember (first_match target w today [1; 2; 3; 4; 5; 6; 7]) as older eqn:Holder.
  run_monad.
  match goal with
  | |- context [search_file ?p target env ?w1] =>
      destruct (search_file_eq p target env w1) as (reports & Hs); rewrite Hs
  end.
  rewrite getLogFilePath_day. cbn [localTime].
  pose proof (same_day_lookup env (clock w) 8 today 0 Hday ltac:(lia)) as H0.
  rewrite Nat.add_0_r in H0. unfold local_day in H0. rewrite H0.
  change (logs_of (set_clock (S (clock w)) w)) with (logs_of w).
  destruct (find_log target (logs_of w (day_partition today))) as [log|]; [reflexivity|].
  destruct (search_recent_eq target env today [1; 2; 3; 4; 5; 6; 7]
              (reported reports (set_clock (S (clock w)) w))) as (w' & Heq & _).
  { apply Forall_forall. intros k Hk. apply elem_of_seq in Hk. simpl in Hk.
    replace k with (clock w + (k - clock w))%nat by lia.
    apply (same_day_lookup env (clock w) 8 today); [assumption | lia]. }
  rewrite Hrecent, Heq.
  rewrite (first_match_files target _ w) by reflexivity.
  rewrite <- Holder. destruct older; reflexivity.
Qed.

(** After the line of [r] was appended to today's partition, the search by
    id finds it. *)
Lemma find_after_append r env w w' today :
  appends_line w w' (day_partition today) r ->
  plain_id (log_deployId r) = true ->
  lines_closed (default [] (files w !! day_partition today)) = true ->
  find_log (log_deployId r) (logs_of w (day_partition today)) = None ->
  same_day env (clock w') 8 today = true ->
  logs_of w' (day_partition today) = logs_of w (day_partition today) ++ [entry_of r]
  /\ (get_webhook_deploy_log_by_id (log_deployId r) env w').1
     = Returned {| statusCode := 200; payload := LogFound (entry_of r) |}.
Proof.
  intros Happ Hplain Hclosed Hfresh Hday.
  assert (Hlogs : logs_of w' (day_partition today)
                  = logs_of w (day_partition today) ++ [entry_of r]).
  { rewrite (logs_of_default w). unfold logs_of. rewrite Happ, lookup_insert_eq.
    rewrite parsed_closed by exact Hclosed. rewrite parsed_logLine by exact Hplain.
    reflexivity. }
  split; [exact Hlogs|].
  rewrite (get_by_id_first_match _ env w' today Hday).
  rewrite first_match_cons, Z.sub_0_r, Hlogs, find_log_app, Hfresh.
  unfold find_log. simpl. rewrite bool_decide_eq_true_2 by reflexivity. reflexivity.
Qed.

(** X16.  A record that was saved is found.  Let the readings of the clock
    of [saveLog] and of the search fall on one local day, the file system
    refuse nothing, the id of the record be plain, today's partition end
    with a line feed (or be empty or missing) and hold no record with that
    id.  Then after [saveLog] the records of today's partition are the
    earlier ones followed by the one of the record, and the search by its
    id answers 200 with that one. *)
Theorem saveLog_then_findById r env w today :
  plain_id (log_deployId r) = true ->
  persist_ok env w = true ->
  same_day env (clock w) 9 today = true ->
  lines_closed (default [] (files w !! day_partition today)) = true ->
  find_log (log_deployId r) (logs_of w (day_partition today)) = None ->
  let w' := (saveLog r env w).2 in
  logs_of w' (day_partition today) = logs_of w (day_partition today) ++ [entry_of r]
  /\ (get_webhook_deploy_log_by_id (log_deployId r) env w').1
     = Returned {| statusCode := 200; payload := LogFound (entry_of r) |}.
Proof.
  intros Hplain Hok Hday Hclosed Hfresh w'.
  apply find_after_append; try assumption.
  - assert (H0 : local_day env (clock w) = today).
    { pose proof (same_day_lookup env (clock w) 9 today 0 Hday ltac:(lia)) as H0.
      rewrite Nat.add_0_r in H0. exact H0. }
    unfold appends_line. subst w'. rewrite saveLog_files, Hok, partition_at_day, H0.
    reflexivity.
  - subst w'. destruct (saveLog_frame r env w) as (_ & _ & Hc & _). rewrite Hc.
    apply (same_day_sub env (clock w) 9); [assumption | lia | lia].
Qed.

Lemma saveLog_then_findById_witness :
  (plain_id (log_deployId ex_record) = true
   /\ persist_ok ex_env ex_world = true
   /\ same_day ex_env (clock ex_world) 9 19723 = true
   /\ lines_closed (default [] (files ex_world !! day_partition 19723)) = true
   /\ find_log (log_deployId ex_record) (logs_of ex_world (day_partition 19723)) = None)
  /\ (get_webhook_deploy_log_by_id (log_deployId ex_record) ex_env
        (saveLog ex_record ex_env ex_world).2).1
     = Returned {| statusCode := 200; payload := LogFound (entry_of ex_record) |}.
Proof.
  assert (H1 : plain_id (log_deployId ex_record) = true) by (vm_compute; reflexivity).
  assert (H2 : persist_ok ex_env ex_world = true) by (vm_compute; reflexivity).
  assert (H3 : same_day ex_env (clock ex_world) 9 19723 = true) by (vm_compute; reflexivity).
  assert (H4 : lines_closed (default [] (files ex_world !! day_partition 19723)) = true)
    by (vm_compute; reflexivity).
  assert (H5 : find_log (log_deployId ex_record) (logs_of ex_world (day_partition 19723)) = None)
    by (vm_compute; reflexivity).
  split; [repeat split; assumption|].
  pose proof (saveLog_then_findById ex_record ex_env ex_world 19723 H1 H2 H3 H4 H5) as H.
  destruct H as [_ H]. exact H.
Defined.

(** X17.  A run that was accepted is found under the id of the answer.
    Under the conditions of X16, for the readings of the clock that the
    trigger, its run and the search take, the trigger answers 200 with a
    [deployId], and the search by that id, once the run is over, answers
    200 with the steps of the record of that run. *)
Theorem trigger_then_findById appName en envs config env w today :
  truthy_string appName = true -> truthy_string en = true ->
  APPS w !! appName = Some envs -> envs !! en = Some config ->
  running_key appName en ∉ running w ->
  let deployId := appName ++ "-"%char :: en ++ "-"%char :: String_of_Z (now env (clock w)) in
  plain_id deployId = true ->
  persist_ok env w = true ->
  same_day env (clock w) (2 * length (cfg_steps config) + 15) today = true ->
  lines_closed (default [] (files w !! day_partition today)) = true ->
  find_log deployId (logs_of w (day_partition today)) = None ->
  exists r w' timestamp,
    post_webhook_deploy (Some appName) (Some en) env w
    = (Returned {| statusCode := 200;
                   payload := DeploymentStarted deployId appName en
                                (length (cfg_steps config)) timestamp |}, w')
    /\ (deployApp deployId appName en config env (set_clock (S (S (clock w))) w)).1
       = Returned r
    /\ (get_webhook_deploy_log_by_id deployId env w').1
       = Returned {| statusCode := 200;
                     payload := LogFound {| deployId := deployId;
                                            steps := JArr (formattedSteps (log_steps r)) |} |}.
Proof.
  intros Ha He Hap Hen Hfree deployId Hplain Hok Hday Hclosed Hfresh.
  destruct (post_webhook_deploy_eq (Some appName) (Some en) env w)
    as [[Hno _]|(a' & e' & envs' & config' & Ha' & He' & _ & _ & Hap' & Hen' & _ & Heq)].
  { exfalso. apply Hno. exists appName, en, envs, config.
    repeat split; try assumption; intros ->; discriminate. }
  simplify_eq. fold deployId in Heq.
  destruct (deployApp_files env (set_clock (S (S (clock w))) w) deployId a' e' config)
    as (r & w' & Hd & Hid & Hc & Hrange & Hf).
  change (persist_ok env (set_clock (S (S (clock w))) w)) with (persist_ok env w) in Hf.
  rewrite Hok in Hf. cbn [clock set_clock] in Hrange.
  assert (Hw' : (deployApp deployId a' e' config env (set_clock (S (S (clock w))) w)).2 = w')
    by (rewrite Hd; reflexivity).
  exists r, w'. eexists. split; [rewrite Heq; f_equal; exact Hw'|].
  rewrite Hd. split; [reflexivity|].
  assert (Hp : partition_at env (Init.Nat.pred (clock w')) = day_partition today).
  { rewrite partition_at_day. f_equal.
    replace (Init.Nat.pred (clock w'))
      with (clock w + (Init.Nat.pred (clock w') - clock w))%nat by lia.
    apply (same_day_lookup env (clock w) _ today _ Hday). lia. }
  rewrite Hp in Hf.
  assert (Happ : appends_line w w' (day_partition today) r) by exact Hf.
  rewrite <- Hid in Hplain, Hfresh.
  destruct (find_after_append r env w w' today Happ Hplain Hclosed Hfresh) as [_ Hfind].
  { apply (same_day_sub env (clock w) _ _ _ _ Hday); lia. }
  rewrite Hid in Hfind. unfold entry_of in Hfind. rewrite Hid in Hfind. exact Hfind.
Qed.

Lemma trigger_then_findById_witness :
  (truthy_string (str "a-b") = true /\ truthy_string (str "c") = true
   /\ APPS ex_world !! str "a-b" = Some {[ str "c" := ex_config_ok ]}
   /\ ({[ str "c" := ex_config_ok ]} : gmap jstring EnvConfig) !! str "c" = Some ex_config_ok
   /\ (running_key (str "a-b") (str "c") ∉ running ex_world)
   /\ plain_id (str "a-b-c-1704067200000") = true
   /\ persist_ok ex_env ex_world = true
   /\ same_day ex_env (clock ex_world) (2 * length (cfg_steps ex_config_ok) + 15) 19723 = true
   /\ lines_closed (default [] (files ex_world !! day_partition 19723)) = true
   /\ find_log (str "a-b-c-1704067200000") (logs_of ex_world (day_partition 19723)) = None)
  /\ exists w' log,
      (post_webhook_deploy (Some (str "a-b")) (Some (str "c")) ex_env ex_world).2 = w'
      /\ (get_webhook_deploy_log_by_id (str "a-b-c-1704067200000") ex_env w').1
         = Returned {| statusCode := 200; payload := LogFound log |}
      /\ deployId log = str "a-b-c-1704067200000".
Proof.
  assert (Hfree : running_key (str "a-b") (str "c") ∉ running ex_world).
  { apply (bool_decide_unpack _). vm_compute. exact I. }
  assert (H1 : plain_id (str "a-b-c-1704067200000") = true) by (vm_compute; reflexivity).
  assert (H2 : persist_ok ex_env ex_world = true) by (vm_compute; reflexivity).
  assert (H3 : same_day ex_env (clock ex_world) (2 * length (cfg_steps ex_config_ok) + 15) 19723
               = true) by (vm_compute; reflexivity).
  assert (H4 : lines_closed (default [] (files ex_world !! day_partition 19723)) = true)
    by (vm_compute; reflexivity).
  assert (H5 : find_log (str "a-b-c-1704067200000") (logs_of ex_world (day_partition 19723))
               = None) by (vm_compute; reflexivity).
  split.
  { split; [reflexivity|]. split; [reflexivity|]. split; [reflexivity|]. split; [reflexivity|].
    split; [exact Hfree|]. repeat split; assumption. }
  destruct (trigger_then_findById (str "a-b") (str "c") {[ str "c" := ex_config_ok ]}
              ex_config_ok ex_env ex_world 19723 eq_refl eq_refl eq_refl eq_refl Hfree
              H1 H2 H3 H4 H5)
    as (r & w' & timestamp & Hpost & _ & Hfind).
  exists w'. eexists. split; [rewrite Hpost; reflexivity|]. split; [exact Hfind | reflexivity].
Defined.

(** ** The names of the partitions: [getLogFilePath] *)

Lemma civil_from_days_bounds z :
  let '(y, m, d) := civil_from_days z in 1 <= m <= 12 /\ 1 <= d <= 31.
Proof.
  pose proof (days_from_civil_from_days z) as H.
  rewrite civil_from_days_eq in *.
  set (z' := z + 719468) in *. set (era := z' / 146097) in *.
  set (doe := z' - era * 146097) in *.
  assert (Hdoe : 0 <= doe <= 146096).
  { subst doe era. pose proof (Z.mod_pos_bound z' 146097 ltac:(lia)) as Hm.
    rewrite Z.mod_eq in Hm by lia. lia. }
  destruct (doe_bounds doe Hdoe) as [_ Hd].
  destruct H as [_ Hm]. split; [exact Hm|].
  generalize dependent (doy_of doe). intros doy _ Hdoy.
  Z.to_euclidean_division_equations; lia.
Qed.

Lemma digits_inj n m : 0 <= n -> 0 <= m -> digits n = digits m -> n = m.
Proof.
  intros Hn Hm H.
  destruct (digits_spec n Hn) as (c & ds & E1 & _ & V1 & _).
  destruct (digits_spec m Hm) as (c' & ds' & E2 & _ & V2 & _).
  rewrite <- V1, <- V2, <- E1, <- E2, H. reflexivity.
Qed.

Lemma digits_head n : 0 <= n -> exists c ds, digits n = c :: ds /\ is_digit c = true.
Proof.
  intros Hn. destruct (digits_spec n Hn) as (c & ds & E & Hall & _).
  exists c, ds. split; [exact E | exact (Forall_inv Hall)].
Qed.

Lemma String_of_Z_inj n m : String_of_Z n = String_of_Z m -> n = m.
Proof.
  unfold String_of_Z.
  destruct (Z.ltb_spec n 0) as [Hn|Hn], (Z.ltb_spec m 0) as [Hm|Hm]; intros H.
  - injection H as H. apply digits_inj in H; lia.
  - destruct (digits_head m Hm) as (c & ds & E & Hc). rewrite E in H.
    injection H as <- _. discriminate.
  - destruct (digits_head n Hn) as (c & ds & E & Hc). rewrite E in H.
    injection H as -> _. discriminate.
  - apply digits_inj; assumption.
Qed.

Lemma padStart2_value n : 0 <= n -> digits_value (padStart2 (String_of_Z n)) = n.
Proof.
  intros Hn. unfold String_of_Z. replace (n <? 0) with false by (symmetry; apply Z.ltb_ge; lia).
  destruct (digits_spec n Hn) as (c & ds & E & _ & V & _). rewrite E.
  destruct ds as [|c' ds]; [|exact V].
  change (padStart2 [c]) with ["0"%char; c].
  unfold digits_value in *. cbn [fold_left] in *. change (code "0"%char) with 48. lia.
Qed.

Lemma padStart2_two_digits n :
  0 <= n <= 31 ->
  length (padStart2 (String_of_Z n)) = 2%nat
  /\ Forall (fun c => is_digit c = true) (padStart2 (String_of_Z n)).
Proof.
  intros Hn.
  assert (H : forallb (fun k => (length (padStart2 (String_of_Z (Z.of_nat k))) =? 2)%nat
                                && forallb is_digit (padStart2 (String_of_Z (Z.of_nat k))))
                (seq 0 32) = true) by (vm_compute; reflexivity).
  rewrite forallb_forall in H. specialize (H (Z.to_nat n)).
  rewrite Z2Nat.id in H by lia.
  destruct (andb_prop _ _ (H ltac:(apply in_seq; lia))) as [H1 H2].
  split; [apply Nat.eqb_eq, H1|].
  apply Forall_forall. intros c Hc. rewrite forallb_forall in H2.
  apply H2, list_elem_of_In, Hc.
Qed.

(** [path.join] leaves a plain file name under [LOGS_DIR] as it is. *)
Lemma split_slash_plain s : ~ In "/"%char s -> split_slash s = [s].
Proof.
  induction s as [|c s IH]; [reflexivity|]. intros H. simpl.
  destruct (Ascii.eqb_spec c "/"%char) as [->|Hc]; [exfalso; apply H; left; reflexivity|].
  rewrite IH; [reflexivity|]. intros Hin. apply H. right. exact Hin.
Qed.

Lemma last_in_tail {A} (a name : list A) x :
  name <> [] -> last (a ++ name) = Some x -> In x name.
Proof.
  intros Hne. destruct name as [|c name _] using rev_ind; [congruence|].
  rewrite app_assoc, last_snoc. intros [= ->]. apply in_or_app. right. left. reflexivity.
Qed.

Lemma path_join_plain name :
  ~ In "/"%char name -> (2 < length name)%nat ->
  path_join LOGS_DIR name = str "logs/" ++ name.
Proof.
  intros Hslash Hlen.
  assert (Hne : name <> []) by (intros ->; simpl in Hlen; lia).
  assert (H1 : name <> str ".") by (intros ->; simpl in Hlen; lia).
  assert (H2 : name <> str "..") by (intros ->; simpl in Hlen; lia).
  unfold path_join, LOGS_DIR. destruct name as [|c name]; [congruence|].
  change (str "logs" ++ "/"%char :: c :: name)
    with ("l"%char :: "o"%char :: "g"%char :: "s"%char :: "/"%char :: c :: name).
  unfold path_normalize.
  change (Ascii.eqb "l"%char "/"%char) with false. cbn [negb].
  assert (Hsplit : split_slash ("l"%char :: "o"%char :: "g"%char :: "s"%char :: "/"%char
                                  :: c :: name)
                   = [str "logs"; c :: name]).
  { change (split_slash ("l"%char :: "o"%char :: "g"%char :: "s"%char :: "/"%char :: c :: name))
      with (str "logs" :: split_slash (c :: name)).
    rewrite split_slash_plain by exact Hslash. reflexivity. }
  rewrite Hsplit. cbn [fold_left].
  assert (Hseg1 : normalize_segment true [] (str "logs") = [str "logs"])
    by (vm_compute; reflexivity).
  rewrite Hseg1.
  assert (Hseg2 : normalize_segment true [str "logs"] (c :: name) = [c :: name; str "logs"]).
  { unfold normalize_segment.
    rewrite (bool_decide_eq_false_2 (c :: name = [])) by discriminate.
    rewrite (bool_decide_eq_false_2 (c :: name = str ".")) by exact H1.
    rewrite (bool_decide_eq_false_2 (c :: name = str "..")) by exact H2.
    reflexivity. }
  rewrite Hseg2.
  change (join_slash (rev [c :: name; str "logs"]))
    with ("l"%char :: "o"%char :: "g"%char :: "s"%char :: "/"%char :: c :: name).
  cbv iota.
  destruct (last ("l"%char :: "o"%char :: "g"%char :: "s"%char :: "/"%char :: c :: name))
    as [x|] eqn:El.
  - assert (Hx : In x (c :: name)).
    { apply (last_in_tail (str "logs/") (c :: name) x); [discriminate | exact El]. }
    destruct (Ascii.eqb_spec x "/"%char) as [->|_]; [contradiction|].
    cbn [app]. rewrite app_nil_r. reflexivity.
  - cbn [app]. rewrite app_nil_r. reflexivity.
Qed.

Lemma String_of_Z_no_slash z : ~ In "/"%char (String_of_Z z).
Proof.
  assert (Hd : forall n, 0 <= n -> ~ In "/"%char (digits n)).
  { intros n Hn Hin. destruct (digits_spec n Hn) as (c & ds & Heq & Hall & _).
    rewrite Heq in Hin. rewrite Forall_forall in Hall.
    apply list_elem_of_In in Hin. specialize (Hall _ Hin). discriminate. }
  unfold String_of_Z. destruct (z <? 0) eqn:E.
  - apply Z.ltb_lt in E. intros [H|H]; [discriminate|]. apply (Hd (- z)); [lia | exact H].
  - apply Z.ltb_ge in E. apply Hd. exact E.
Qed.

Lemma padStart2_no_slash s : ~ In "/"%char s -> ~ In "/"%char (padStart2 s).
Proof.
  destruct s as [|a [|b s]]; simpl; intros H; [|exact (fun H' => match H' with
                                                       | or_introl E => ltac:(discriminate)
                                                       | or_intror H'' => H H''
                                                       end)|exact H].
  intros [E|[E|[]]]; discriminate.
Qed.

Lemma getLogFilePath_eq d :
  getLogFilePath d
  = str "logs/" ++ String_of_Z (getFullYear d) ++ padStart2 (String_of_Z (getMonth d + 1))
      ++ padStart2 (String_of_Z (getDate d)) ++ str ".txt".
Proof.
  unfold getLogFilePath. apply path_join_plain.
  - intros Hin. apply in_app_or in Hin as [Hin|Hin]; [exact (String_of_Z_no_slash _ Hin)|].
    apply in_app_or in Hin as [Hin|Hin];
      [exact (padStart2_no_slash _ (String_of_Z_no_slash _) Hin)|].
    apply in_app_or in Hin as [Hin|Hin];
      [exact (padStart2_no_slash _ (String_of_Z_no_slash _) Hin)|].
    destruct Hin as [E|[E|[E|[E|[]]]]]; discriminate.
  - rewrite !length_app. simpl. lia.
Qed.

Lemma day_partition_eq day :
  let '(y, m, d) := civil_from_days day in
  day_partition day
  = str "logs/" ++ String_of_Z y ++ padStart2 (String_of_Z m) ++ padStart2 (String_of_Z d)
      ++ str ".txt".
Proof.
  unfold day_partition. rewrite getLogFilePath_eq.
  unfold getFullYear, getMonth, getDate. cbn [localTime].
  replace (Day (day * msPerDay)) with day.
  2:{ symmetry. replace (day * msPerDay) with (day * msPerDay + 0) by lia.
      apply Day_of_day. unfold msPerDay. lia. }
  destruct (civil_from_days day) as [[y m] d]. cbn [fst snd].
  replace (m - 1 + 1) with m by lia. reflexivity.
Qed.

Lemma day_partition_inj day1 day2 : day_partition day1 = day_partition day2 -> day1 = day2.
Proof.
  pose proof (day_partition_eq day1) as E1. pose proof (day_partition_eq day2) as E2.
  pose proof (civil_from_days_bounds day1) as B1. pose proof (civil_from_days_bounds day2) as B2.
  pose proof (days_from_civil_from_days day1) as R1.
  pose proof (days_from_civil_from_days day2) as R2.
  destruct (civil_from_days day1) as [[y1 m1] d1], (civil_from_days day2) as [[y2 m2] d2].
  rewrite E1, E2. intros H. apply app_inv_head in H.
  destruct B1 as [Bm1 Bd1], B2 as [Bm2 Bd2].
  pose proof (proj1 (padStart2_two_digits m1 ltac:(lia))) as Lm1.
  pose proof (proj1 (padStart2_two_digits m2 ltac:(lia))) as Lm2.
  pose proof (proj1 (padStart2_two_digits d1 ltac:(lia))) as Ld1.
  pose proof (proj1 (padStart2_two_digits d2 ltac:(lia))) as Ld2.
  assert (Hlen : length (String_of_Z y1) = length (String_of_Z y2)).
  { apply (f_equal length) in H. rewrite !length_app, Lm1, Lm2, Ld1, Ld2 in H. lia. }
  apply app_inj_1 in H as [Hy H]; [|exact Hlen].
  apply app_inj_1 in H as [Hm H]; [|congruence].
  apply app_inj_1 in H as [Hd _]; [|congruence].
  apply String_of_Z_inj in Hy.
  apply (f_equal digits_value) in Hm, Hd.
  rewrite !padStart2_value in Hm, Hd by lia.
  subst. destruct R1 as [R1 _], R2 as [R2 _]. congruence.
Qed.

(** X18.  [getLogFilePath] names one file per calendar day: two dates give
    the same path exactly when they fall on the same day.  The path is
    [logs/] followed by the year, two digits for the month, two digits for
    the day of the month and [.txt]. *)
Theorem getLogFilePath_one_file_per_day d1 d2 :
  (getLogFilePath d1 = getLogFilePath d2 <-> Day (localTime d1) = Day (localTime d2))
  /\ exists mm dd,
      getLogFilePath d1
      = str "logs/" ++ String_of_Z (getFullYear d1) ++ mm ++ dd ++ str ".txt"
      /\ length mm = 2%nat /\ length dd = 2%nat
      /\ Forall (fun c => is_digit c = true) (mm ++ dd)
      /\ digits_value mm = getMonth d1 + 1
      /\ digits_value dd = getDate d1.
Proof.
  split.
  - rewrite !getLogFilePath_day. split; [apply day_partition_inj | congruence].
  - rewrite getLogFilePath_day.
    pose proof (day_partition_eq (Day (localTime d1))) as E.
    pose proof (civil_from_days_bounds (Day (localTime d1))) as B.
    unfold getFullYear, getMonth, getDate.
    destruct (civil_from_days (Day (localTime d1))) as [[y m] d]. cbn [fst snd].
    destruct B as [Bm Bd].
    exists (padStart2 (String_of_Z m)), (padStart2 (String_of_Z d)).
    split; [exact E|].
    split; [apply padStart2_two_digits; lia|]. split; [apply padStart2_two_digits; lia|].
    split; [apply Forall_app; split; apply padStart2_two_digits; lia|].
    rewrite !padStart2_value by lia. split; lia.
Qed.

(** ** The log store: what the two searches answer *)

(** *** The partitions by name *)

Lemma padStart2_digits n : 0 <= n <= 31 -> padStart2 (String_of_Z n) = two_digits n.
Proof.
  intros Hn.
  assert (H : forallb (fun k => bool_decide (padStart2 (String_of_Z (Z.of_nat k))
                                             = two_digits (Z.of_nat k)))
                (seq 0 32) = true) by (vm_compute; reflexivity).
  rewrite forallb_forall in H. specialize (H (Z.to_nat n)).
  rewrite Z2Nat.id in H by lia.
  apply bool_decide_eq_true in H; [exact H|]. apply in_seq. lia.
Qed.

Lemma day_partition_name day : day_partition day = partition_name day.
Proof.
  pose proof (day_partition_eq day) as E.
  pose proof (civil_from_days_bounds day) as B.
  unfold partition_name. destruct (civil_from_days day) as [[y m] d].
  destruct B as [Bm Bd]. rewrite E, !padStart2_digits by lia. reflexivity.
Qed.

Lemma partition_at_name env k : partition_at env k = partition_name (local_day env k).
Proof. rewrite partition_at_day. apply day_partition_name. Qed.

(** C8.  For every record handed to [saveLog], in every world: [saveLog]
    returns, whatever the file system answers to [mkdir] and [appendFile];
    a refusal is reported on [console.error] and leaves the files as they
    were; when nothing is refused the line of the record is appended to the
    partition [logs/YYYYMMDD.txt] of the local day of the clock reading
    taken at that call.  For a run: [deployApp] returns too, so nothing
    reaches its caller or ends the process; its record, and so the status of
    the run, is the same under any other answers of the file system; and the
    reading that names the partition is taken after the one of
    [startTime]. *)
Theorem saveLog_failure_contained env w deployId appName en config :
  (forall l w0,
     let w1 := (saveLog l env w0).2 in
     (saveLog l env w0).1 = Returned tt
     /\ files w1 =
          (let p := partition_name (local_day env (clock w0)) in
           if persist_ok env w0
           then <[p := default [] (files w0 !! p) ++ logLine l]> (files w0)
           else files w0)
     /\ (forall m, mkdir_error env = Some m ->
           In (FailedToCreateLogsDir (JsError m)) (console_error w1))
     /\ (forall m, appendFile_error env = Some m ->
           In (FailedToSaveLog (JsError m)) (console_error w1))
     /\ (persist_ok env w0 = false ->
           exists err, In (FailedToSaveLog err) (console_error w1)))
  /\ exists r w',
      deployApp deployId appName en config env w = (Returned r, w')
      /\ (forall m a,
            (deployApp deployId appName en config (set_faults m a env) w).1 = Returned r)
      /\ files w' =
           (let p := partition_name (local_day env (pred (clock w'))) in
            if persist_ok env w
            then <[p := default [] (files w !! p) ++ logLine r]> (files w)
            else files w)
      /\ log_startTime r = now env (S (clock w))
      /\ (S (clock w) < pred (clock w'))%nat.
Proof.
  split.
  { intros l w0 w1. subst w1.
    destruct (saveLog_reports l env w0) as (Hm & Ha & Hp).
    split; [apply saveLog_returns|].
    split; [rewrite <- partition_at_name; apply saveLog_files|].
    split; [exact Hm|]. split; [exact Ha | exact Hp]. }
  set (key := running_key appName en).
  destruct (for_steps_general env deployId config (clock w) (cfg_steps config) 0
              (loop_world key w)
              (init_log deployId appName en config (now env (S (clock w)))))
    as (out & calls & results & reports & Heq & _).
  destruct (deployApp_unfold env w deployId appName en config _ _ _ Heq) as [Hd _].
  rewrite Hd. eexists _, _. split; [reflexivity|].
  split.
  { intros m a.
    pose proof (for_steps_faults m a env deployId (now env (clock w)) config
                  (cfg_steps config) 0
                  (loop_world key w,
                   init_log deployId appName en config (now env (S (clock w))))) as Hf.
    rewrite Heq in Hf.
    destruct (deployApp_unfold (set_faults m a env) w deployId appName en config _ _ _ Hf)
      as [Hd' _].
    rewrite Hd'. reflexivity. }
  match goal with
  | |- context [saveLog ?l env ?w3] =>
      destruct (saveLog_frame l env w3) as (_ & _ & Hc & _);
      pose proof (saveLog_files l env w3) as Hfiles
  end.
  rewrite Hc. split.
  { rewrite Hfiles, <- partition_at_name. reflexivity. }
  split.
  { destruct out; reflexivity. }
  simpl. lia.
Qed.

(** The partition that a record saved at 23:59:59 of 2023-12-31 goes to,
    local time being UTC: the one of that day, by name. *)
Lemma saveLog_partition_example :
  files (saveLog ex_record
           {| now := fun _ => 1704067199000; localTZA := fun _ => 0; exec := exec ex_env;
              exec_TypeError := ex_TypeError; inherited_truthy := ex_inherited;
              mkdir_error := None; appendFile_error := None |} ex_world).2
  !! str "logs/20231231.txt"
  = Some (str "old-prod-7: []" ++ [LF] ++ logLine ex_record).
Proof. vm_compute. reflexivity. Qed.

(** *** A partition read line by line *)













(** C6.  The code at a failing input.  The handler takes a new reading of
    the clock in every round of the search, so the window of today and the
    seven days before it is not searched when midnight passes during the
    request.  A request arrives one second before midnight: its first
    reading of the clock falls on 2023-12-31 (day 19722), the later ones on
    2024-01-01 (day 19723).  The id [ancient-prod-8] is in the partition of
    seven days before the day on which the request arrived, and the id
    [web-prod-1] is in the partition of the day on which the search went
    on: each is inside the window of one of the two days, and each is
    answered 404.  The search visits the partition of 2023-12-31 twice and
    neither of these two. *)
Theorem findById_across_midnight :
  local_day ex_env_midnight (clock ex_world) = 19722
  /\ Forall (fun i => local_day ex_env_midnight (clock ex_world + i) = 19723)
            [1; 2; 3; 4; 5; 6; 7]%nat
  /\ holds_lines ex_world (partition_name (19722 - 7)) [RecordLine (ex_stored "ancient-prod-8")]
  /\ (get_webhook_deploy_log_by_id (str "ancient-prod-8") ex_env_midnight ex_world).1
     = Returned {| statusCode := 404; payload := LogNotFound |}
  /\ holds_lines ex_world (partition_name 19723) ex_lines
  /\ record_with_id (str "web-prod-1") ex_lines = Some (ex_stored "web-prod-1")
  /\ (get_webhook_deploy_log_by_id (str "web-prod-1") ex_env_midnight ex_world).1
     = Returned {| statusCode := 404; payload := LogNotFound |}.
Proof.
  split; [vm_compute; reflexivity|]. split.
  { repeat (apply List.Forall_cons; [vm_compute; reflexivity|]). apply List.Forall_nil. }
  split; [split; vm_compute; reflexivity|]. split; [vm_compute; reflexivity|].
  split; [split; vm_compute; reflexivity|]. split; vm_compute; reflexivity.
Qed.


(** [path.join] resolves the [..] of a [date]: the query for
    [../logs/20240101] reads the partition of 2024-01-01. *)
Lemma query_date_is_normalised :
  path_join LOGS_DIR (str "../logs/20240101" ++ str ".txt") = partition_name 19723
  /\ exists logs,
       (get_webhook_deploy_log None None None (Some (str "../logs/20240101"))
          ex_env ex_world).1
       = Returned {| statusCode := 200;
                     payload := LogList logs 3 None None (Some (str "../logs/20240101")) |}
       /\ length logs = 3%nat.
Proof.
  split; [vm_compute; reflexivity|].
  eexists. split; [vm_compute; reflexivity | reflexivity].
Qed.

(** *** The search by id on any day *)





(** ** The configuration: [loadConfig] *)

Lemma for_of_pure {St A} (ok : A -> bool) (body : A -> M St unit) (l : list A) env s :
  (forall x, exists e, body x env s = (if ok x then Returned tt else Thrown e, s)) ->
  exists e, for_of l body env s = (if forallb ok l then Returned tt else Thrown e, s).
Proof.
  intros Hbody. induction l as [|x l [e IH]]; [exists (JsError []); reflexivity|].
  destruct (Hbody x) as [e' Hx]. cbn [for_of forallb].
  unfold mbind, M_bind. rewrite Hx. destruct (ok x); simpl.
  - exists e. exact IH.
  - exists e'. reflexivity.
Qed.

Lemma check_env_eq appName entry env s :
  exists e, check_env appName entry env s
            = (if valid_env entry.2 then Returned tt else Thrown e, s).
Proof.
  unfold check_env, valid_env. destruct entry as [envName envConfig]. cbn [fst snd].
  destruct envConfig as [|b|n|t|items|members];
    try (eexists; reflexivity).
  unfold prop. cbn [lookup_prop]. cbv [mbind M_bind mret M_ret throw].
  set (p := yaml_lookup (str "path") members).
  set (st := yaml_lookup (str "steps") members).
  destruct (truthy_value p); cbn [negb andb]; [|eexists; reflexivity].
  destruct st as [[|b|n|t|[|x items]|ms]|]; cbn [truthy_value isArray negb orb];
    try (eexists; reflexivity).
  - destruct b; eexists; reflexivity.
  - destruct (n =? 0); eexists; reflexivity.
  - destruct t; eexists; reflexivity.
  - exists (JsError []). cbn [array_length].
    destruct (Z.of_nat (length (x :: items)) =? 0) eqn:E; [|reflexivity].
    apply Z.eqb_eq in E. simpl length in E. lia.
Qed.

Lemma check_app_eq entry env s :
  exists e, check_app entry env s = (if valid_app entry.2 then Returned tt else Thrown e, s).
Proof.
  unfold check_app, valid_app. destruct entry as [appName envs]. cbn [fst snd].
  destruct envs as [|b|n|t|items|members];
    [eexists; reflexivity | exists (JsError []); reflexivity
    | exists (JsError []); reflexivity | | |];
    unfold Object_entries; cbv [mbind M_bind mret M_ret];
    apply (for_of_pure (fun entry => valid_env entry.2)); intros x; apply check_env_eq.
Qed.

Ltac refute_valid Hload :=
  let c := fresh "c" in let d := fresh "d" in
  let H1 := fresh "H" in let H2 := fresh "H" in let H3 := fresh "H" in
  intros (c & d & H1 & H2 & H3);
  try discriminate H1; injection H1 as <-;
  try rewrite Hload in H2;
  try discriminate H2; injection H2 as <-;
  try discriminate H3.

(** The error that [loadConfig] ends with, if any, and the globals it
    leaves. *)
Lemma loadConfig_eq yaml_load env w g :
  exists out g',
    loadConfig yaml_load env (w, g) = (out, (w, g'))
    /\ (out = Returned tt <->
        exists content doc,
          files w !! CONFIG_FILE = Some content /\ yaml_load content = Returned doc
          /\ valid_config doc = true)
    /\ (out = Returned tt -> g_console g' = g_console g)
    /\ (forall e, out = Thrown e ->
          g_console g' = g_console g ++ [FailedToLoadConfig (exn_message e)])
    /\ match files w !! CONFIG_FILE with
       | None => g_config g' = g_config g /\ g_APPS g' = g_APPS g
       | Some content =>
           match yaml_load content with
           | Thrown _ => g_config g' = g_config g /\ g_APPS g' = g_APPS g
           | Returned doc =>
               g_config g' = doc
               /\ g_APPS g' = match doc with
                              | None | Some YNull => g_APPS g
                              | Some y => value_or (lookup_prop y "apps") (Some (YMap []))
                              end
           end
       end.
Proof.
  cbv [loadConfig try_catch mbind M_bind mret M_ret lift fs.readFile gets set_local modify
       throw config_error fst snd].
  destruct (files w !! CONFIG_FILE) as [content|] eqn:Hfile.
  2:{ eexists _, _. split; [reflexivity|]. split.
      { split; [discriminate | refute_valid Hfile]. }
      split; [discriminate|]. split; [intros e [= <-]; reflexivity|]. split; reflexivity. }
  destruct (yaml_load content) as [doc|e0] eqn:Hload.
  2:{ eexists _, _. split; [reflexivity|]. split.
      { split; [discriminate | refute_valid Hload]. }
      split; [discriminate|]. split; [intros e [= <-]; reflexivity|]. split; reflexivity. }
  destruct doc as [y|].
  2:{ eexists _, _. split; [reflexivity|]. split.
      { split; [discriminate | refute_valid Hload]. }
      split; [discriminate|]. split; [intros e [= <-]; reflexivity|]. split; reflexivity. }
  assert (Hnull : y = YNull \/ y <> YNull) by (destruct y; auto; right; discriminate).
  destruct Hnull as [->|Hy].
  { eexists _, _. split; [reflexivity|]. split.
    { split; [discriminate | refute_valid Hload]. }
    split; [discriminate|]. split; [intros e [= <-]; reflexivity|]. split; reflexivity. }
  assert (Hprop : forall k s, @prop (World * Globals) (Some y) k env s
                              = (Returned (lookup_prop y k), s)).
  { intros k s. destruct y; try reflexivity. congruence. }
  cbn [g_config set_g_config]. rewrite Hprop. cbv beta iota zeta.
  cbn [g_config g_APPS set_g_APPS]. rewrite Hprop. cbv beta iota zeta.
  assert (Hvalid : valid_config (Some y)
                   = truthy_value (lookup_prop y "shellPath")
                     && match value_or (lookup_prop y "apps") (Some (YMap [])) with
                        | Some apps => forallb (fun entry => valid_app entry.2) (own_entries apps)
                        | None => false
                        end).
  { destruct y; reflexivity. }
  assert (Hg : match y with
               | YNull => g_APPS g
               | _ => value_or (lookup_prop y "apps") (Some (YMap []))
               end = value_or (lookup_prop y "apps") (Some (YMap []))).
  { destruct y; try reflexivity. congruence. }
  destruct (truthy_value (lookup_prop y "shellPath")) eqn:Hshell;
    cbn [negb]; cbv beta iota zeta; cbn [g_config g_APPS g_console set_g_APPS].
  2:{ eexists _, _. split; [reflexivity|]. split.
      { split; [discriminate|]. refute_valid Hload.
        match goal with H : valid_config _ = true |- _ => rewrite Hvalid in H; discriminate H end. }
      split; [discriminate|]. split; [intros e [= <-]; reflexivity|].
      simpl. split; [reflexivity | symmetry; exact Hg]. }
  set (apps := value_or (lookup_prop y "apps") (Some (YMap []))) in *.
  assert (Happs : truthy_value apps = true).
  { subst apps. unfold value_or.
    destruct (truthy_value (lookup_prop y "apps")) eqn:E; [exact E | reflexivity]. }
  destruct apps as [a|]; [|discriminate].
  assert (Hent : forall s, @Object_entries (World * Globals) (Some a) env s
                           = (Returned (own_entries a), s)).
  { intros s. destruct a; try reflexivity. discriminate. }
  rewrite Hent. cbv beta iota zeta.
  match goal with
  | |- context [for_of (own_entries a) check_app env ?s] =>
      destruct (for_of_pure (fun entry => valid_app entry.2) check_app (own_entries a) env s)
        as [e He]; [intros x; apply check_app_eq|]; rewrite He
  end.
  destruct (forallb (fun entry => valid_app entry.2) (own_entries a)) eqn:Hall;
    cbv beta iota zeta; cbn [g_config g_APPS g_console set_g_APPS].
  - eexists _, _. split; [reflexivity|]. split.
    { split; [intros _|reflexivity]. exists content, (Some y).
      split; [reflexivity|]. split; [exact Hload|]. rewrite Hvalid. reflexivity. }
    split; [reflexivity|]. split; [discriminate|].
    simpl. split; [reflexivity | symmetry; exact Hg].
  - eexists _, _. split; [reflexivity|]. split.
    { split; [discriminate|]. refute_valid Hload.
      match goal with H : valid_config _ = true |- _ => rewrite Hvalid in H; discriminate H end. }
    split; [discriminate|]. split; [intros e' [= <-]; reflexivity|].
    simpl. split; [reflexivity | symmetry; exact Hg].
Qed.

(** X19.  [loadConfig] returns exactly when the configuration file can be
    read, [yaml.load] gives a value for it, that value has a truthy
    [shellPath] and, in every app of [apps], every environment has a truthy
    [path] and a [steps] array that is not empty.  In every other case it
    throws. *)
Theorem loadConfig_accepts_valid_config yaml_load env w g :
  (loadConfig yaml_load env (w, g)).1 = Returned tt
  <-> exists content doc,
        files w !! CONFIG_FILE = Some content /\ yaml_load content = Returned doc
        /\ valid_config doc = true.
Proof.
  destruct (loadConfig_eq yaml_load env w g) as (out & g' & Heq & Hiff & _).
  rewrite Heq. exact Hiff.
Qed.

(** X20.  A configuration that [loadConfig] refuses stays: when the document
    that [yaml.load] gives is not valid, [loadConfig] throws, but [config]
    is this document and [APPS] its [apps] from then on; the message of the
    error is written on the console. *)
Theorem loadConfig_not_rolled_back yaml_load env w g content y :
  files w !! CONFIG_FILE = Some content ->
  yaml_load content = Returned (Some y) ->
  y <> YNull ->
  valid_config (Some y) = false ->
  exists e g',
    loadConfig yaml_load env (w, g) = (Thrown e, (w, g'))
    /\ g_config g' = Some y
    /\ g_APPS g' = value_or (lookup_prop y "apps") (Some (YMap []))
    /\ g_console g' = g_console g ++ [FailedToLoadConfig (exn_message e)].
Proof.
  intros Hfile Hload Hy Hv.
  destruct (loadConfig_eq yaml_load env w g) as (out & g' & Heq & Hiff & _ & Hcon & Hg).
  rewrite Hfile, Hload in Hg. destruct Hg as [Hc Ha].
  destruct out as [[]|e].
  - destruct Hiff as [Hiff _]. destruct (Hiff eq_refl) as (c & d & H1 & H2 & H3).
    congruence.
  - exists e, g'. split; [exact Heq|]. split; [exact Hc|]. split.
    + rewrite Ha. destruct y; try reflexivity. congruence.
    + apply Hcon. reflexivity.
Qed.

Lemma loadConfig_not_rolled_back_witness :
  (files (ex_config_world "apps: {}") !! CONFIG_FILE = Some (str "apps: {}")
   /\ ex_yaml_load (str "apps: {}") = Returned (Some (YMap [(str "apps", YMap [])]))
   /\ YMap [(str "apps", YMap [])] <> YNull
   /\ valid_config (Some (YMap [(str "apps", YMap [])])) = false)
  /\ exists e g',
      loadConfig ex_yaml_load ex_env (ex_config_world "apps: {}", ex_globals)
      = (Thrown e, (ex_config_world "apps: {}", g'))
      /\ g_config g' = Some (YMap [(str "apps", YMap [])])
      /\ g_config ex_globals = ex_yaml.
Proof.
  assert (Hn : YMap [(str "apps", YMap [])] <> YNull) by discriminate.
  split; [repeat split; try (vm_compute; reflexivity); exact Hn|].
  destruct (loadConfig_not_rolled_back ex_yaml_load ex_env (ex_config_world "apps: {}")
              ex_globals (str "apps: {}") (YMap [(str "apps", YMap [])]))
    as (e & g' & Heq & Hc & _); try (vm_compute; reflexivity); [exact Hn|].
  exists e, g'. split; [exact Heq|]. split; [exact Hc | reflexivity].
Defined.

(** ** The reload, the start of the server and [authMiddleware] *)

Lemma valid_config_object doc :
  valid_config doc = true ->
  exists y apps,
    doc = Some y /\ y <> YNull
    /\ value_or (lookup_prop y "apps") (Some (YMap [])) = Some apps /\ apps <> YNull.
Proof.
  destruct doc as [y|]; [|discriminate]. intros Hv.
  assert (Hy : y <> YNull) by (intros ->; discriminate).
  assert (Ht : truthy_value (value_or (lookup_prop y "apps") (Some (YMap []))) = true).
  { unfold value_or. destruct (truthy_value (lookup_prop y "apps")) eqn:E; [exact E | reflexivity]. }
  destruct (value_or (lookup_prop y "apps") (Some (YMap []))) as [apps|] eqn:E; [|discriminate].
  exists y, apps. split; [reflexivity|]. split; [exact Hy|]. split; [exact E|].
  intros ->. discriminate.
Qed.

(** What is left of the globals after a [loadConfig] that returns. *)
Lemma loadConfig_returns yaml_load env w g :
  config_accepted yaml_load w ->
  exists y apps g',
    loadConfig yaml_load env (w, g) = (Returned tt, (w, g'))
    /\ y <> YNull /\ apps <> YNull
    /\ g_config g' = Some y /\ g_APPS g' = Some apps
    /\ value_or (lookup_prop y "apps") (Some (YMap [])) = Some apps
    /\ g_console g' = g_console g.
Proof.
  intros Hacc.
  destruct (loadConfig_eq yaml_load env w g) as (out & g' & Heq & Hiff & Hcon & _ & Hg).
  destruct Hiff as [_ Hiff]. specialize (Hiff Hacc). subst out.
  destruct Hacc as (content & doc & Hfile & Hload & Hv).
  rewrite Hfile, Hload in Hg.
  destruct (valid_config_object doc Hv) as (y & apps & -> & Hy & Happs & Ha).
  destruct Hg as [Hc HA].
  exists y, apps, g'. split; [exact Heq|]. split; [exact Hy|]. split; [exact Ha|].
  split; [exact Hc|]. split.
  - rewrite HA, <- Happs. destruct y; try reflexivity. congruence.
  - split; [exact Happs | exact (Hcon eq_refl)].
Qed.

Lemma loadConfig_throws yaml_load env w g :
  ~ config_accepted yaml_load w ->
  exists e g', loadConfig yaml_load env (w, g) = (Thrown e, (w, g')).
Proof.
  intros Hno.
  destruct (loadConfig_eq yaml_load env w g) as (out & g' & Heq & Hiff & _).
  destruct out as [[]|e].
  - exfalso. apply Hno, Hiff. reflexivity.
  - exists e, g'. exact Heq.
Qed.

(** X21.  The reload always answers.  When the configuration is accepted it
    answers 200 with the names of the apps of the new [APPS] and the reading
    of the clock; otherwise it answers 500.  It changes no file. *)
Theorem post_reload_config_answers yaml_load env w g :
  exists res w' g',
    post_reload_config yaml_load env (w, g) = (Returned res, (w', g'))
    /\ only_observes w w'
    /\ (config_accepted yaml_load w ->
        exists apps,
          g_APPS g' = Some apps
          /\ res = {| reload_status := 200;
                      reload_payload := ConfigReloaded (map fst (own_entries apps))
                                          (now env (clock w)) |})
    /\ (~ config_accepted yaml_load w ->
        exists details,
          res = {| reload_status := 500; reload_payload := FailedToReloadConfig details |}).
Proof.
  assert (Hdec : config_accepted yaml_load w \/ ~ config_accepted yaml_load w).
  { destruct (loadConfig_eq yaml_load env w g) as (out & g' & _ & Hiff & _).
    destruct out as [[]|e]; [left; apply Hiff; reflexivity|].
    right. intros H. apply Hiff in H. discriminate. }
  unfold post_reload_config, try_catch at 1. unfold mbind at 1, M_bind at 1.
  destruct Hdec as [Hacc|Hno].
  - destruct (loadConfig_returns yaml_load env w g Hacc)
      as (y & apps & g' & Heq & Hy & Ha & Hc & HA & _).
    rewrite Heq. unfold Object_keys. run_monad. rewrite HA.
    assert (Hent : forall s, @Object_entries (World * Globals) (Some apps) env s
                             = (Returned (own_entries apps), s)).
    { intros s. destruct apps; try reflexivity. congruence. }
    rewrite Hent. eexists _, _, _. split; [reflexivity|].
    split; [repeat split|]. split.
    + intros _. exists apps. split; [exact HA | reflexivity].
    + intros Hno. contradiction.
  - destruct (loadConfig_throws yaml_load env w g Hno) as (e & g' & Heq).
    rewrite Heq. eexists _, _, _. split; [reflexivity|].
    split; [apply only_observes_refl|]. split; [intros Hacc; contradiction|].
    intros _. eexists. reflexivity.
Qed.

(** X22.  The server listens exactly when the configuration is accepted and
    [app.listen] takes the port: then it listens on [config.port], or on
    3001 when [port] is missing or falsy.  Otherwise the process exits with
    code 1 after the error has been written to the console: the error of
    [loadConfig], or the one that [app.listen] throws for the port of an
    accepted configuration (a port out of range). *)
Theorem startup_listens_on_valid_config yaml_load app_listen env w g :
  exists res g',
    startup yaml_load app_listen env (w, g) = (Returned res, (w, g'))
    /\ (config_accepted yaml_load w ->
        exists y,
          g_config g' = Some y
          /\ let PORT := value_or (lookup_prop y "port") (Some (YInt 3001)) in
             match app_listen PORT with
             | Returned _ => res = Listening PORT /\ g_console g' = g_console g
             | Thrown err =>
                 res = Exited 1
                 /\ g_console g' = g_console g ++ [FailedToStartServer err]
             end)
    /\ (~ config_accepted yaml_load w ->
        res = Exited 1
        /\ exists err, last (g_console g') = Some (FailedToStartServer err)).
Proof.
  assert (Hdec : config_accepted yaml_load w \/ ~ config_accepted yaml_load w).
  { destruct (loadConfig_eq yaml_load env w g) as (out & g' & _ & Hiff & _).
    destruct out as [[]|e]; [left; apply Hiff; reflexivity|].
    right. intros H. apply Hiff in H. discriminate. }
  unfold startup, try_catch at 1. unfold mbind at 1, M_bind at 1.
  destruct Hdec as [Hacc|Hno].
  - destruct (loadConfig_returns yaml_load env w g Hacc)
      as (y & apps & g' & Heq & Hy & Ha & Hc & HA & _ & Hcon).
    rewrite Heq. unfold listen. run_monad. rewrite Hc.
    assert (Hprop : forall k s, @prop (World * Globals) (Some y) k env s
                                = (Returned (lookup_prop y k), s)).
    { intros k s. destruct y; try reflexivity. congruence. }
    rewrite Hprop.
    destruct (app_listen (value_or (lookup_prop y "port") (Some (YInt 3001))))
      as [[]|err] eqn:El.
    + eexists _, _. split; [reflexivity|]. split; [|intros Hno; contradiction].
      intros _. exists y. split; [exact Hc|]. cbv zeta. rewrite El.
      split; [reflexivity | exact Hcon].
    + unfold config_error. run_monad.
      eexists _, _. split; [reflexivity|]. split; [|intros Hno; contradiction].
      intros _. exists y. split; [exact Hc|]. cbv zeta. rewrite El. simpl.
      split; [reflexivity|]. rewrite Hcon. reflexivity.
  - destruct (loadConfig_throws yaml_load env w g Hno) as (e & g' & Heq).
    rewrite Heq. unfold config_error. run_monad. eexists _, _. split; [reflexivity|].
    split; [intros Hacc; contradiction|]. split; [reflexivity|].
    exists e. simpl. apply last_snoc.
Qed.

(** The port 70000 in a configuration that [loadConfig] accepts:
    [app.listen] throws, the error is written and the process exits with 1. *)
Lemma startup_port_out_of_range :
  config_accepted (fun _ => Returned (Some ex_yaml_port)) (ex_config_world "README")
  /\ exists g',
       startup (fun _ => Returned (Some ex_yaml_port)) ex_listen ex_env
         (ex_config_world "README", initial_globals)
       = (Returned (Exited 1), (ex_config_world "README", g'))
       /\ g_config g' = Some ex_yaml_port
       /\ g_console g' = [FailedToStartServer (JsError (str "ERR_SOCKET_BAD_PORT"))].
Proof.
  split.
  - exists (str "README"), (Some ex_yaml_port).
    split; [vm_compute; reflexivity|]. split; reflexivity.
  - eexists. split; [vm_compute; reflexivity|]. split; reflexivity.
Qed.

(** *** [authMiddleware] *)

Lemma starts_with_app p x : starts_with p (p ++ x) = true.
Proof. unfold starts_with. rewrite take_app_length. apply bool_decide_eq_true_2. reflexivity. Qed.

Lemma replace_first_prefix p r x : replace_first p r (p ++ x) = r ++ x.
Proof.
  destruct (p ++ x) as [|c rest] eqn:E; simpl.
  - rewrite <- E at 1. rewrite starts_with_app. rewrite <- E, drop_app_length. reflexivity.
  - rewrite <- E at 1. rewrite starts_with_app. rewrite <- E, drop_app_length. reflexivity.
Qed.

Lemma replace_first_absent p r s : includes s p = false -> replace_first p r s = s.
Proof.
  induction s as [|c s IH]; simpl; intros H.
  - apply orb_false_elim in H as [-> _]. reflexivity.
  - apply orb_false_elim in H as [-> H]. rewrite (IH H). reflexivity.
Qed.

Lemma authMiddleware_eq authorization env w g y :
  g_config g = Some y -> y <> YNull ->
  authMiddleware authorization env (w, g)
  = (Returned (if same_token (replace_first (str "Bearer ") [] <$> authorization)
                    (lookup_prop y "authToken")
               then Next else Unauthorized), (w, g)).
Proof.
  intros Hc Hy. unfold authMiddleware. cbv [mbind M_bind gets fst snd]. rewrite Hc.
  assert (Hprop : forall k s, @prop (World * Globals) (Some y) k env s
                              = (Returned (lookup_prop y k), s)).
  { intros k s. destruct y; try reflexivity. congruence. }
  rewrite Hprop. destruct (same_token _ _); reflexivity.
Qed.

(** X23.  With a string [authToken] in the configuration: a header
    [Bearer x] passes exactly when [x] is the token; a header without the
    text [Bearer ] passes exactly when it is the token itself, so the scheme
    is not required; a request without the header is answered 401.  The
    middleware changes nothing. *)
Theorem authMiddleware_accepts_the_token env w g y token :
  g_config g = Some y -> lookup_prop y "authToken" = Some (YStr token) ->
  (forall x,
     authMiddleware (Some (str "Bearer " ++ x)) env (w, g)
     = (Returned (if bool_decide (x = token) then Next else Unauthorized), (w, g)))
  /\ (forall h,
        includes h (str "Bearer ") = false ->
        authMiddleware (Some h) env (w, g)
        = (Returned (if bool_decide (h = token) then Next else Unauthorized), (w, g)))
  /\ authMiddleware None env (w, g) = (Returned Unauthorized, (w, g)).
Proof.
  intros Hc Htok.
  assert (Hy : y <> YNull) by (intros ->; discriminate).
  split; [|split].
  - intros x. rewrite (authMiddleware_eq _ env w g y Hc Hy), Htok. cbn [fmap option_fmap option_map].
    rewrite replace_first_prefix. reflexivity.
  - intros h Hh. rewrite (authMiddleware_eq _ env w g y Hc Hy), Htok.
    cbn [fmap option_fmap option_map]. rewrite replace_first_absent by exact Hh. reflexivity.
  - rewrite (authMiddleware_eq _ env w g y Hc Hy), Htok. reflexivity.
Qed.

Lemma authMiddleware_accepts_the_token_witness :
  (g_config ex_globals = ex_yaml
   /\ lookup_prop (default YNull ex_yaml) "authToken" = Some (YStr (str "your-secure-token-here")))
  /\ authMiddleware (Some (str "Bearer your-secure-token-here")) ex_env (ex_world, ex_globals)
     = (Returned Next, (ex_world, ex_globals))
  /\ authMiddleware (Some (str "your-secure-token-here")) ex_env (ex_world, ex_globals)
     = (Returned Next, (ex_world, ex_globals))
  /\ authMiddleware (Some (str "Bearer wrong")) ex_env (ex_world, ex_globals)
     = (Returned Unauthorized, (ex_world, ex_globals)).
Proof.
  split; [split; reflexivity|].
  destruct (authMiddleware_accepts_the_token ex_env ex_world ex_globals (default YNull ex_yaml)
              (str "your-secure-token-here") eq_refl eq_refl) as (H1 & H2 & _).
  split; [exact (H1 (str "your-secure-token-here"))|].
  split; [exact (H2 (str "your-secure-token-here") eq_refl) | exact (H1 (str "wrong"))].
Defined.

(** X24.  With no [authToken] in the configuration, exactly the requests
    without an [Authorization] header pass: [undefined !== undefined] is
    false. *)
Theorem authMiddleware_without_authToken env w g y :
  g_config g = Some y -> y <> YNull -> lookup_prop y "authToken" = None ->
  forall authorization,
    authMiddleware authorization env (w, g)
    = (Returned (match authorization with None => Next | Some _ => Unauthorized end), (w, g)).
Proof.
  intros Hc Hy Htok authorization.
  rewrite (authMiddleware_eq _ env w g y Hc Hy), Htok. destruct authorization; reflexivity.
Qed.

Lemma authMiddleware_without_authToken_witness :
  (g_config initial_globals = Some (YMap []) /\ YMap [] <> YNull
   /\ lookup_prop (YMap []) "authToken" = None)
  /\ authMiddleware None ex_env (ex_world, initial_globals)
     = (Returned Next, (ex_world, initial_globals))
  /\ authMiddleware (Some (str "Bearer x")) ex_env (ex_world, initial_globals)
     = (Returned Unauthorized, (ex_world, initial_globals)).
Proof.
  assert (Hn : YMap [] <> YNull) by discriminate.
  split; [split; [reflexivity|]; split; [exact Hn | reflexivity]|].
  split.
  - exact (authMiddleware_without_authToken ex_env ex_world initial_globals (YMap [])
             eq_refl Hn eq_refl None).
  - exact (authMiddleware_without_authToken ex_env ex_world initial_globals (YMap [])
             eq_refl Hn eq_refl (Some (str "Bearer x"))).
Defined.

(** X25.  When [yaml.load] gives [undefined] or [null] for the configuration
    file, as for an empty document, the reload answers 500, [config] is that
    value from then on, and [authMiddleware] throws for every request. *)
Theorem reload_of_empty_document_breaks_auth yaml_load env w g content doc :
  files w !! CONFIG_FILE = Some content ->
  yaml_load content = Returned doc ->
  nullish doc = true ->
  exists details w' g',
    post_reload_config yaml_load env (w, g)
    = (Returned {| reload_status := 500; reload_payload := FailedToReloadConfig details |},
       (w', g'))
    /\ g_config g' = doc
    /\ forall authorization env', exists e,
         authMiddleware authorization env' (w', g') = (Thrown e, (w', g')).
Proof.
  intros Hfile Hload Hnull.
  assert (Hdoc : doc = None \/ doc = Some YNull).
  { destruct doc as [[| | | | |]|]; try discriminate; auto. }
  assert (Hno : ~ config_accepted yaml_load w).
  { intros (c & d & H1 & H2 & H3). rewrite Hfile in H1. injection H1 as <-.
    rewrite Hload in H2. injection H2 as <-. destruct Hdoc as [->| ->]; discriminate. }
  destruct (loadConfig_eq yaml_load env w g) as (out & g' & Heq & Hiff & _ & _ & Hg).
  rewrite Hfile, Hload in Hg. destruct Hg as [Hc _].
  destruct out as [[]|e]; [exfalso; apply Hno, Hiff; reflexivity|].
  unfold post_reload_config, try_catch at 1. unfold mbind at 1, M_bind at 1. rewrite Heq.
  eexists _, w, g'. split; [reflexivity|]. split; [exact Hc|].
  intros authorization env'. unfold authMiddleware. cbv [mbind M_bind gets fst snd].
  rewrite Hc. destruct Hdoc as [->| ->]; eexists; reflexivity.
Qed.

Lemma reload_of_empty_document_breaks_auth_witness :
  (files (ex_config_world "") !! CONFIG_FILE = Some []
   /\ ex_yaml_load [] = Returned None
   /\ nullish None = true)
  /\ exists details w' g',
      post_reload_config ex_yaml_load ex_env (ex_config_world "", ex_globals)
      = (Returned {| reload_status := 500; reload_payload := FailedToReloadConfig details |},
         (w', g'))
      /\ exists e,
           authMiddleware (Some (str "Bearer your-secure-token-here")) ex_env (w', g')
           = (Thrown e, (w', g')).
Proof.
  split; [repeat split; vm_compute; reflexivity|].
  destruct (reload_of_empty_document_breaks_auth ex_yaml_load ex_env (ex_config_world "")
              ex_globals [] None eq_refl eq_refl eq_refl)
    as (details & w' & g' & Heq & _ & Hauth).
  exists details, w', g'. split; [exact Heq|].
  exact (Hauth (Some (str "Bearer your-secure-token-here")) ex_env).
Defined.

(** ** The ids of the runs and the guard *)

(** X26.  Two accepted triggers for the same app and environment get the
    same [deployId] exactly when they read the same value from the clock. *)
Theorem deployId_repeats_only_with_the_clock appName en env1 w1 env2 w2 :
  accepts w1 (Some appName) (Some en) ->
  accepts w2 (Some appName) (Some en) ->
  exists id1 id2,
    started_deployId (post_webhook_deploy (Some appName) (Some en) env1 w1).1 = Some id1
    /\ started_deployId (post_webhook_deploy (Some appName) (Some en) env2 w2).1 = Some id2
    /\ (id1 = id2 <-> now env1 (clock w1) = now env2 (clock w2)).
Proof.
  intros H1 H2.
  destruct (post_webhook_deploy_eq (Some appName) (Some en) env1 w1)
    as [[Hno _]|(a1 & e1 & envs1 & c1 & Ha1 & He1 & _ & _ & _ & _ & _ & Heq1)];
    [contradiction|].
  destruct (post_webhook_deploy_eq (Some appName) (Some en) env2 w2)
    as [[Hno _]|(a2 & e2 & envs2 & c2 & Ha2 & He2 & _ & _ & _ & _ & _ & Heq2)];
    [contradiction|].
  simplify_eq. rewrite Heq1, Heq2. eexists _, _. split; [reflexivity|]. split; [reflexivity|].
  split.
  - intros H. apply app_inv_head in H. injection H as H.
    apply app_inv_head in H. injection H as H. apply String_of_Z_inj, H.
  - intros ->. reflexivity.
Qed.

Lemma deployId_repeats_only_with_the_clock_witness :
  (accepts ex_world (Some (str "a-b")) (Some (str "c"))
   /\ accepts (set_clock 1 ex_world) (Some (str "a-b")) (Some (str "c")))
  /\ exists id1 id2,
      started_deployId (post_webhook_deploy (Some (str "a-b")) (Some (str "c"))
                          ex_env ex_world).1 = Some id1
      /\ started_deployId (post_webhook_deploy (Some (str "a-b")) (Some (str "c"))
                             ex_env (set_clock 1 ex_world)).1 = Some id2
      /\ (id1 = id2 <-> now ex_env (clock ex_world) = now ex_env (clock (set_clock 1 ex_world))).
Proof.
  assert (Hfree : running_key (str "a-b") (str "c") ∉ running ex_world).
  { apply (bool_decide_unpack _). vm_compute. exact I. }
  assert (H1 : accepts ex_world (Some (str "a-b")) (Some (str "c"))).
  { exists (str "a-b"), (str "c"), {[ str "c" := ex_config_ok ]}, ex_config_ok.
    split; [reflexivity|]. split; [reflexivity|]. split; [discriminate|].
    split; [discriminate|]. split; [reflexivity|]. split; [reflexivity | exact Hfree]. }
  assert (H2 : accepts (set_clock 1 ex_world) (Some (str "a-b")) (Some (str "c"))).
  { exists (str "a-b"), (str "c"), {[ str "c" := ex_config_ok ]}, ex_config_ok.
    split; [reflexivity|]. split; [reflexivity|]. split; [discriminate|].
    split; [discriminate|]. split; [reflexivity|]. split; [reflexivity | exact Hfree]. }
  split; [split; assumption|].
  exact (deployId_repeats_only_with_the_clock (str "a-b") (str "c") ex_env ex_world ex_env
           (set_clock 1 ex_world) H1 H2).
Defined.

(** X27.  The guard does not outlive the run: after an accepted trigger and
    its run, the same trigger is accepted again. *)
Theorem trigger_can_be_repeated body_app body_env env w :
  accepts w body_app body_env ->
  exists res w',
    post_webhook_deploy body_app body_env env w = (Returned res, w')
    /\ statusCode res = 200
    /\ accepts w' body_app body_env.
Proof.
  intros Hacc.
  destruct (post_webhook_deploy_eq body_app body_env env w)
    as [[Hno _]|(appName & en & envs & config & Ha & He & Hna & Hne & Hap & Hen & Hfree & Heq)];
    [contradiction|].
  cbv zeta in Heq.
  destruct (deployApp_anatomy env (set_clock (S (S (clock w))) w)
              (appName ++ "-"%char :: en ++ "-"%char :: String_of_Z (now env (clock w)))
              appName en config)
    as (out & calls & results & reports & Hd & _ & _ & (HA & _ & HR & _) & _).
  rewrite Hd in Heq. cbn [snd] in Heq.
  eexists _, _. split; [exact Heq|]. split; [reflexivity|].
  exists appName, en, envs, config.
  split; [exact Ha|]. split; [exact He|]. split; [exact Hna|]. split; [exact Hne|].
  split; [rewrite HA; exact Hap|]. split; [exact Hen|].
  rewrite HR. intros [_ Hn]%elem_of_difference. apply Hn, elem_of_singleton. reflexivity.
Qed.

Lemma trigger_can_be_repeated_witness :
  accepts ex_world (Some (str "a-b")) (Some (str "c"))
  /\ exists res w',
      post_webhook_deploy (Some (str "a-b")) (Some (str "c")) ex_env ex_world
      = (Returned res, w')
      /\ statusCode res = 200
      /\ accepts w' (Some (str "a-b")) (Some (str "c")).
Proof.
  assert (Hfree : running_key (str "a-b") (str "c") ∉ running ex_world).
  { apply (bool_decide_unpack _). vm_compute. exact I. }
  assert (H1 : accepts ex_world (Some (str "a-b")) (Some (str "c"))).
  { exists (str "a-b"), (str "c"), {[ str "c" := ex_config_ok ]}, ex_config_ok.
    split; [reflexivity|]. split; [reflexivity|]. split; [discriminate|].
    split; [discriminate|]. split; [reflexivity|]. split; [reflexivity | exact Hfree]. }
  split; [exact H1|].
  exact (trigger_can_be_repeated (Some (str "a-b")) (Some (str "c")) ex_env ex_world H1).
Defined.

(** ** The errors of [loadConfig], and what is written for a step *)

(** *** The first environment that is not valid *)

Lemma for_of_first {St A} (body : A -> M St unit) (pre post : list A) x e env s :
  Forall (fun a => body a env s = (Returned tt, s)) pre ->
  body x env s = (Thrown e, s) ->
  for_of (pre ++ x :: post) body env s = (Thrown e, s).
Proof.
  intros Hpre Hx. induction Hpre as [|a pre Ha _ IH]; cbn [for_of app]; unfold mbind, M_bind.
  - rewrite Hx. reflexivity.
  - rewrite Ha. exact IH.
Qed.

Lemma check_env_valid appName entry env s :
  valid_env entry.2 = true -> check_env appName entry env s = (Returned tt, s).
Proof.
  intros Hv. destruct (check_env_eq appName entry env s) as [e He].
  rewrite He, Hv. reflexivity.
Qed.

Lemma check_app_valid entry env s :
  valid_app entry.2 = true -> check_app entry env s = (Returned tt, s).
Proof.
  intros Hv. destruct (check_app_eq entry env s) as [e He].
  rewrite He, Hv. reflexivity.
Qed.

Lemma check_env_problem appName envName envConfig message env s :
  envConfig <> YNull -> env_problem envConfig = Some message ->
  check_env appName (envName, envConfig) env s
  = (Thrown (JsError (str message ++ appName ++ "."%char :: envName)), s).
Proof.
  intros Hn. unfold check_env, env_problem. cbn [fst snd].
  assert (Hprop : forall k s', @prop (World * Globals) (Some envConfig) k env s'
                               = (Returned (lookup_prop envConfig k), s')).
  { intros k s'. destruct envConfig; try reflexivity. congruence. }
  unfold mbind, M_bind. rewrite Hprop.
  destruct (truthy_value (lookup_prop envConfig "path")); cbn [negb].
  2:{ intros [= <-]. reflexivity. }
  rewrite Hprop.
  destruct (lookup_prop envConfig "steps") as [[|b|n|t|[|x items]|ms]|];
    cbn [truthy_value isArray negb orb]; intros H; try discriminate;
    try (injection H as <-; reflexivity).
  - destruct b; injection H as <-; reflexivity.
  - destruct (n =? 0); injection H as <-; reflexivity.
  - destruct t; injection H as <-; reflexivity.
Qed.

Lemma check_app_first appName envs epre envName envConfig epost message env s :
  envs <> YNull ->
  own_entries envs = epre ++ (envName, envConfig) :: epost ->
  forallb (fun entry => valid_env entry.2) epre = true ->
  envConfig <> YNull -> env_problem envConfig = Some message ->
  check_app (appName, envs) env s
  = (Thrown (JsError (str message ++ appName ++ "."%char :: envName)), s).
Proof.
  intros Hn Hent Hpre Hc Hp. unfold check_app. cbn [fst snd].
  assert (HE : @Object_entries (World * Globals) (Some envs) env s
               = (Returned (own_entries envs), s)).
  { destruct envs; try reflexivity. congruence. }
  unfold mbind, M_bind. rewrite HE, Hent.
  apply for_of_first.
  - rewrite forallb_forall in Hpre. apply List.Forall_forall. intros entry Hin.
    apply check_env_valid, Hpre, Hin.
  - apply check_env_problem; assumption.
Qed.

Lemma loadConfig_first_invalid_env_error yaml_load env w g content y apps
    pre appName envs post epre envName envConfig epost message :
  files w !! CONFIG_FILE = Some content ->
  yaml_load content = Returned (Some y) ->
  truthy_value (lookup_prop y "shellPath") = true ->
  value_or (lookup_prop y "apps") (Some (YMap [])) = Some apps ->
  own_entries apps = pre ++ (appName, envs) :: post ->
  forallb (fun entry => valid_app entry.2) pre = true ->
  envs <> YNull ->
  own_entries envs = epre ++ (envName, envConfig) :: epost ->
  forallb (fun entry => valid_env entry.2) epre = true ->
  envConfig <> YNull ->
  env_problem envConfig = Some message ->
  (loadConfig yaml_load env (w, g)).1
  = Thrown (JsError (str message ++ appName ++ "."%char :: envName)).
Proof.
  intros Hfile Hload Hshell Happs Hent Hpre Hn Heent Hepre Hc Hp.
  assert (Hy : y <> YNull) by (intros ->; discriminate).
  assert (Ha : apps <> YNull).
  { intros ->. revert Happs. unfold value_or.
    destruct (truthy_value (lookup_prop y "apps")) eqn:E; [|discriminate].
    intros H. rewrite H in E. discriminate. }
  cbv [loadConfig try_catch mbind M_bind mret M_ret lift fs.readFile gets set_local modify
       throw config_error fst snd].
  rewrite Hfile, Hload.
  assert (Hprop : forall k s, @prop (World * Globals) (Some y) k env s
                              = (Returned (lookup_prop y k), s)).
  { intros k s. destruct y; try reflexivity. congruence. }
  cbn [g_config set_g_config]. rewrite Hprop. cbv beta iota zeta.
  cbn [g_config g_APPS set_g_APPS]. rewrite Hprop. cbv beta iota zeta.
  rewrite Hshell. cbn [negb]. cbv beta iota zeta. cbn [g_config g_APPS g_console set_g_APPS].
  rewrite Happs.
  assert (HE : forall s, @Object_entries (World * Globals) (Some apps) env s
                         = (Returned (own_entries apps), s)).
  { intros s. destruct apps; try reflexivity. congruence. }
  rewrite HE. cbv beta iota zeta. rewrite Hent.
  rewrite (for_of_first check_app pre post (appName, envs)
             (JsError (str message ++ appName ++ "."%char :: envName))).
  - reflexivity.
  - rewrite forallb_forall in Hpre. apply List.Forall_forall. intros entry Hin.
    apply check_app_valid, Hpre, Hin.
  - apply (check_app_first appName envs epre envName envConfig epost); assumption.
Qed.

(** X28.  The error of [loadConfig] names the first environment that is not
    valid, in the order of [Object.entries]: when the apps before it and the
    environments of its app before it are valid, the message is
    [Missing 'path' for app.env] for an environment without a truthy [path],
    [Missing or invalid 'steps' for app.env] for one whose [steps] is not
    an array, and [No steps defined for app.env] for an empty array.
    [loadConfig] throws the error with this message after it has written
    the message on the console, as the last entry; nothing else changes
    but [config] and [APPS], which are those of the refused document. *)
Theorem loadConfig_names_first_invalid_env yaml_load env w g content y apps
    pre appName envs post epre envName envConfig epost message :
  files w !! CONFIG_FILE = Some content ->
  yaml_load content = Returned (Some y) ->
  truthy_value (lookup_prop y "shellPath") = true ->
  value_or (lookup_prop y "apps") (Some (YMap [])) = Some apps ->
  own_entries apps = pre ++ (appName, envs) :: post ->
  forallb (fun entry => valid_app entry.2) pre = true ->
  envs <> YNull ->
  own_entries envs = epre ++ (envName, envConfig) :: epost ->
  forallb (fun entry => valid_env entry.2) epre = true ->
  envConfig <> YNull ->
  env_problem envConfig = Some message ->
  let text := str message ++ appName ++ str "." ++ envName in
  exists g',
    loadConfig yaml_load env (w, g) = (Thrown (JsError text), (w, g'))
    /\ g_console g' = g_console g ++ [FailedToLoadConfig (Some text)]
    /\ g_config g' = Some y
    /\ g_APPS g' = Some apps.
Proof.
  intros Hfile Hload Hshell Happs Hent Hpre Hn Heent Hepre Hc Hp text.
  pose proof (loadConfig_first_invalid_env_error yaml_load env w g content y apps
                pre appName envs post epre envName envConfig epost message
                Hfile Hload Hshell Happs Hent Hpre Hn Heent Hepre Hc Hp) as Herr.
  destruct (loadConfig_eq yaml_load env w g) as (out & g' & Heq & _ & _ & Hcon & Hg).
  rewrite Heq in Herr. cbn [fst] in Herr. subst out.
  exists g'. split; [exact Heq|]. split; [exact (Hcon _ eq_refl)|].
  rewrite Hfile, Hload in Hg. destruct Hg as [Hgc Hga]. split; [exact Hgc|].
  rewrite Hga, <- Happs. destruct y; try reflexivity. discriminate.
Qed.

Lemma loadConfig_names_first_invalid_env_witness :
  (files (ex_config_world "no steps") !! CONFIG_FILE = Some (str "no steps")
   /\ ex_yaml_load (str "no steps") = Returned (Some ex_yaml_no_steps)
   /\ truthy_value (lookup_prop ex_yaml_no_steps "shellPath") = true
   /\ valid_env ex_yaml_env = true
   /\ env_problem (YMap [ (str "path", YStr (str "/srv/prod")); (str "steps", YSeq []) ])
      = Some "No steps defined for "%string)
  /\ exists g',
      loadConfig ex_yaml_load ex_env (ex_config_world "no steps", initial_globals)
      = (Thrown (JsError (str "No steps defined for app_config.prod")),
         (ex_config_world "no steps", g'))
      /\ g_console g'
         = [FailedToLoadConfig (Some (str "No steps defined for app_config.prod"))].
Proof.
  assert (H1 : files (ex_config_world "no steps") !! CONFIG_FILE = Some (str "no steps"))
    by (vm_compute; reflexivity).
  assert (H2 : ex_yaml_load (str "no steps") = Returned (Some ex_yaml_no_steps))
    by (vm_compute; reflexivity).
  split; [repeat split; try assumption; reflexivity|].
  pose proof (loadConfig_names_first_invalid_env ex_yaml_load ex_env
                (ex_config_world "no steps") initial_globals (str "no steps") ex_yaml_no_steps
                (default YNull (lookup_prop ex_yaml_no_steps "apps"))
                [] (str "app_config")
                (YMap [ (str "stg", ex_yaml_env);
                        (str "prod", YMap [ (str "path", YStr (str "/srv/prod"));
                                            (str "steps", YSeq []) ]) ])
                []
                [(str "stg", ex_yaml_env)] (str "prod")
                (YMap [ (str "path", YStr (str "/srv/prod")); (str "steps", YSeq []) ])
                [] "No steps defined for "%string
                H1 H2 eq_refl eq_refl eq_refl eq_refl ltac:(discriminate) eq_refl eq_refl
                ltac:(discriminate) eq_refl) as H.
  destruct H as (g' & Heq & Hcon & _).
  exists g'. split; [exact Heq | exact Hcon].
Defined.

(** *** What is written for a successful step *)

Lemma or_empty_some x : or_empty (js_or (Some x) None) = x /\ or_empty (Some x) = x.
Proof. destruct x; split; reflexivity. Qed.

(** X29.  For a successful step, what [saveLog] writes as [output] is exactly
    the last 1000 code units of the stdout of its child process, as [stderr]
    the last 500 of its stderr, and as [error] the empty string: at most
    1000 and 500 code units. *)
Theorem successful_step_persisted_tail env w deployId appName en config :
  exists r w',
    deployApp deployId appName en config env w = (Returned r, w')
    /\ forall k res,
         log_steps r !! k = Some res -> sr_status res = StepSuccess ->
         exists s out err,
           cfg_steps config !! k = Some (StepObject s)
           /\ out = slice_last 1000 (cb_stdout (step_callback env w config k s))
           /\ err = slice_last 500 (cb_stderr (step_callback env w config k s))
           /\ js_get "output" (formatStep k res) = Some (JStr out)
           /\ js_get "stderr" (formatStep k res) = Some (JStr err)
           /\ js_get "error" (formatStep k res) = Some (JStr [])
           /\ (length out <= 1000)%nat /\ (length err <= 500)%nat.
Proof.
  destruct (deployApp_anatomy env w deployId appName en config)
    as (out & calls & results & reports & Hd & _ & _ & _ & _ & _ & _ & Hres & _).
  eexists _, _. split; [exact Hd|].
  rewrite finish_log_steps. cbn [log_steps push_steps init_log app]. intros k res Hk Hok.
  destruct (Hres k res Hk) as (step & H1 & _ & _ & _ & _ & _ & _ & Hcall).
  destruct (calls !! k) as [call|]; [|destruct Hcall as (_ & E & _); congruence].
  destruct Hcall as (s & -> & _ & _ & _ & H5). cbn [Nat.add] in H5.
  exists s. eexists _, _. split; [exact H1|]. split; [reflexivity|]. split; [reflexivity|].
  unfold reports_callback in H5.
  destruct (cb_error (step_callback env w config k s)) as [m|].
  { destruct H5 as [H5 _]. congruence. }
  destruct H5 as (_ & Ho & He & Herr & Hso).
  destruct (formatStep_fields k res) as (F1 & F2 & F3). rewrite F1, F2, F3.
  unfold persisted_output, persisted_stderr.
  rewrite Ho, He, Herr, Hso.
  destruct (or_empty_some (slice_last 1000 (cb_stdout (step_callback env w config k s))))
    as [E1 _].
  destruct (or_empty_some (slice_last 500 (cb_stderr (step_callback env w config k s))))
    as [_ E2].
  rewrite E1, E2.
  split; [reflexivity|]. split; [reflexivity|]. split; [reflexivity|].
  split; apply slice_last_length.
Qed.
